(** * AI Slop Feed Detector: a shallow embedding of the service worker
      (background.js) and of the content script (content.js), and the
      properties of the queueing / dedupe / state-machine core. *)

From Stdlib Require Import ZArith Lia.
From stdpp Require Import base option list gmap strings.

Local Open Scope Z_scope.

(** ** JavaScript strings

    A JavaScript string is a sequence of UTF-16 code units; [charCodeAt]
    returns the unit at an index and [length] counts units.  Code units
    are integers in [0, 65536). *)

Module Js.

Abbreviation JsString := (list Z).

Definition code_unit (c : Z) : Prop := 0 <= c < 65536.

(** Numbers are IEEE doubles: an integer is represented exactly when its
    magnitude is below 2^53. *)
Definition exact_double (z : Z) : Prop := - 2 ^ 53 < z < 2 ^ 53.

(** String literals of the source, written with Rocq's ASCII strings. *)
Definition lit (s : string) : JsString :=
  (fun a => Z.of_N (Ascii.N_of_ascii a)) <$> String.list_ascii_of_string s.

(** [ToInt32] of ECMAScript on an integral number: the representative of
    [z] modulo 2^32 in the signed range. *)
Definition toInt32 (z : Z) : Z := (z + 2 ^ 31) mod 2 ^ 32 - 2 ^ 31.

(** [a << n] *)
Definition shl (a n : Z) : Z := toInt32 (Z.shiftl (toInt32 a) (n mod 32)).

(** [a & b] *)
Definition band (a b : Z) : Z := Z.land (toInt32 a) (toInt32 b).

(** [String.prototype.trim]: white space and line terminators. *)
Definition is_space (c : Z) : bool :=
  bool_decide (c ∈ [9; 10; 11; 12; 13; 32; 160; 5760; 8232; 8233; 8239; 8287;
                    12288; 65279])
  || ((8192 <=? c) && (c <=? 8202)).

Fixpoint trim_start (s : JsString) : JsString :=
  match s with
  | c :: s' => if is_space c then trim_start s' else s
  | [] => []
  end.

Definition trim (s : JsString) : JsString :=
  reverse (trim_start (reverse (trim_start s))).

(** [Number.prototype.toString(radix)] on an integral number: the digits
    [0-9a-z] of the magnitude, most significant first, after a minus sign
    for a negative number. *)
Definition digit (d : Z) : Z := if d <? 10 then 48 + d else 87 + d.

Fixpoint digits (fuel : nat) (radix n : Z) (acc : JsString) : JsString :=
  match fuel with
  | O => acc
  | S fuel' =>
      if n <? radix then digit n :: acc
      else digits fuel' radix (n / radix) (digit (n mod radix) :: acc)
  end.

Definition Number_toString (n radix : Z) : JsString :=
  let magnitude := Z.abs n in
  let ds := digits (S (Z.to_nat (Z.log2 magnitude))) radix magnitude [] in
  if n <? 0 then 45 :: ds else ds.

(** Reading a rendering back ([parseInt(s, radix)] on a well-formed
    rendering); used to state that the rendering loses nothing. *)
Definition digit_value (c : Z) : Z := if c <? 58 then c - 48 else c - 87.

Definition read_digits (radix : Z) (s : JsString) : Z :=
  fold_left (fun acc c => acc * radix + digit_value c) s 0.

Definition read_number (radix : Z) (s : JsString) : Z :=
  match s with
  | c :: ds => if c =? 45 then - read_digits radix ds else read_digits radix s
  | [] => 0
  end.

End Js.

Import Js.

(** ** The identity function (content.js, [hashString]) *)

(** One iteration of the loop body:
    [hash = ((hash << 5) - hash) + char; hash = hash & hash]. *)
Definition hash_step (hash char : Z) : Z :=
  let hash := (shl hash 5 - hash) + char in
  band hash hash.

(** [let hash = 0; for (i = 0; i < str.length; i++) { ... }] *)
Definition hash_loop (str : JsString) : Z := fold_left hash_step str 0.

Definition hashString (str : JsString) : JsString :=
  Number_toString (hash_loop str) 36.

(** The same function in the words of the specification: a fold of
    [hash' = truncate32(((hash << 5) - hash) + charCode)], the shift
    being the mathematical one, rendered in base 36. *)
Definition truncate32 (z : Z) : Z :=
  let r := z mod 2 ^ 32 in if r <? 2 ^ 31 then r else r - 2 ^ 32.

Definition spec_fold (str : JsString) : Z :=
  fold_left (fun hash c => truncate32 ((hash * 2 ^ 5 - hash) + c)) str 0.

Definition int32 (z : Z) : Prop := - 2 ^ 31 <= z < 2 ^ 31.

Definition base36_char (c : Z) : Prop := 48 <= c <= 57 \/ 97 <= c <= 122.


(** ** JavaScript values, completions and the host *)

Module JsValue.

#[local] Set Warnings "-register-all".

(** The values the code handles: what [JSON.parse] and [response.json()]
    produce, and [undefined].  Numbers are modelled as integers; the code
    under study only tests parsed numbers for truthiness. *)
Inductive value :=
| VUndefined
| VNull
| VBool (b : bool)
| VNum (n : Z)
| VStr (s : JsString)
| VArr (items : list value)
| VObj (fields : list (JsString * value)).

(** A call either returns or throws an [Error] with a [message]. *)
Inductive completion (A : Type) :=
| Return (a : A)
| Throw (message : JsString).
Arguments Return {A} a.
Arguments Throw {A} message.

(** What the language and the browser provide. *)
Record Host := {
  JSON_parse : JsString -> option value;    (* [None]: a SyntaxError *)
  ToString : value -> JsString;             (* conversion of a non-string *)
  TypeError_message : JsString;             (* text of the engine's TypeError *)
  SyntaxError_message : JsString            (* text of JSON.parse's error *)
}.

Definition truthy (v : value) : bool :=
  match v with
  | VUndefined | VNull => false
  | VBool b => b
  | VNum n => negb (n =? 0)
  | VStr s => negb (bool_decide (s = []))
  | VArr _ | VObj _ => true
  end.

Fixpoint lookup_field (k : JsString) (fields : list (JsString * value)) : value :=
  match fields with
  | [] => VUndefined
  | (k', v) :: rest => if bool_decide (k' = k) then v else lookup_field k rest
  end.

(** [v.k] for a key [k] that no prototype defines. *)
Definition member (host : Host) (v : value) (k : JsString) : completion value :=
  match v with
  | VUndefined | VNull => Throw (TypeError_message host)
  | VObj fields => Return (lookup_field k fields)
  | _ => Return VUndefined
  end.

(** [v?.k] *)
Definition opt_member (host : Host) (v : value) (k : JsString) : completion value :=
  match v with
  | VUndefined | VNull => Return VUndefined
  | _ => member host v k
  end.

(** [v[0]] *)
Definition first_item (host : Host) (v : value) : completion value :=
  match v with
  | VUndefined | VNull => Throw (TypeError_message host)
  | VArr items => Return (default VUndefined (head items))
  | VStr s => Return (match s with c :: _ => VStr [c] | [] => VUndefined end)
  | VObj fields => Return (lookup_field (lit "0") fields)
  | _ => Return VUndefined
  end.

(** String conversion, as [new Error(v)] and a property key apply it. *)
Definition string_of (host : Host) (v : value) : JsString :=
  match v with
  | VStr s => s
  | _ => ToString host v
  end.

Fixpoint starts_with (p s : JsString) : bool :=
  match p, s with
  | [], _ => true
  | a :: p', b :: s' => (a =? b) && starts_with p' s'
  | _ :: _, [] => false
  end.

(** [s.replace(/pat\n?/g, '')] for a literal, non-empty [pat]: every
    match, left to right, is dropped with the line feed that follows it.
    [skip] counts the units of the current match still to drop. *)
Fixpoint remove_fence (pat : JsString) (skip : nat) (s : JsString) : JsString :=
  match s with
  | [] => []
  | c :: s' =>
      match skip with
      | S k => remove_fence pat k s'
      | O =>
          if starts_with pat s then
            let matched :=
              match drop (length pat) s with
              | 10 :: _ => S (length pat)
              | _ => length pat
              end in
            remove_fence pat (Nat.pred matched) s'
          else c :: remove_fence pat 0 s'
      end
  end.

End JsValue.

Import JsValue.

(** ** The service worker (background.js) *)

(** [const MIN_REQUEST_INTERVAL = 1000] *)
Definition MIN_REQUEST_INTERVAL : Z := 1000.

(** A counter of the stats record: a number, possibly [NaN]. *)
Inductive num :=
| Int (n : Z)
| NaN.

(** [x++] on a property that may be missing: [undefined + 1] is [NaN]. *)
Definition increment (x : option num) : num :=
  match x with
  | Some (Int n) => Int (n + 1)
  | Some NaN | None => NaN
  end.

(** The stats record, a JavaScript object used as a map of counters. *)
Abbreviation Stats := (gmap JsString num).

(** [chrome.storage.local], holding what the code keeps in it. *)
Record Storage := {
  stored_apiKey : option JsString;
  stored_enabled : option bool;
  stored_stats : option Stats
}.

(** Module state of the service worker: the store and
    [let lastRequestTime = 0]. *)
Record Background := {
  storage : Storage;
  lastRequestTime : Z
}.

(** [{ apiKey, enabled }] as [getSettings] returns it. *)
Record Settings := {
  apiKey : JsString;
  enabled : bool
}.

(** What [handleAnalyzePost] resolves to:
    [{ likelihood, reason }] or [{ error }]. *)
Inductive Response :=
| Analysis (likelihood : value) (reason : value)
| Failure (error : JsString).

(** A Work Item of the content script, [{ tweet, text, postId }]; the
    tweet is a reference to an element object. *)
Record WorkItem := {
  tweet : nat;
  text : JsString;
  postId : JsString
}.

(** Calls that leave the program, in the order they are made. *)
Inductive Event :=
| EStorageGet (keys : list JsString)      (* chrome.storage.local.get *)
| EStorageSet (stats : Stats)             (* chrome.storage.local.set({stats}) *)
| ETimeout (ms : Z)                       (* the service worker awaits a setTimeout *)
| EDelay (ms : Z)                         (* the content script awaits a setTimeout *)
| EFetch (postText apiKey : JsString)     (* fetch to the completions API *)
| EPush (item : WorkItem)                 (* analysisQueue.push *)
| EShift (item : WorkItem)                (* analysisQueue.shift *)
| ESendMessage (text : JsString).         (* chrome.runtime.sendMessage *)

(** The outcome of [fetch]: a rejection, or a response with its [ok]
    flag, its [status] and what [response.json()] settles to. *)
Inductive FetchOutcome :=
| FetchRejected (message : JsString)
| FetchResponse (ok : bool) (status : Z) (json : completion value).

(** What the environment answers during one run of [handleAnalyzePost]:
    faults of the store ([None]: no fault), the two readings of
    [Date.now()], and the outcome of the fetch. *)
Record Env := {
  settings_read : option JsString;
  now_first : Z;
  now_second : Z;
  fetch_outcome : FetchOutcome;
  stats_read : option JsString;
  stats_write : option JsString
}.

(** The calls of the service worker are reads and writes of the store,
    timers and fetches. *)
Definition worker_event (e : Event) : Prop :=
  match e with
  | EStorageGet _ | EStorageSet _ | ETimeout _ | EFetch _ _ => True
  | _ => False
  end.

(** Computations of the service worker: they read and update its state,
    record the calls they make, and return or throw. *)
Definition M (A : Type) : Type :=
  Background -> completion A * Background * list Event.

Definition ret {A} (a : A) : M A := fun s => (Return a, s, []).

Definition throw {A} (message : JsString) : M A :=
  fun s => (Throw message, s, []).

Definition bind {A B} (m : M A) (k : A -> M B) : M B :=
  fun s =>
    match m s with
    | (Return a, s', ev) =>
        let '(r, s'', ev') := k a s' in (r, s'', ev ++ ev')
    | (Throw e, s', ev) => (Throw e, s', ev)
    end.

(** [try { m } catch (error) { handler(error.message) }] *)
Definition try_catch {A} (m : M A) (handler : JsString -> M A) : M A :=
  fun s =>
    match m s with
    | (Return a, s', ev) => (Return a, s', ev)
    | (Throw e, s', ev) =>
        let '(r, s'', ev') := handler e s' in (r, s'', ev ++ ev')
    end.

Definition emit (e : Event) : M unit := fun s => (Return tt, s, [e]).

Definition lift {A} (c : completion A) : M A := fun s => (c, s, []).

Definition get_state : M Background := fun s => (Return s, s, []).

Definition put_state (s : Background) : M unit := fun _ => (Return tt, s, []).

Declare Scope js_scope.
Delimit Scope js_scope with js.
Notation "x <- m ;; k" := (bind m (fun x => k))
  (at level 100, m at next level, right associativity) : js_scope.
Notation "m ;;; k" := (bind m (fun _ => k))
  (at level 100, right associativity) : js_scope.

Definition LIKELIHOODS : list JsString :=
  [lit "low"; lit "medium"; lit "high"; lit "certain"].

(** [['low', 'medium', 'high', 'certain'].includes(v)] *)
Definition includes_likelihood (v : value) : bool :=
  match v with
  | VStr s => bool_decide (s ∈ LIKELIHOODS)
  | _ => false
  end.

Definition default_stats : Stats :=
  <[lit "totalAnalyzed" := Int 0]>
    (<[lit "low" := Int 0]>
       (<[lit "medium" := Int 0]>
          (<[lit "high" := Int 0]> (<[lit "certain" := Int 0]> ∅)))).

Section ServiceWorker.

Context (host : Host).
Local Open Scope js_scope.

(** [content.replace(/```json\n?/g, '').replace(/```\n?/g, '').trim()];
    a [content] that is not a string has no [replace] method. *)
Definition clean_content (content : value) : completion JsString :=
  match content with
  | VStr s =>
      Return (trim (remove_fence (lit "```") 0
                      (remove_fence (lit "```json") 0 s)))
  | _ => Throw (TypeError_message host)
  end.

Definition parse_json (s : JsString) : completion value :=
  match JSON_parse host s with
  | Some v => Return v
  | None => Throw (SyntaxError_message host)
  end.

Definition analyzeWithOpenAI (env : Env) (postText apiKey : JsString)
  : M Response :=
  emit (EFetch postText apiKey) ;;;
  match fetch_outcome env with
  | FetchRejected message => throw message
  | FetchResponse ok status json =>
      if negb ok then
        let errorData :=
          match json with Return d => d | Throw _ => VObj [] end in
        error <- lift (member host errorData (lit "error")) ;;
        message <- lift (opt_member host error (lit "message")) ;;
        throw (if truthy message then string_of host message
               else lit "API error: " ++ Number_toString status 10)
      else
        data <- lift json ;;
        choices <- lift (member host data (lit "choices")) ;;
        choice <- lift (first_item host choices) ;;
        message <- lift (opt_member host choice (lit "message")) ;;
        content <- lift (opt_member host message (lit "content")) ;;
        if negb (truthy content) then throw (lit "Empty response from API")
        else
          try_catch
            (cleanContent <- lift (clean_content content) ;;
             parsed <- lift (parse_json cleanContent) ;;
             likelihood <- lift (member host parsed (lit "likelihood")) ;;
             if negb (includes_likelihood likelihood)
             then throw (lit "Invalid likelihood value")
             else
               reason <- lift (member host parsed (lit "reason")) ;;
               ret (Analysis likelihood
                      (if truthy reason then reason
                       else VStr (lit "No reason provided"))))
            (fun _ => throw (lit "Failed to parse API response"))
  end.

Definition getSettings (env : Env) : M Settings :=
  emit (EStorageGet [lit "apiKey"; lit "enabled"]) ;;;
  match settings_read env with
  | Some fault => throw fault
  | None =>
      s <- get_state ;;
      ret {| apiKey := default [] (stored_apiKey (storage s));
             enabled := negb (bool_decide (stored_enabled (storage s) = Some false)) |}
  end.

Definition getStats (fault : option JsString) : M Stats :=
  emit (EStorageGet [lit "stats"]) ;;;
  match fault with
  | Some fault => throw fault
  | None =>
      s <- get_state ;;
      ret (default default_stats (stored_stats (storage s)))
  end.

(** [chrome.storage.local.set({ stats })] *)
Definition set_stats (fault : option JsString) (stats : Stats) : M unit :=
  emit (EStorageSet stats) ;;;
  match fault with
  | Some fault => throw fault
  | None =>
      s <- get_state ;;
      put_state {| storage := {| stored_apiKey := stored_apiKey (storage s);
                                 stored_enabled := stored_enabled (storage s);
                                 stored_stats := Some stats |};
                   lastRequestTime := lastRequestTime s |}
  end.

(** [stats[key]++] *)
Definition bump (key : JsString) (stats : Stats) : Stats :=
  <[key := increment (stats !! key)]> stats.

(** The record written for a classification labelled [L] when the store
    holds [store]. *)
Definition counted (L : JsString) (store : Storage) : Stats :=
  bump L (bump (lit "totalAnalyzed")
            (default default_stats (stored_stats store))).

Definition updateStats (env : Env) (likelihood : value) : M unit :=
  stats <- getStats (stats_read env) ;;
  let stats := bump (lit "totalAnalyzed") stats in
  let stats := bump (string_of host likelihood) stats in
  set_stats (stats_write env) stats.

Definition set_lastRequestTime (t : Z) : M unit :=
  s <- get_state ;;
  put_state {| storage := storage s; lastRequestTime := t |}.

(** [result.likelihood] *)
Definition likelihood_of (r : Response) : value :=
  match r with
  | Analysis likelihood _ => likelihood
  | Failure _ => VUndefined
  end.

Definition handleAnalyzePost (env : Env) (postText : JsString) : M Response :=
  try_catch
    (settings <- getSettings env ;;
     if negb (enabled settings) then ret (Failure (lit "Extension disabled"))
     else if bool_decide (apiKey settings = [])
     then ret (Failure (lit "No API key configured"))
     else
       let now := now_first env in
       s <- get_state ;;
       let timeSinceLastRequest := now - lastRequestTime s in
       (if timeSinceLastRequest <? MIN_REQUEST_INTERVAL
        then emit (ETimeout (MIN_REQUEST_INTERVAL - timeSinceLastRequest))
        else ret tt) ;;;
       set_lastRequestTime (now_second env) ;;;
       result <- analyzeWithOpenAI env postText (apiKey settings) ;;
       updateStats env (likelihood_of result) ;;;
       ret result)
    (fun message => ret (Failure message)).

End ServiceWorker.

(** ** The content script (content.js) *)

(** The values of [tweet.dataset.slopAnalyzed]: 'pending', 'no-text',
    'too-short', 'cached', 'complete', 'error'.  All of them are
    non-empty strings, so the test [if (tweet.dataset.slopAnalyzed)]
    holds exactly when the attribute is set. *)
Inductive Tag := Pending | NoText | TooShort | Cached | Complete | Error.

(** The badge found by [tweet.querySelector('.slop-detector-badge')]: the
    spinner of [injectLoadingBadge] or the label of [injectBadge].  The
    tooltip that a result badge owns is not modelled, and the DOM calls
    that insert and remove a badge are taken to succeed. *)
Inductive Badge :=
| LoadingBadge
| ResultBadge (result : Response).

(** A tweet article as the script sees it: its state tag, the
    [innerText] of its [tweetText] descendant when it has one, and its
    badge. *)
Record Element := {
  slopAnalyzed : option Tag;
  tweetText : option JsString;
  badge : option Badge
}.

(** A suspended call of the async function [processQueue]: at the
    [await] of [chrome.runtime.sendMessage] for an item, or at the
    [await] of the 100 ms timer. *)
Inductive Activation :=
| AwaitReply (item : WorkItem)
| AwaitDelay.

(** The page and the two scripts.  Element objects are kept by reference
    (their index in [elements]) and outlive their removal from the
    document; [document] lists the tweet articles attached to the
    document, in document order. *)
Record State := {
  elements : list Element;
  document : list nat;
  analyzedPosts : gmap JsString Response;
  analysisQueue : list WorkItem;
  isProcessingQueue : bool;
  activations : list Activation;
  worker : Background
}.

Definition set_elements (v : list Element) (s : State) : State :=
  {| elements := v; document := document s; analyzedPosts := analyzedPosts s;
     analysisQueue := analysisQueue s; isProcessingQueue := isProcessingQueue s;
     activations := activations s; worker := worker s |}.

Definition set_document (v : list nat) (s : State) : State :=
  {| elements := elements s; document := v; analyzedPosts := analyzedPosts s;
     analysisQueue := analysisQueue s; isProcessingQueue := isProcessingQueue s;
     activations := activations s; worker := worker s |}.

Definition set_analyzedPosts (v : gmap JsString Response) (s : State) : State :=
  {| elements := elements s; document := document s; analyzedPosts := v;
     analysisQueue := analysisQueue s; isProcessingQueue := isProcessingQueue s;
     activations := activations s; worker := worker s |}.

Definition set_analysisQueue (v : list WorkItem) (s : State) : State :=
  {| elements := elements s; document := document s;
     analyzedPosts := analyzedPosts s;
     analysisQueue := v; isProcessingQueue := isProcessingQueue s;
     activations := activations s; worker := worker s |}.

Definition set_isProcessingQueue (v : bool) (s : State) : State :=
  {| elements := elements s; document := document s;
     analyzedPosts := analyzedPosts s;
     analysisQueue := analysisQueue s; isProcessingQueue := v;
     activations := activations s; worker := worker s |}.

Definition set_activations (v : list Activation) (s : State) : State :=
  {| elements := elements s; document := document s;
     analyzedPosts := analyzedPosts s;
     analysisQueue := analysisQueue s; isProcessingQueue := isProcessingQueue s;
     activations := v; worker := worker s |}.

Definition set_worker (v : Background) (s : State) : State :=
  {| elements := elements s; document := document s;
     analyzedPosts := analyzedPosts s;
     analysisQueue := analysisQueue s; isProcessingQueue := isProcessingQueue s;
     activations := activations s; worker := v |}.

(** [tweet.dataset.slopAnalyzed = tag] *)
Definition set_tag (t : nat) (tag : Tag) (s : State) : State :=
  set_elements
    (alter (fun el => {| slopAnalyzed := Some tag; tweetText := tweetText el;
                         badge := badge el |}) t (elements s)) s.

Definition set_badge (t : nat) (b : option Badge) (s : State) : State :=
  set_elements
    (alter (fun el => {| slopAnalyzed := slopAnalyzed el;
                         tweetText := tweetText el; badge := b |})
       t (elements s)) s.

(** The page rewrites the text of a tweet. *)
Definition set_text (t : nat) (txt : option JsString) (s : State) : State :=
  set_elements
    (alter (fun el => {| slopAnalyzed := slopAnalyzed el; tweetText := txt;
                         badge := badge el |})
       t (elements s)) s.

(** [removeBadge(tweet)]: the badge of the tweet, if any, is removed. *)
Definition removeBadge (t : nat) (s : State) : State := set_badge t None s.

(** [injectLoadingBadge(tweet)]: [removeBadge], then a spinner. *)
Definition injectLoadingBadge (t : nat) (s : State) : State :=
  set_badge t (Some LoadingBadge) (removeBadge t s).

(** [injectBadge(tweet, result)]: [removeBadge], then the result badge. *)
Definition injectBadge (t : nat) (result : Response) (s : State) : State :=
  set_badge t (Some (ResultBadge result)) (removeBadge t s).

(** The delay of [processQueue] between two requests, in ms. *)
Definition QUEUE_DELAY : Z := 100.

(** The minimum length of a text worth analysing. *)
Definition MIN_TEXT_LENGTH : Z := 20.

(** The [while (analysisQueue.length > 0)] loop of [processQueue], from
    its head to the next [await] or to its exit; [queue] is the content
    of [analysisQueue] at the head.  It yields the activation left
    suspended, if any. *)
Fixpoint run_loop (queue : list WorkItem) (s : State)
  : State * option Activation * list Event :=
  match queue with
  | [] => (set_isProcessingQueue false (set_analysisQueue [] s), None, [])
  | item :: queue' =>
      if bool_decide (tweet item ∈ document s) then
        (injectLoadingBadge (tweet item) (set_analysisQueue queue' s),
         Some (AwaitReply item),
         [EShift item; ESendMessage (text item)])
      else
        let '(s', a, ev) := run_loop queue' s in
        (s', a, EShift item :: ev)
  end.

(** A call of [processQueue()], up to its first [await]. *)
Definition processQueue (s : State) : State * list Event :=
  if isProcessingQueue s || bool_decide (analysisQueue s = []) then (s, [])
  else
    let '(s', a, ev) :=
      run_loop (analysisQueue s) (set_isProcessingQueue true s) in
    (set_activations (activations s' ++ option_list a) s', ev).

(** The body of the [for (const tweet of tweets)] loop of
    [processTweets]. *)
Definition processTweet (t : nat) (s : State) : State * list Event :=
  match elements s !! t with
  | None => (s, [])
  | Some el =>
      if bool_decide (is_Some (slopAnalyzed el)) then (s, [])
      else
        let s := set_tag t Pending s in
        match tweetText el with
        | None => (set_tag t NoText s, [])
        | Some innerText =>
            let text := trim innerText in
            if Z.of_nat (length text) <? MIN_TEXT_LENGTH
            then (set_tag t TooShort s, [])
            else
              let postId := hashString text in
              match analyzedPosts s !! postId with
              | Some cached => (set_tag t Cached (injectBadge t cached s), [])
              | None =>
                  let item := {| tweet := t; text := text; postId := postId |} in
                  let '(s', ev) :=
                    processQueue
                      (set_analysisQueue (analysisQueue s ++ [item]) s) in
                  (s', EPush item :: ev)
              end
        end
  end.

Fixpoint scan (tweets : list nat) (s : State) : State * list Event :=
  match tweets with
  | [] => (s, [])
  | t :: rest =>
      let '(s1, ev1) := processTweet t s in
      let '(s2, ev2) := scan rest s1 in
      (s2, ev1 ++ ev2)
  end.

(** [processTweets()]: all tweet articles of the document, in order. *)
Definition processTweets (s : State) : State * list Event :=
  scan (document s) s.

(** How the [await] of [chrome.runtime.sendMessage] settles: with the
    response of the service worker, or with an exception. *)
Inductive Settled :=
| Resolved (result : Response)
| Rejected (message : JsString).

(** After the [await] in the [try] block, either the loop goes on at once
    ([continue]) or it reaches the 100 ms timer. *)
Inductive Next := Continue | Delay.

(** [if (result.error)] *)
Definition has_error (result : Response) : bool :=
  match result with
  | Failure error => negb (bool_decide (error = []))
  | Analysis _ _ => false
  end.

(** The rest of the [try ... catch] of [processQueue] once the message
    has settled. *)
Definition settle (item : WorkItem) (r : Settled) (s : State) : State * Next :=
  match r with
  | Resolved result =>
      if has_error result then
        (set_tag (tweet item) Error (removeBadge (tweet item) s), Continue)
      else
        let s := set_analyzedPosts
                   (<[postId item := result]> (analyzedPosts s)) s in
        (set_tag (tweet item) Complete (injectBadge (tweet item) result s),
         Delay)
  | Rejected _ =>
      (set_tag (tweet item) Error (removeBadge (tweet item) s), Delay)
  end.

(** What happens to a message: the channel fails before the service
    worker handles it, or the worker runs [handleAnalyzePost] in an
    environment [env] and its result is sent back. *)
Inductive Delivery :=
| Undelivered (message : JsString)
| Delivered (env : Env).

(** What the scheduler and the page can do next. *)
Inductive Input :=
| Scan                                 (* [processTweets] runs *)
| Reply (n : nat) (d : Delivery)       (* the message of activation [n] settles *)
| Tick (n : nat)                       (* the timer of activation [n] fires *)
| Insert (pos : nat) (tweetText : option JsString)
                                       (* the page adds a new tweet article *)
| Remove (t : nat)                     (* the page removes a tweet article *)
| Attach (pos : nat) (t : nat)         (* the page puts a removed article back *)
| Edit (t : nat) (tweetText : option JsString).
                                       (* the page changes the text of an article *)

Definition replace_activation (n : nat) (a : option Activation)
    (s : State) : State :=
  set_activations
    (match a with
     | Some a' => <[n := a']> (activations s)
     | None => delete n (activations s)
     end) s.

Section System.

Context (host : Host).

Definition deliver (d : Delivery) (item : WorkItem) (s : State)
  : Settled * State * list Event :=
  match d with
  | Undelivered message => (Rejected message, s, [])
  | Delivered env =>
      let '(c, w, ev) := handleAnalyzePost host env (text item) (worker s) in
      (match c with
       | Return result => Resolved result
       | Throw message => Rejected message
       end, set_worker w s, ev)
  end.

(** One turn of the event loop; [None] when the input is not enabled. *)
Definition step (i : Input) (s : State) : option (State * list Event) :=
  match i with
  | Scan => Some (processTweets s)
  | Reply n d =>
      match activations s !! n with
      | Some (AwaitReply item) =>
          let '(r, s1, ev1) := deliver d item s in
          match settle item r s1 with
          | (s2, Delay) =>
              Some (replace_activation n (Some AwaitDelay) s2,
                    ev1 ++ [EDelay QUEUE_DELAY])
          | (s2, Continue) =>
              let '(s3, a, ev3) := run_loop (analysisQueue s2) s2 in
              Some (replace_activation n a s3, ev1 ++ ev3)
          end
      | _ => None
      end
  | Tick n =>
      match activations s !! n with
      | Some AwaitDelay =>
          let '(s', a, ev) := run_loop (analysisQueue s) s in
          Some (replace_activation n a s', ev)
      | _ => None
      end
  | Insert pos tweetText =>
      let t := length (elements s) in
      let el := {| slopAnalyzed := None; tweetText := tweetText;
                   badge := None |} in
      Some (set_document (take pos (document s) ++ t :: drop pos (document s))
              (set_elements (elements s ++ [el]) s), [])
  | Remove t =>
      Some (set_document (filter (fun t' => t' <> t) (document s)) s, [])
  | Attach pos t =>
      if bool_decide (t ∉ document s) && bool_decide (is_Some (elements s !! t))
      then Some (set_document
                   (take pos (document s) ++ t :: drop pos (document s)) s, [])
      else None
  | Edit t tweetText => Some (set_text t tweetText s, [])
  end.

Fixpoint run (inputs : list Input) (s : State) : option (State * list Event) :=
  match inputs with
  | [] => Some (s, [])
  | i :: rest =>
      match step i s with
      | Some (s1, ev1) =>
          match run rest s1 with
          | Some (s2, ev2) => Some (s2, ev1 ++ ev2)
          | None => None
          end
      | None => None
      end
  end.

End System.

(** The page when the content script is loaded: tweet articles without
    tag or badge, an empty cache and queue, no loop running. *)
Definition initial (tweets : list (option JsString)) (store : Storage) : State :=
  {| elements :=
       (fun txt => {| slopAnalyzed := None; tweetText := txt; badge := None |})
         <$> tweets;
     document := seq 0 (length tweets);
     analyzedPosts := ∅;
     analysisQueue := [];
     isProcessingQueue := false;
     activations := [];
     worker := {| storage := store; lastRequestTime := 0 |} |}.

(** The items pushed, and shifted, by a sequence of calls. *)
Definition pushed (ev : list Event) : list WorkItem :=
  omap (fun e => match e with EPush item => Some item | _ => None end) ev.

Definition shifted (ev : list Event) : list WorkItem :=
  omap (fun e => match e with EShift item => Some item | _ => None end) ev.

Definition fetches (ev : list Event) : list JsString :=
  omap (fun e => match e with EFetch t _ => Some t | _ => None end) ev.

Definition sent (ev : list Event) : list JsString :=
  omap (fun e => match e with ESendMessage t => Some t | _ => None end) ev.

Definition delays (ev : list Event) : list Z :=
  omap (fun e => match e with EDelay ms => Some ms | _ => None end) ev.

Definition stats_writes (ev : list Event) : list Stats :=
  omap (fun e => match e with EStorageSet st => Some st | _ => None end) ev.

(** The tag and the badge of a tweet. *)
Definition tag_of (t : nat) (s : State) : option Tag :=
  elements s !! t ≫= slopAnalyzed.

Definition badge_of (t : nat) (s : State) : option Badge :=
  elements s !! t ≫= badge.

(** The consumer loop has at most one activation; the guard flag is set
    exactly while one exists; and no item waits in the queue while no
    activation exists. *)
Definition single_consumer (s : State) : Prop :=
  (length (activations s) <= 1)%nat /\
  (isProcessingQueue s = true <-> activations s <> []) /\
  (activations s = [] -> analysisQueue s = []).

(** Items in flight: those whose message is awaited. *)
Definition in_flight_of (acts : list Activation) : list WorkItem :=
  omap (fun a => match a with AwaitReply item => Some item | AwaitDelay => None end)
    acts.

Definition in_flight (s : State) : list WorkItem :=
  in_flight_of (activations s).

(** The Work Items that exist: in flight or queued. *)
Definition waiting (s : State) : list WorkItem :=
  in_flight s ++ analysisQueue s.

(** Every Work Item that exists belongs to a tweet tagged 'pending', and
    no tweet has two of them. *)
Definition pending_items (s : State) : Prop :=
  NoDup (tweet <$> waiting s) /\
  forall item, item ∈ waiting s -> tag_of (tweet item) s = Some Pending.

Definition well_formed (s : State) : Prop :=
  single_consumer s /\ pending_items s.

(** The item an activation of the loop is suspended on. *)
Definition item_of (a : option Activation) : list WorkItem :=
  match a with
  | Some (AwaitReply item) => [item]
  | _ => []
  end.


(** A tweet that carries a tag and has no Work Item. *)
Definition retired (t : nat) (s : State) : Prop :=
  is_Some (tag_of t s) /\ forall item, item ∈ waiting s -> tweet item <> t.

(** A message was answered without error (the analysis succeeded) or
    the [await] threw: the two paths of the [try ... catch] that reach
    the timer. *)
Definition reaches_timer (r : Settled) : bool :=
  match r with
  | Resolved result => negb (has_error result)
  | Rejected _ => true
  end.

(** A trace is paced when every shift but the first comes after a wait
    of at least [QUEUE_DELAY] since the shift before it. *)
Fixpoint paced_from (delayed : bool) (ev : list Event) : bool :=
  match ev with
  | [] => true
  | EShift _ :: ev' => delayed && paced_from false ev'
  | EDelay ms :: ev' => paced_from (delayed || (QUEUE_DELAY <=? ms)) ev'
  | _ :: ev' => paced_from delayed ev'
  end.

Definition paced (ev : list Event) : bool := paced_from true ev.

(** ** Sample data

    A host whose [JSON.parse] understands one payload, a store with an
    API key, environments in which the client answers, and a few posts. *)

Module Sample.

Definition quoted (s : string) : JsString := 34 :: lit s ++ [34].

Definition payload : JsString :=
  lit "{" ++ quoted "likelihood" ++ lit ":" ++ quoted "high" ++ lit "," ++
  quoted "reason" ++ lit ":" ++ quoted "reframing pattern" ++ lit "}".

Definition parsed_payload : value :=
  VObj [(lit "likelihood", VStr (lit "high"));
        (lit "reason", VStr (lit "reframing pattern"))].

(** A payload with a likelihood outside the four labels. *)
Definition odd_payload : JsString :=
  lit "{" ++ quoted "likelihood" ++ lit ":" ++ quoted "maybe" ++ lit "}".

Definition parsed_odd_payload : value :=
  VObj [(lit "likelihood", VStr (lit "maybe"))].

Definition host : Host :=
  {| JSON_parse := fun s =>
       if bool_decide (s = payload) then Some parsed_payload
       else if bool_decide (s = odd_payload) then Some parsed_odd_payload
       else None;
     ToString := fun _ => lit "[object Object]";
     TypeError_message := lit "Cannot read properties of undefined";
     SyntaxError_message := lit "Unexpected token" |}.

(** The body of a completion whose first choice carries [content]. *)
Definition completion_body (content : JsString) : value :=
  VObj [(lit "choices",
         VArr [VObj [(lit "message", VObj [(lit "content", VStr content)])]])].

Definition env_with (outcome : FetchOutcome) : Env :=
  {| settings_read := None; now_first := 5000; now_second := 5000;
     fetch_outcome := outcome; stats_read := None; stats_write := None |}.

(** The client answers with the payload between markdown fences. *)
Definition env_high : Env :=
  env_with (FetchResponse true 200
              (Return (completion_body
                         (lit "```json" ++ [10] ++ payload ++ [10] ++ lit "```")))).

(** The client answers HTTP 401 with a body that is not JSON. *)
Definition env_401 : Env :=
  env_with (FetchResponse false 401 (Throw (lit "Unexpected end of JSON input"))).

(** The client answers HTTP 429 with the error object of the API. *)
Definition env_429 : Env :=
  env_with (FetchResponse false 429
              (Return (VObj [(lit "error",
                              VObj [(lit "message",
                                     VStr (lit "Rate limit reached"))])]))).

Definition env_content (content : JsString) : Env :=
  env_with (FetchResponse true 200 (Return (completion_body content))).

Definition store_with_key : Storage :=
  {| stored_apiKey := Some (lit "sk-test"); stored_enabled := None;
     stored_stats := None |}.

Definition store_disabled : Storage :=
  {| stored_apiKey := Some (lit "sk-test"); stored_enabled := Some false;
     stored_stats := None |}.

Definition store_without_key : Storage :=
  {| stored_apiKey := None; stored_enabled := Some true;
     stored_stats := None |}.

Definition worker_of (store : Storage) : Background :=
  {| storage := store; lastRequestTime := 0 |}.

Definition post_a : JsString :=
  lit "Breaking: this isn't just news. It's a revolution.".
Definition post_b : JsString := lit "Another perfectly ordinary post!".
Definition post_c : JsString := lit "A third post, long enough to analyse.".

Definition the_analysis : Response :=
  Analysis (VStr (lit "high")) (VStr (lit "reframing pattern")).

End Sample.

(** Runs of the sample page. *)
Module Runs.

Import Sample.

Definition item_for (t : nat) (post : JsString) : WorkItem :=
  {| tweet := t; text := post; postId := hashString post |}.

(** Three posts; the second leaves the document while the first is in
    flight; the first is classified; the timer fires. *)
Definition three_posts : State :=
  initial [Some post_a; Some post_b; Some post_c] store_with_key.

Definition second_removed : list Input :=
  [Scan; Remove 1; Reply 0 (Delivered env_high); Tick 0].

(** Two posts with the same text; both are classified. *)
Definition twin_posts : State :=
  initial [Some post_a; Some post_a] store_with_key.

Definition both_classified : list Input :=
  [Scan; Reply 0 (Delivered env_high); Tick 0; Reply 0 (Delivered env_high)].

(** The state and the trace a run ends with. *)
Definition after (inputs : list Input) (s : State) : State :=
  match run host inputs s with
  | Some (s', _) => s'
  | None => s
  end.

Definition trace (inputs : list Input) (s : State) : list Event :=
  match run host inputs s with
  | Some (_, tr) => tr
  | None => []
  end.

(** One post, classified, and then a second article with the same text
    added to the page. *)
Definition one_post : State := initial [Some post_a] store_with_key.

Definition first_classified : State :=
  fst (settle (item_for 0 post_a) (Resolved the_analysis)
         (after [Scan] one_post)).

Definition twin_inserted : list Input := [Insert 0 (Some post_a)].

End Runs.

(** ** More of the identity function *)

(** The polynomial that [hashString] evaluates, without truncation:
    [c0 * 31^(n-1) + c1 * 31^(n-2) + ... + c(n-1)], by Horner's rule. *)
Definition poly31 (str : JsString) : Z :=
  fold_left (fun acc c => acc * 31 + c) str 0.

(** ** More of the service worker *)

(** The [settings] object of a [saveSettings] message: the keys it
    carries.  The popup sends [{ apiKey, enabled }] or [{ enabled }]. *)
Record SettingsUpdate := {
  update_apiKey : option JsString;
  update_enabled : option bool
}.

(** [chrome.storage.local.set(settings)]: the keys given replace the
    stored ones, the others stay. *)
Definition store_settings (u : SettingsUpdate) (st : Storage) : Storage :=
  {| stored_apiKey :=
       match update_apiKey u with Some k => Some k | None => stored_apiKey st end;
     stored_enabled :=
       match update_enabled u with Some b => Some b | None => stored_enabled st end;
     stored_stats := stored_stats st |}.

(** [saveSettings(settings)]: resolves to [{ success: true }], or rejects
    with the fault of the store. *)
Definition saveSettings (fault : option JsString) (u : SettingsUpdate)
    (w : Background) : completion unit * Background :=
  match fault with
  | Some message => (Throw message, w)
  | None =>
      (Return tt,
       {| storage := store_settings u (storage w);
          lastRequestTime := lastRequestTime w |})
  end.





(** ** The popup (popup.js) *)

Module Popup.

(** The elements of the popup the script reads and writes: the key
    field, the checkbox, the status line, the save button, the five
    counters, and the timers of [showStatus] not yet fired. *)
Record Page := {
  apiKey_value : JsString;
  enabled_checked : bool;
  status_className : JsString;
  status_textContent : JsString;
  saveBtn_disabled : bool;
  saveBtn_textContent : JsString;
  totalAnalyzed_text : Z;
  lowCount_text : Z;
  mediumCount_text : Z;
  highCount_text : Z;
  certainCount_text : Z;
  status_timers : nat
}.

(** What becomes of a message to the service worker: the channel fails
    and the [await] throws; or the worker handles it, its store
    answering or failing with [fault].  A handler whose promise rejects
    never calls [sendResponse], and the [await] of the sender throws. *)
Inductive Channel :=
| Lost (message : JsString)
| Handled (fault : option JsString).

(** An environment in which the store answers with [fault]. *)
Definition store_env (fault : option JsString) : Env :=
  {| settings_read := fault; now_first := 0; now_second := 0;
     fetch_outcome := FetchRejected []; stats_read := fault;
     stats_write := fault |}.

(** [showStatus(type, message)] *)
Definition showStatus (type message : JsString) (p : Page) : Page :=
  {| apiKey_value := apiKey_value p; enabled_checked := enabled_checked p;
     status_className := lit "status " ++ type;
     status_textContent := message;
     saveBtn_disabled := saveBtn_disabled p;
     saveBtn_textContent := saveBtn_textContent p;
     totalAnalyzed_text := totalAnalyzed_text p;
     lowCount_text := lowCount_text p; mediumCount_text := mediumCount_text p;
     highCount_text := highCount_text p;
     certainCount_text := certainCount_text p;
     status_timers := S (status_timers p) |}.

(** The callback of the 3 s timer of [showStatus]. *)
Definition hideStatus (p : Page) : Page :=
  {| apiKey_value := apiKey_value p; enabled_checked := enabled_checked p;
     status_className := lit "status";
     status_textContent := [];
     saveBtn_disabled := saveBtn_disabled p;
     saveBtn_textContent := saveBtn_textContent p;
     totalAnalyzed_text := totalAnalyzed_text p;
     lowCount_text := lowCount_text p; mediumCount_text := mediumCount_text p;
     highCount_text := highCount_text p;
     certainCount_text := certainCount_text p;
     status_timers := Nat.pred (status_timers p) |}.

Definition set_button (disabled : bool) (label : JsString) (p : Page) : Page :=
  {| apiKey_value := apiKey_value p; enabled_checked := enabled_checked p;
     status_className := status_className p;
     status_textContent := status_textContent p;
     saveBtn_disabled := disabled;
     saveBtn_textContent := label;
     totalAnalyzed_text := totalAnalyzed_text p;
     lowCount_text := lowCount_text p; mediumCount_text := mediumCount_text p;
     highCount_text := highCount_text p;
     certainCount_text := certainCount_text p;
     status_timers := status_timers p |}.

Definition set_fields (key : JsString) (checked : bool) (p : Page) : Page :=
  {| apiKey_value := key; enabled_checked := checked;
     status_className := status_className p;
     status_textContent := status_textContent p;
     saveBtn_disabled := saveBtn_disabled p;
     saveBtn_textContent := saveBtn_textContent p;
     totalAnalyzed_text := totalAnalyzed_text p;
     lowCount_text := lowCount_text p; mediumCount_text := mediumCount_text p;
     highCount_text := highCount_text p;
     certainCount_text := certainCount_text p;
     status_timers := status_timers p |}.

(** [stats.key || 0]: a missing counter, [NaN] and 0 all show as 0. *)
Definition shown (key : JsString) (stats : Stats) : Z :=
  match stats !! key with
  | Some (Int n) => n
  | Some NaN | None => 0
  end.

Definition set_counters (stats : Stats) (p : Page) : Page :=
  {| apiKey_value := apiKey_value p; enabled_checked := enabled_checked p;
     status_className := status_className p;
     status_textContent := status_textContent p;
     saveBtn_disabled := saveBtn_disabled p;
     saveBtn_textContent := saveBtn_textContent p;
     totalAnalyzed_text := shown (lit "totalAnalyzed") stats;
     lowCount_text := shown (lit "low") stats;
     mediumCount_text := shown (lit "medium") stats;
     highCount_text := shown (lit "high") stats;
     certainCount_text := shown (lit "certain") stats;
     status_timers := status_timers p |}.

Section WithHost.

Context (host : Host).

(** [loadSettings()]: on a failure the fields stay as they are. *)
Definition loadSettings (ch : Channel) (p : Page) (w : Background)
  : Page * Background :=
  match ch with
  | Lost _ => (p, w)
  | Handled fault =>
      match getSettings (store_env fault) w with
      | (Return response, w', _) =>
          (set_fields (apiKey response) (enabled response) p, w')
      | (Throw _, w', _) => (p, w')
      end
  end.

(** [loadStats()] *)
Definition loadStats (ch : Channel) (p : Page) (w : Background)
  : Page * Background :=
  match ch with
  | Lost _ => (p, w)
  | Handled fault =>
      match getStats fault w with
      | (Return stats, w', _) => (set_counters stats p, w')
      | (Throw _, w', _) => (p, w')
      end
  end.

(** [init()]: the settings, then the stats. *)
Definition init (ch1 ch2 : Channel) (p : Page) (w : Background)
  : Page * Background :=
  let '(p1, w1) := loadSettings ch1 p w in
  loadStats ch2 p1 w1.

(** The [await] of a [saveSettings] message: [true] when it resolves. *)
Definition send_saveSettings (ch : Channel) (u : SettingsUpdate)
    (w : Background) : bool * Background :=
  match ch with
  | Lost _ => (false, w)
  | Handled fault =>
      match saveSettings fault u w with
      | (Return _, w') => (true, w')
      | (Throw _, w') => (false, w')
      end
  end.

(** The text of the error shown for a key of the wrong format. *)
Definition invalid_format : JsString :=
  lit "Invalid API key format. Should start with " ++ [34] ++ lit "sk-" ++ [34].

(** [if (apiKey && !apiKey.startsWith('sk-'))] *)
Definition rejected_key (key : JsString) : bool :=
  negb (bool_decide (key = [])) && negb (starts_with (lit "sk-") key).

(** [saveSettings()] of the popup. *)
Definition saveSettings (ch : Channel) (p : Page) (w : Background)
  : Page * Background :=
  let apiKey := trim (apiKey_value p) in
  let enabled := enabled_checked p in
  if rejected_key apiKey then (showStatus (lit "error") invalid_format p, w)
  else
    let p := set_button true (lit "Saving...") p in
    let '(resolved, w') :=
      send_saveSettings ch
        {| update_apiKey := Some apiKey; update_enabled := Some enabled |} w in
    let p :=
      if resolved
      then showStatus (lit "success") (lit "Settings saved successfully!") p
      else showStatus (lit "error") (lit "Failed to save settings") p in
    (set_button false (lit "Save Settings") p, w').

(** [toggleEnabled()]: an error is only logged. *)
Definition toggleEnabled (ch : Channel) (p : Page) (w : Background)
  : Page * Background :=
  let enabled := enabled_checked p in
  let '(_, w') :=
    send_saveSettings ch
      {| update_apiKey := None; update_enabled := Some enabled |} w in
  (p, w').

(** What happens to the popup and the service worker: the popup is
    opened, the user types a key, flips the checkbox (which fires
    [toggleEnabled]), clicks the save button, a status timer fires, or
    the content script asks for an analysis. *)
Inductive Action :=
| Open (ch1 ch2 : Channel)
| TypeKey (key : JsString)
| FlipEnabled (ch : Channel)
| ClickSave (ch : Channel)
| StatusTimer
| Analyze (env : Env) (postText : JsString).

Definition act (a : Action) (pw : Page * Background) : Page * Background :=
  let '(p, w) := pw in
  match a with
  | Open ch1 ch2 => init ch1 ch2 p w
  | TypeKey key => (set_fields key (enabled_checked p) p, w)
  | FlipEnabled ch =>
      toggleEnabled ch (set_fields (apiKey_value p) (negb (enabled_checked p)) p) w
  | ClickSave ch => saveSettings ch p w
  | StatusTimer =>
      (match status_timers p with O => p | S _ => hideStatus p end, w)
  | Analyze env postText =>
      let '(_, w', _) := handleAnalyzePost host env postText w in (p, w')
  end.

Definition acts (l : list Action) (pw : Page * Background) : Page * Background :=
  fold_left (fun pw a => act a pw) l pw.

End WithHost.

(** A key the popup lets through: empty, or starting with [sk-]. *)
Definition accepted_key (key : JsString) : Prop :=
  key = [] \/ starts_with (lit "sk-") key = true.

(** The store holds no key, or one the popup lets through. *)
Definition stored_accepted (w : Background) : Prop :=
  match stored_apiKey (storage w) with
  | Some key => accepted_key key
  | None => True
  end.

End Popup.

(** ** Traffic of the content script *)



(** ** Badges *)





(** The responses that pass [if (result.error)] in [processQueue]: an
    analysis with one of the four likelihoods, or a failure whose
    message is empty. *)
Definition presentable (result : Response) : Prop :=
  match result with
  | Analysis likelihood _ =>
      exists L, likelihood = VStr L /\ L ∈ LIKELIHOODS
  | Failure error => error = []
  end.

(** What a tweet article shows for its tag, given the tweets whose
    message is awaited: a spinner while its own message is awaited, a
    result badge of a presentable response once it is 'cached' or
    'complete', and no badge otherwise. *)
Definition shows (flying : list nat) (t : nat) (el : Element) : Prop :=
  match slopAnalyzed el with
  | Some Pending =>
      badge el = if bool_decide (t ∈ flying) then Some LoadingBadge else None
  | Some Cached | Some Complete =>
      exists result,
        badge el = Some (ResultBadge result) /\ presentable result
  | Some NoText | Some TooShort | Some Error | None => badge el = None
  end.

Definition rendered (s : State) : Prop :=
  forall t el, elements s !! t = Some el ->
    shows (tweet <$> in_flight s) t el.

(** Only presentable responses are in the cache. *)
Definition cache_clean (s : State) : Prop :=
  forall k result, analyzedPosts s !! k = Some result -> presentable result.

(** ** Scans *)

(** A tweet [processTweets] passes over: it is no element of the page,
    or it carries a tag. *)
Definition marked (t : nat) (s : State) : Prop :=
  slopAnalyzed <$> (elements s !! t) <> Some None.

(** ** The feed observer *)

(** [observeFeed] of the content script: the callback of the
    [MutationObserver] and the timer it keeps in [observeFeed.timeout].
    The host is modelled by its pending timers for [processTweets], each
    with a handle and the time from which it may fire; handles are
    never reused. *)
Module Watcher.

(** The delay of the debounce timer, in ms. *)
Definition DEBOUNCE : Z := 200.

Record Timer := { handle : nat; deadline : Z }.

Record State := {
  timeout : option nat;          (* observeFeed.timeout *)
  timers : list Timer;           (* pending timers of the host *)
  fresh : nat                    (* the next handle *)
}.

Definition initial : State := {| timeout := None; timers := []; fresh := 1 |}.

(** [clearTimeout(handle)]; with [undefined], or the handle of a timer
    that has fired, it does nothing. *)
Definition clearTimeout (h : option nat) (pending : list Timer) : list Timer :=
  match h with
  | Some i => filter (fun t => handle t <> i) pending
  | None => pending
  end.

(** The loop over the mutation records, each given by the length of
    its [addedNodes]. *)
Definition hasNewContent (mutations : list nat) : bool :=
  existsb (fun addedNodes => (0 <? addedNodes)%nat) mutations.

(** The callback of the observer, called at time [now]. *)
Definition callback (now : Z) (mutations : list nat) (w : State) : State :=
  if hasNewContent mutations then
    {| timeout := Some (fresh w);
       timers := clearTimeout (timeout w) (timers w)
                 ++ [{| handle := fresh w; deadline := now + DEBOUNCE |}];
       fresh := S (fresh w) |}
  else w.

(** What happens to the observer: a batch of mutation records is
    delivered, or a pending timer fires, not before its deadline, and
    calls [processTweets]. *)
Inductive Input :=
| Mutations (now : Z) (mutations : list nat)
| Fire (now : Z) (h : nat).

Definition time (i : Input) : Z :=
  match i with Mutations now _ | Fire now _ => now end.

Definition step (i : Input) (w : State) : option State :=
  match i with
  | Mutations now mutations => Some (callback now mutations w)
  | Fire now h =>
      match find (fun t => bool_decide (handle t = h)) (timers w) with
      | Some t =>
          if deadline t <=? now
          then Some {| timeout := timeout w;
                       timers := filter (fun t => handle t <> h) (timers w);
                       fresh := fresh w |}
          else None
      | None => None
      end
  end.

Fixpoint run (inputs : list Input) (w : State) : option State :=
  match inputs with
  | [] => Some w
  | i :: rest =>
      match step i w with
      | Some w1 => run rest w1
      | None => None
      end
  end.

(** The times at which new content was seen, and the calls of
    [processTweets]. *)
Definition content_times (inputs : list Input) : list Z :=
  omap (fun i => match i with
                 | Mutations now m => if hasNewContent m then Some now else None
                 | Fire _ _ => None
                 end) inputs.

Definition calls (inputs : list Input) : list Z :=
  omap (fun i => match i with Fire now _ => Some now | _ => None end) inputs.

(** Times in the order they pass. *)
Fixpoint ascending (times : list Z) : Prop :=
  match times with
  | [] => True
  | T :: rest => Forall (Z.le T) rest /\ ascending rest
  end.

(** At most one timer is pending; it is the one [observeFeed.timeout]
    holds, and it was set [DEBOUNCE] ms after the content seen so far. *)
Definition debounced (seen : list Z) (w : State) : Prop :=
  (length (timers w) <= 1)%nat /\
  forall t, t ∈ timers w ->
    timeout w = Some (handle t) /\
    forall T0, T0 ∈ seen -> T0 + DEBOUNCE <= deadline t.

End Watcher.

(** ** More sample data *)

Module Scenes.

Import Sample.

(** A request 400 ms after the last one; the timer of the service
    worker lasts its 600 ms. *)
Definition env_soon : Env :=
  {| settings_read := None; now_first := 400; now_second := 1000;
     fetch_outcome := fetch_outcome env_high;
     stats_read := None; stats_write := None |}.

(** The popup with a key typed between blanks and the checkbox off. *)
Definition typed_page : Popup.Page :=
  {| Popup.apiKey_value := lit "  sk-live  ";
     Popup.enabled_checked := false;
     Popup.status_className := lit "status";
     Popup.status_textContent := [];
     Popup.saveBtn_disabled := false;
     Popup.saveBtn_textContent := lit "Save Settings";
     Popup.totalAnalyzed_text := 0;
     Popup.lowCount_text := 0; Popup.mediumCount_text := 0;
     Popup.highCount_text := 0; Popup.certainCount_text := 0;
     Popup.status_timers := 0 |}.


(** A burst of mutation batches, the last without new nodes. *)
Definition burst : list Watcher.Input :=
  [Watcher.Mutations 0 [1%nat]; Watcher.Mutations 50 [0%nat; 2%nat];
   Watcher.Mutations 120 [0%nat]].

End Scenes.
Example hashString_short : hashString (lit "short") = lit "1t53zw".
Proof. vm_compute. reflexivity. Qed.


Example hashString_negative :
  hashString (lit "Another perfectly ordinary post!") = lit "-vn8qoq".
Proof. vm_compute. reflexivity. Qed.

(** ** Properties of the identity function *)

Section Int32.

Lemma toInt32_range z : int32 (toInt32 z).
Proof.
  unfold int32, toInt32.
  pose proof (Z.mod_pos_bound (z + 2 ^ 31) (2 ^ 32)). lia.
Qed.

Lemma toInt32_shift z k : toInt32 (z + k * 2 ^ 32) = toInt32 z.
Proof.
  unfold toInt32.
  replace (z + k * 2 ^ 32 + 2 ^ 31) with (z + 2 ^ 31 + k * 2 ^ 32) by ring.
  now rewrite Z_mod_plus_full.
Qed.

Lemma toInt32_wraps z : exists k, toInt32 z = z + k * 2 ^ 32.
Proof.
  exists (- ((z + 2 ^ 31) / 2 ^ 32)). unfold toInt32.
  rewrite Z.mod_eq by lia. ring.
Qed.

Lemma toInt32_small z : int32 z -> toInt32 z = z.
Proof.
  unfold int32, toInt32. intros Hz.
  rewrite Z.mod_small by lia. ring.
Qed.

Lemma truncate32_toInt32 z : truncate32 z = toInt32 z.
Proof.
  unfold truncate32, toInt32.
  change (2 ^ 32) with 4294967296. change (2 ^ 31) with 2147483648.
  destruct (Z.ltb_spec (z mod 4294967296) 2147483648);
    Z.to_euclidean_division_equations; lia.
Qed.

Lemma shl_5 h : shl h 5 = toInt32 (h * 2 ^ 5).
Proof.
  unfold shl. change (5 mod 32) with 5.
  rewrite Z.shiftl_mul_pow2 by lia.
  destruct (toInt32_wraps h) as [k ->].
  replace ((h + k * 2 ^ 32) * 2 ^ 5) with (h * 2 ^ 5 + (k * 2 ^ 5) * 2 ^ 32)
    by ring.
  apply toInt32_shift.
Qed.

Lemma band_diag h : band h h = toInt32 h.
Proof. unfold band. apply Z.land_diag. Qed.

Lemma hash_step_truncate h c :
  hash_step h c = truncate32 ((h * 2 ^ 5 - h) + c).
Proof.
  unfold hash_step. rewrite band_diag, shl_5, truncate32_toInt32.
  destruct (toInt32_wraps (h * 2 ^ 5)) as [k ->].
  replace (h * 2 ^ 5 + k * 2 ^ 32 - h + c)
    with (h * 2 ^ 5 - h + c + k * 2 ^ 32) by ring.
  apply toInt32_shift.
Qed.

Lemma hash_loop_from h str :
  fold_left hash_step str h =
  fold_left (fun hash c => truncate32 ((hash * 2 ^ 5 - hash) + c)) str h.
Proof.
  revert h. induction str as [| c str IH]; intros h; [reflexivity |].
  cbn [fold_left]. rewrite hash_step_truncate. apply IH.
Qed.

Lemma hash_loop_from_int32 h str :
  int32 h -> int32 (fold_left hash_step str h).
Proof.
  revert h. induction str as [| c str IH]; intros h Hh; [exact Hh |].
  cbn [fold_left]. apply IH.
  unfold hash_step. rewrite band_diag. apply toInt32_range.
Qed.

(** On code units the arithmetic of the loop body stays within the
    integers that a double represents exactly, so the integer model of
    [((hash << 5) - hash) + char] loses nothing. *)
Lemma hash_step_exact h c :
  int32 h -> code_unit c ->
  exact_double (shl h 5 - h) /\ exact_double (shl h 5 - h + c).
Proof.
  unfold code_unit, exact_double. intros Hh Hc.
  assert (int32 (shl h 5)) as Hs by apply toInt32_range.
  unfold int32 in *. lia.
Qed.

End Int32.

Section Rendering.

Lemma digit_value_digit d : 0 <= d < 36 -> digit_value (digit d) = d.
Proof.
  intros Hd. unfold digit, digit_value.
  destruct (Z.ltb_spec d 10).
  - destruct (Z.ltb_spec (48 + d) 58); lia.
  - destruct (Z.ltb_spec (87 + d) 58); lia.
Qed.

Lemma digit_base36 d : 0 <= d < 36 -> base36_char (digit d).
Proof.
  intros Hd. unfold digit, base36_char.
  destruct (Z.ltb_spec d 10); lia.
Qed.

Lemma digits_acc fuel radix n acc :
  digits fuel radix n acc = digits fuel radix n [] ++ acc.
Proof.
  revert n acc. induction fuel as [| fuel IH]; intros n acc; [reflexivity |].
  cbn [digits]. destruct (n <? radix); [reflexivity |].
  rewrite IH, (IH _ [_]), <- app_assoc. reflexivity.
Qed.

Lemma read_digits_snoc radix s c :
  read_digits radix (s ++ [c]) = read_digits radix s * radix + digit_value c.
Proof. unfold read_digits. now rewrite fold_left_app. Qed.

Lemma read_digits_digits fuel n :
  0 <= n < 2 ^ Z.of_nat fuel ->
  read_digits 36 (digits fuel 36 n []) = n.
Proof.
  revert n. induction fuel as [| fuel IH]; intros n Hn.
  - change (2 ^ Z.of_nat 0) with 1 in Hn.
    assert (n = 0) as -> by lia. reflexivity.
  - cbn [digits]. destruct (Z.ltb_spec n 36) as [Hlt | Hge].
    + unfold read_digits. cbn [fold_left].
      rewrite digit_value_digit by lia. lia.
    + rewrite digits_acc, read_digits_snoc, IH.
      * rewrite digit_value_digit by (apply Z.mod_pos_bound; lia).
        pose proof (Z.div_mod n 36). lia.
      * rewrite Nat2Z.inj_succ, Z.pow_succ_r in Hn by lia.
        split; [apply Z.div_pos; lia |].
        apply Z.div_lt_upper_bound; lia.
Qed.

Lemma digits_base36 fuel n :
  0 <= n -> Forall base36_char (digits fuel 36 n []).
Proof.
  revert n. induction fuel as [| fuel IH]; intros n Hn; [constructor |].
  cbn [digits]. destruct (Z.ltb_spec n 36) as [Hlt | Hge].
  - apply Forall_cons. split; [apply digit_base36; lia | constructor].
  - rewrite digits_acc. apply Forall_app. split.
    + apply IH. apply Z.div_pos; lia.
    + apply Forall_cons. split; [| constructor].
      apply digit_base36, Z.mod_pos_bound. lia.
Qed.

Lemma digits_nonempty fuel n : digits (S fuel) 36 n [] <> [].
Proof.
  cbn [digits]. destruct (n <? 36); [discriminate |].
  rewrite digits_acc. intros H. apply app_eq_nil in H as [_ H]. discriminate.
Qed.

Lemma log2_fuel n : 0 <= n -> n < 2 ^ Z.of_nat (S (Z.to_nat (Z.log2 n))).
Proof.
  intros Hn. rewrite Nat2Z.inj_succ, Z2Nat.id by apply Z.log2_nonneg.
  destruct (Z.eq_dec n 0) as [-> | Hne]; [reflexivity |].
  apply Z.log2_spec. lia.
Qed.

(** Reading the base-36 rendering back gives the number. *)
Lemma read_number_toString n : read_number 36 (Number_toString n 36) = n.
Proof.
  unfold Number_toString.
  pose proof (log2_fuel (Z.abs n) (Z.abs_nonneg n)) as Hfuel.
  pose proof (read_digits_digits _ (Z.abs n) (conj (Z.abs_nonneg n) Hfuel))
    as Hread.
  pose proof (digits_base36 (S (Z.to_nat (Z.log2 (Z.abs n)))) (Z.abs n)
                (Z.abs_nonneg n)) as Hchars.
  pose proof (digits_nonempty (Z.to_nat (Z.log2 (Z.abs n))) (Z.abs n)) as Hne.
  destruct (Z.ltb_spec n 0) as [Hneg | Hpos].
  - cbn [read_number]. rewrite Z.eqb_refl, Hread. lia.
  - destruct (digits _ 36 (Z.abs n) []) as [| c ds]; [congruence |].
    cbn [read_number]. apply Forall_cons in Hchars as [Hc _].
    destruct (Z.eqb_spec c 45) as [-> | _].
    + unfold base36_char in Hc. lia.
    + rewrite Hread. lia.
Qed.

(** The rendering uses the digits [0-9a-z] and a leading minus sign. *)
Lemma toString_base36 n :
  Forall (fun c => c = 45 \/ base36_char c) (Number_toString n 36).
Proof.
  unfold Number_toString.
  pose proof (digits_base36 (S (Z.to_nat (Z.log2 (Z.abs n)))) (Z.abs n)
                (Z.abs_nonneg n)) as Hchars.
  assert (Forall (fun c => c = 45 \/ base36_char c)
            (digits (S (Z.to_nat (Z.log2 (Z.abs n)))) 36 (Z.abs n) [])) as H.
  { eapply Forall_impl; [exact Hchars |]. intros c Hc. now right. }
  destruct (n <? 0); [constructor; [now left | exact H] | exact H].
Qed.

End Rendering.

(** C6. [hashString] is a pure function of its argument (two evaluations
    on the same text agree); the integer it folds is the fold of
    [hash' = truncate32(((hash << 5) - hash) + charCode)] over the
    character codes, starting from 0, which is a signed 32-bit integer;
    and its value is the base-36 rendering of that integer: digits
    [0-9a-z] after an optional minus sign, which read back as the
    integer. *)
Theorem hashString_fold_base36 (T : JsString) :
  hashString T = hashString T
  /\ hash_loop T = spec_fold T
  /\ int32 (spec_fold T)
  /\ hashString T = Number_toString (spec_fold T) 36
  /\ Forall (fun c => c = 45 \/ base36_char c) (hashString T)
  /\ read_number 36 (hashString T) = spec_fold T.
Proof.
  assert (hash_loop T = spec_fold T) as Heq by apply hash_loop_from.
  split; [reflexivity |]. split; [exact Heq |]. split.
  { rewrite <- Heq. apply hash_loop_from_int32. unfold int32. lia. }
  unfold hashString. rewrite Heq.
  split; [reflexivity |]. split; [apply toString_base36 |].
  apply read_number_toString.
Qed.

(** ** The service worker *)

Section ServiceWorkerFacts.

Context (host : Host).

Ltac unfold_M :=
  unfold bind, try_catch, emit, lift, throw, ret, get_state, put_state in *.

(** A [try ... catch] whose handler returns never throws. *)
Lemma try_catch_returns {A} (m : M A) (handler : JsString -> M A) w :
  (forall e w1, exists a w2 ev, handler e w1 = (Return a, w2, ev)) ->
  exists a w' ev, try_catch m handler w = (Return a, w', ev).
Proof.
  intros Hh. unfold try_catch.
  destruct (m w) as [[[a | e] w1] ev1]; [eauto |].
  destruct (Hh e w1) as (a & w2 & ev2 & ->). eauto.
Qed.

(** What [analyzeWithOpenAI] returns, when it returns: a likelihood of
    the four-label set and a truthy reason, after exactly one fetch. *)
Lemma analyzeWithOpenAI_returns env postText key w r w' ev :
  analyzeWithOpenAI host env postText key w = (Return r, w', ev) ->
  w' = w /\ ev = [EFetch postText key] /\
  exists L reason,
    r = Analysis (VStr L) reason /\ L ∈ LIKELIHOODS /\ truthy reason = true.
Proof.
  unfold analyzeWithOpenAI. unfold_M. intros H.
  repeat (case_match; simplify_eq/=); try done.
  all: split; [done |]; split; [done |].
  all: match goal with
       | Hin : negb (includes_likelihood ?l) = false |- _ =>
           destruct l; simpl in Hin; try discriminate;
           apply negb_false_iff, bool_decide_eq_true in Hin
       end.
  all: eexists _, _; split; [reflexivity |]; split; [done |].
  all: by repeat case_match.
Qed.

(** The runs of [handleAnalyzePost] that return an analysis: the
    settings allow it, the client returned it, and the stats were read
    and written once. *)
Lemma handleAnalyzePost_analysis env postText w likelihood reason w' ev :
  handleAnalyzePost host env postText w
    = (Return (Analysis likelihood reason), w', ev) ->
  exists L,
    likelihood = VStr L /\ L ∈ LIKELIHOODS /\
    stats_writes ev = [counted L (storage w)] /\
    fetches ev = [postText] /\
    stored_stats (storage w') = Some (counted L (storage w)) /\
    stored_apiKey (storage w') = stored_apiKey (storage w) /\
    stored_enabled (storage w') = stored_enabled (storage w) /\
    lastRequestTime w' = now_second env.
Proof.
  unfold handleAnalyzePost, getSettings. unfold_M. intros H.
  destruct (settings_read env); simplify_eq/=.
  destruct (bool_decide (stored_enabled (storage w) = Some false));
    simplify_eq/=.
  destruct (bool_decide (default [] (stored_apiKey (storage w)) = []));
    simplify_eq/=.
  unfold set_lastRequestTime in H. unfold_M.
  set (wait := if _ <? MIN_REQUEST_INTERVAL then _ else _) in H.
  assert (exists evw, wait w = (Return (), w, evw) /\ stats_writes evw = []
                      /\ fetches evw = []) as (evw & Hwait & Hw1 & Hw2).
  { subst wait. destruct (_ <? _); eexists; split; try reflexivity; done. }
  rewrite Hwait in H. cbn [storage lastRequestTime] in H.
  destruct (analyzeWithOpenAI _ _ _ _ _) as [[[r | e] w1] ev1] eqn:Han;
    [| simplify_eq/=].
  apply analyzeWithOpenAI_returns in Han
    as (-> & -> & L & reason' & -> & HL & _).
  unfold updateStats, getStats, set_stats in H. unfold_M.
  cbn [likelihood_of string_of] in H.
  destruct (stats_read env); simplify_eq/=.
  destruct (stats_write env); simplify_eq/=.
  exists L. unfold stats_writes, fetches in *.
  rewrite !omap_app, Hw1, Hw2. done.
Qed.

(** [analyzeWithOpenAI] only fetches: it never touches the state of the
    service worker. *)
Lemma analyzeWithOpenAI_frame env postText key w c w' ev :
  analyzeWithOpenAI host env postText key w = (c, w', ev) ->
  w' = w /\ ev = [EFetch postText key].
Proof.
  unfold analyzeWithOpenAI. unfold_M. intros H.
  repeat (case_match; simplify_eq/=); done.
Qed.

(** A run of [handleAnalyzePost] that does not return an analysis leaves
    the store as it was. *)
Lemma handleAnalyzePost_failure env postText w c w' ev :
  handleAnalyzePost host env postText w = (c, w', ev) ->
  (forall likelihood reason, c <> Return (Analysis likelihood reason)) ->
  storage w' = storage w.
Proof.
  unfold handleAnalyzePost, getSettings. unfold_M. intros H Hc.
  destruct (settings_read env); simplify_eq/=; [done |].
  destruct (bool_decide (stored_enabled (storage w) = Some false));
    simplify_eq/=; [done |].
  destruct (bool_decide (default [] (stored_apiKey (storage w)) = []));
    simplify_eq/=; [done |].
  unfold set_lastRequestTime in H. unfold_M.
  set (wait := if _ <? MIN_REQUEST_INTERVAL then _ else _) in H.
  assert (exists evw, wait w = (Return (), w, evw)) as (evw & Hwait).
  { subst wait. destruct (_ <? _); by eexists. }
  rewrite Hwait in H. cbn [storage lastRequestTime] in H.
  destruct (analyzeWithOpenAI _ _ _ _ _) as [[[r | e] w1] ev1] eqn:Han.
  2: { apply analyzeWithOpenAI_frame in Han as [-> _]. by simplify_eq/=. }
  apply analyzeWithOpenAI_returns in Han
    as (-> & -> & L & reason' & -> & HL & _).
  unfold updateStats, getStats, set_stats in H. unfold_M.
  destruct (stats_read env); simplify_eq/=; [done |].
  destruct (stats_write env); simplify_eq/=; [done |].
  by destruct (Hc (VStr L) reason').
Qed.

Ltac solve_events :=
  repeat (rewrite ?Forall_app, ?Forall_cons, ?Forall_nil); repeat split; done.

Lemma handleAnalyzePost_events env postText w c w' ev :
  handleAnalyzePost host env postText w = (c, w', ev) ->
  Forall worker_event ev.
Proof.
  unfold handleAnalyzePost, getSettings. unfold_M. intros H.
  destruct (settings_read env); simplify_eq/=; [solve_events |].
  destruct (bool_decide (stored_enabled (storage w) = Some false));
    simplify_eq/=; [solve_events |].
  destruct (bool_decide (default [] (stored_apiKey (storage w)) = []));
    simplify_eq/=; [solve_events |].
  unfold set_lastRequestTime in H. unfold_M.
  set (wait := if _ <? MIN_REQUEST_INTERVAL then _ else _) in H.
  assert (exists evw, wait w = (Return (), w, evw) /\ Forall worker_event evw)
    as (evw & Hwait & Hevw).
  { subst wait. destruct (_ <? _); eexists; split; try reflexivity;
      solve_events. }
  rewrite Hwait in H. cbn [storage lastRequestTime] in H.
  destruct (analyzeWithOpenAI _ _ _ _ _) as [[[r | e] w1] ev1] eqn:Han;
    apply analyzeWithOpenAI_frame in Han as [-> ->].
  2: { simplify_eq/=. solve_events. }
  unfold updateStats, getStats, set_stats in H. unfold_M.
  destruct (stats_read env); simplify_eq/=; [solve_events |].
  destruct (stats_write env); simplify_eq/=; solve_events.
Qed.

(** The rate limit of the service worker: a request that comes less
    than [MIN_REQUEST_INTERVAL] after the last stamp waits for the rest
    of the interval before the fetch, and the stamp is renewed. *)
Lemma handleAnalyzePost_rate_limit env postText w :
  settings_read env = None ->
  stored_enabled (storage w) <> Some false ->
  default [] (stored_apiKey (storage w)) <> [] ->
  let elapsed := now_first env - lastRequestTime w in
  exists c w' ev,
    handleAnalyzePost host env postText w
    = (c, w',
       EStorageGet [lit "apiKey"; lit "enabled"]
       :: (if elapsed <? MIN_REQUEST_INTERVAL
           then [ETimeout (MIN_REQUEST_INTERVAL - elapsed)] else [])
       ++ EFetch postText (default [] (stored_apiKey (storage w))) :: ev) /\
    lastRequestTime w' = now_second env.
Proof.
  intros Hread Hon Hkey. cbn zeta.
  unfold handleAnalyzePost, getSettings. unfold_M.
  rewrite Hread. cbn [enabled apiKey].
  rewrite (bool_decide_eq_false_2 _ Hon), (bool_decide_eq_false_2 _ Hkey).
  cbn [negb]. unfold set_lastRequestTime. unfold_M.
  destruct (now_first env - lastRequestTime w <? MIN_REQUEST_INTERVAL);
    cbn [storage lastRequestTime];
    (destruct (analyzeWithOpenAI _ _ _ _ _) as [[[r | e] w2] ev2] eqn:Han;
     apply analyzeWithOpenAI_frame in Han as [-> ->];
     [unfold updateStats, getStats, set_stats; unfold_M;
      destruct (stats_read env), (stats_write env) |]);
    cbn; eexists _, _, _; split; reflexivity.
Qed.

End ServiceWorkerFacts.

(** C3. When the stored enabled flag is [false], [handleAnalyzePost]
    returns [{error: "Extension disabled"}]; otherwise, when no API key
    is stored (or an empty one), it returns
    [{error: "No API key configured"}].  In both cases the only call made
    is the read of the settings: no wait, no fetch, no write to the
    store, and the state of the service worker is unchanged. *)
Theorem handleAnalyzePost_refuses_without_settings
    (host : Host) (env : Env) (postText : JsString) (w : Background) :
  settings_read env = None ->
  (stored_enabled (storage w) = Some false ->
   handleAnalyzePost host env postText w
     = (Return (Failure (lit "Extension disabled")), w,
        [EStorageGet [lit "apiKey"; lit "enabled"]])) /\
  (stored_enabled (storage w) <> Some false ->
   default [] (stored_apiKey (storage w)) = [] ->
   handleAnalyzePost host env postText w
     = (Return (Failure (lit "No API key configured")), w,
        [EStorageGet [lit "apiKey"; lit "enabled"]])).
Proof.
  intros Hread.
  unfold handleAnalyzePost, getSettings, bind, try_catch, emit, throw, ret,
    get_state.
  rewrite Hread. cbn [enabled apiKey].
  split.
  - intros Hoff. rewrite bool_decide_eq_true_2 by exact Hoff. reflexivity.
  - intros Hon Hkey. rewrite bool_decide_eq_false_2 by exact Hon.
    rewrite bool_decide_eq_true_2 by exact Hkey. reflexivity.
Qed.

(** C9. A run of [handleAnalyzePost] that returns a classification has a
    label [L] of the four-label set and makes exactly one write of the
    stats record: the record read from the store (the zero record when
    none is stored) with [totalAnalyzed] and the counter of [L]
    incremented by one and every other counter unchanged. *)
Theorem updateStats_once_per_classification
    (host : Host) (env : Env) (postText : JsString) (w w' : Background)
    (likelihood reason : value) (ev : list Event) :
  handleAnalyzePost host env postText w
    = (Return (Analysis likelihood reason), w', ev) ->
  exists L,
    likelihood = VStr L /\ L ∈ LIKELIHOODS /\
    let old := default default_stats (stored_stats (storage w)) in
    exists new,
      stats_writes ev = [new] /\
      stored_stats (storage w') = Some new /\
      new !! lit "totalAnalyzed" = Some (increment (old !! lit "totalAnalyzed")) /\
      new !! L = Some (increment (old !! L)) /\
      (forall n, old !! lit "totalAnalyzed" = Some (Int n) ->
                 new !! lit "totalAnalyzed" = Some (Int (n + 1))) /\
      (forall n, old !! L = Some (Int n) -> new !! L = Some (Int (n + 1))) /\
      (forall k, k <> lit "totalAnalyzed" -> k <> L -> new !! k = old !! k).
Proof.
  intros Hrun.
  apply handleAnalyzePost_analysis in Hrun
    as (L & -> & HL & Hwrites & _ & Hstored & _).
  exists L. split; [reflexivity |]. split; [exact HL |].
  intros old. exists (counted L (storage w)).
  assert (L <> lit "totalAnalyzed") as Hne.
  { intros ->. unfold LIKELIHOODS in HL.
    repeat (apply elem_of_cons in HL as [HL | HL]; [discriminate |]).
    by apply elem_of_nil in HL. }
  assert (counted L (storage w) !! lit "totalAnalyzed"
          = Some (increment (old !! lit "totalAnalyzed"))) as Htotal.
  { unfold counted, bump. rewrite lookup_insert_ne by exact Hne.
    by rewrite lookup_insert_eq. }
  assert (counted L (storage w) !! L = Some (increment (old !! L))) as Hlabel.
  { unfold counted, bump. rewrite lookup_insert_eq.
    by rewrite lookup_insert_ne by done. }
  split; [exact Hwrites |]. split; [exact Hstored |].
  split; [exact Htotal |]. split; [exact Hlabel |].
  split; [intros n Hn; by rewrite Htotal, Hn |].
  split; [intros n Hn; by rewrite Hlabel, Hn |].
  intros k Hk1 Hk2. unfold counted, bump.
  by rewrite !lookup_insert_ne by done.
Qed.

(** C10. [handleAnalyzePost] always returns: whatever the text, the state
    and the answers and faults of the store, the clock and the client,
    it yields a response, never an exception; the response is an error
    object carrying a string, or an analysis whose likelihood is one of
    'low', 'medium', 'high', 'certain'. *)
Theorem handleAnalyzePost_total
    (host : Host) (env : Env) (postText : JsString) (w : Background) :
  exists r w' ev,
    handleAnalyzePost host env postText w = (Return r, w', ev) /\
    match r with
    | Analysis likelihood _ =>
        exists L, likelihood = VStr L /\ L ∈ LIKELIHOODS
    | Failure error => exists message : JsString, error = message
    end.
Proof.
  destruct (try_catch_returns
              (bind (getSettings env) (fun settings =>
                 if negb (enabled settings)
                 then ret (Failure (lit "Extension disabled"))
                 else if bool_decide (apiKey settings = [])
                 then ret (Failure (lit "No API key configured"))
                 else
                   bind get_state (fun s =>
                   bind (if env.(now_first) - lastRequestTime s
                            <? MIN_REQUEST_INTERVAL
                         then emit (ETimeout (MIN_REQUEST_INTERVAL
                                 - (env.(now_first) - lastRequestTime s)))
                         else ret tt) (fun _ =>
                   bind (set_lastRequestTime (now_second env)) (fun _ =>
                   bind (analyzeWithOpenAI host env postText (apiKey settings))
                     (fun result =>
                   bind (updateStats host env (likelihood_of result))
                     (fun _ => ret result)))))))
              (fun message => ret (Failure message)) w) as (r & w' & ev & Hrun).
  { intros e w1. by eexists _, _, _. }
  exists r, w', ev. split; [exact Hrun |].
  destruct r as [likelihood reason | error]; [| by eexists].
  apply handleAnalyzePost_analysis in Hrun as (L & -> & HL & _).
  by exists L.
Qed.

(** ** The content script: the queue loop *)

Section QueueLoop.

Lemma shifted_app ev1 ev2 : shifted (ev1 ++ ev2) = shifted ev1 ++ shifted ev2.
Proof. apply omap_app. Qed.

Lemma pushed_app ev1 ev2 : pushed (ev1 ++ ev2) = pushed ev1 ++ pushed ev2.
Proof. apply omap_app. Qed.

(** Tags are only ever set by [set_tag]; badges do not touch them. *)
Lemma set_badge_tag t b s u :
  slopAnalyzed <$> (elements (set_badge t b s) !! u)
  = slopAnalyzed <$> (elements s !! u).
Proof.
  unfold set_badge. cbn [elements set_elements].
  destruct (decide (t = u)) as [-> | Hne].
  - rewrite list_lookup_alter_eq. by destruct (elements s !! u).
  - by rewrite list_lookup_alter_ne.
Qed.

Lemma set_badge_other t b s u :
  t <> u -> elements (set_badge t b s) !! u = elements s !! u.
Proof.
  intros Hne. unfold set_badge. cbn [elements set_elements].
  by rewrite list_lookup_alter_ne.
Qed.

Lemma set_tag_other t tag s u :
  t <> u -> elements (set_tag t tag s) !! u = elements s !! u.
Proof.
  intros Hne. unfold set_tag. cbn [elements set_elements].
  by rewrite list_lookup_alter_ne.
Qed.

Lemma set_tag_same t tag s :
  elements (set_tag t tag s) !! t
  = (fun el => {| slopAnalyzed := Some tag; tweetText := tweetText el;
                  badge := badge el |}) <$> elements s !! t.
Proof. unfold set_tag. cbn [elements set_elements]. apply list_lookup_alter_eq. Qed.

Lemma set_badge_same t b s :
  elements (set_badge t b s) !! t
  = (fun el => {| slopAnalyzed := slopAnalyzed el; tweetText := tweetText el;
                  badge := b |}) <$> elements s !! t.
Proof. unfold set_badge. cbn [elements set_elements]. apply list_lookup_alter_eq. Qed.

(** What one run of the loop, from its head, leaves behind. *)
Lemma run_loop_frame queue s s' a ev :
  run_loop queue s = (s', a, ev) ->
  document s' = document s /\ analyzedPosts s' = analyzedPosts s /\
  worker s' = worker s /\ activations s' = activations s /\
  pushed ev = [] /\ shifted ev ++ analysisQueue s' = queue /\
  (forall u, slopAnalyzed <$> (elements s' !! u)
             = slopAnalyzed <$> (elements s !! u)) /\
  (forall u, u ∉ document s -> elements s' !! u = elements s !! u) /\
  Forall (fun e => forall ms, e <> EDelay ms) ev.
Proof.
  revert s' a ev. induction queue as [| item queue IH]; intros s' a ev H.
  - cbn in H. simplify_eq. cbn. repeat split; done.
  - cbn [run_loop] in H. case_bool_decide as Hin.
    + simplify_eq. split_and!; try reflexivity.
      * intros u. unfold injectLoadingBadge, removeBadge.
        by rewrite !set_badge_tag.
      * intros u Hu. unfold injectLoadingBadge, removeBadge.
        rewrite !set_badge_other; [done | |]; intros Heq; apply Hu;
          by rewrite <- Heq.
      * repeat constructor; intros ms; discriminate.
    + destruct (run_loop queue s) as [[s1 a1] ev1] eqn:Hloop. simplify_eq.
      destruct (IH _ _ _ eq_refl) as (? & ? & ? & ? & ? & Hq & ? & ? & ?).
      split_and!; try done.
      * by rewrite <- Hq.
      * constructor; [intros ms; discriminate | done].
Qed.

(** How one run of the loop ends: suspended on the message of an item
    whose tweet is in the document, or returned with the queue empty and
    the flag cleared. *)
Lemma run_loop_end queue s s' a ev :
  run_loop queue s = (s', a, ev) ->
  match a with
  | Some act =>
      exists item, act = AwaitReply item /\ tweet item ∈ document s /\
        item ∈ queue /\ isProcessingQueue s' = isProcessingQueue s /\
        sent ev = [text item]
  | None =>
      isProcessingQueue s' = false /\ analysisQueue s' = [] /\
      elements s' = elements s /\ sent ev = []
  end.
Proof.
  revert s' a ev. induction queue as [| item queue IH]; intros s' a ev H.
  - cbn in H. by simplify_eq.
  - cbn [run_loop] in H. case_bool_decide as Hin.
    + simplify_eq. exists item. repeat split; try done. apply elem_of_cons; by left.
    + destruct (run_loop queue s) as [[s1 a1] ev1] eqn:Hloop. simplify_eq.
      specialize (IH _ _ _ eq_refl). destruct a as [act |]; [| done].
      destruct IH as (it & ? & ? & ? & ? & ?).
      exists it. repeat split; try done. apply elem_of_cons; by right.
Qed.

End QueueLoop.

(** C5. A dequeued Work Item whose tweet is no longer in the document is
    discarded: the loop goes on with the rest of the queue exactly as if
    the item had not been there, the shift apart.  No message is sent
    for it, the cache is not written, and its element keeps the tag and
    the badge (none is rendered) it had. *)
Theorem detached_item_discarded
    (item : WorkItem) (queue : list WorkItem) (s : State) :
  tweet item ∉ document s ->
  exists s' a ev,
    run_loop queue s = (s', a, ev) /\
    run_loop (item :: queue) s = (s', a, EShift item :: ev) /\
    analyzedPosts s' = analyzedPosts s /\
    elements s' !! tweet item = elements s !! tweet item /\
    a <> Some (AwaitReply item).
Proof.
  intros Hout.
  destruct (run_loop queue s) as [[s' a] ev] eqn:Hloop.
  exists s', a, ev. split; [reflexivity |].
  split.
  { cbn [run_loop]. rewrite bool_decide_eq_false_2 by exact Hout.
    by rewrite Hloop. }
  pose proof (run_loop_frame _ _ _ _ _ Hloop) as (_ & Hc & _ & _ & _ & _ & _ & He & _).
  pose proof (run_loop_end _ _ _ _ _ Hloop) as Hend.
  split; [exact Hc |]. split; [by apply He |].
  intros ->. destruct Hend as (it & ? & Hin & _). by simplify_eq.
Qed.

(** ** The content script: the scan *)

Section Scan.

Lemma tag_of_set_tag t tag s :
  is_Some (elements s !! t) -> tag_of t (set_tag t tag s) = Some tag.
Proof.
  intros [el Hel]. unfold tag_of. by rewrite set_tag_same, Hel.
Qed.

Lemma tag_of_set_tag_other t u tag s :
  t <> u -> tag_of u (set_tag t tag s) = tag_of u s.
Proof. intros Hne. unfold tag_of. by rewrite set_tag_other. Qed.

Lemma tag_of_set_badge t u b s : tag_of u (set_badge t b s) = tag_of u s.
Proof.
  unfold tag_of. pose proof (set_badge_tag t b s u) as H.
  destruct (elements (set_badge t b s) !! u), (elements s !! u);
    by simplify_eq/=.
Qed.

Lemma badge_of_set_badge t b s :
  is_Some (elements s !! t) -> badge_of t (set_badge t b s) = b.
Proof.
  intros [el Hel]. unfold badge_of. by rewrite set_badge_same, Hel.
Qed.

Lemma badge_of_set_tag t u tag s : badge_of u (set_tag t tag s) = badge_of u s.
Proof.
  unfold badge_of. destruct (decide (t = u)) as [-> | Hne].
  - rewrite set_tag_same. by destruct (elements s !! u).
  - by rewrite set_tag_other.
Qed.

Lemma is_Some_set_tag t u tag s :
  is_Some (elements (set_tag t tag s) !! u) <-> is_Some (elements s !! u).
Proof.
  destruct (decide (t = u)) as [-> | Hne].
  - rewrite set_tag_same, fmap_is_Some. done.
  - by rewrite set_tag_other.
Qed.

Lemma is_Some_set_badge t u b s :
  is_Some (elements (set_badge t b s) !! u) <-> is_Some (elements s !! u).
Proof.
  destruct (decide (t = u)) as [-> | Hne].
  - rewrite set_badge_same, fmap_is_Some. done.
  - by rewrite set_badge_other.
Qed.

Lemma set_text_marks t txt s u :
  tag_of u (set_text t txt s) = tag_of u s /\
  badge_of u (set_text t txt s) = badge_of u s.
Proof.
  unfold tag_of, badge_of, set_text. cbn [elements set_elements].
  destruct (decide (t = u)) as [-> | Hne].
  - rewrite list_lookup_alter_eq. by destruct (elements s !! u).
  - by rewrite list_lookup_alter_ne.
Qed.

Lemma tag_of_lookup s s' :
  (forall u, slopAnalyzed <$> (elements s' !! u)
             = slopAnalyzed <$> (elements s !! u)) ->
  forall u, tag_of u s' = tag_of u s.
Proof.
  intros H u. unfold tag_of. specialize (H u).
  destruct (elements s' !! u), (elements s !! u); by simplify_eq/=.
Qed.

(** A call of [processQueue] pushes nothing, shifts items off the front
    of the queue, and leaves tags, cache, document and worker alone. *)
Lemma processQueue_frame s s' ev :
  processQueue s = (s', ev) ->
  document s' = document s /\ analyzedPosts s' = analyzedPosts s /\
  worker s' = worker s /\
  pushed ev = [] /\ shifted ev ++ analysisQueue s' = analysisQueue s /\
  (forall u, tag_of u s' = tag_of u s) /\
  Forall (fun e => forall ms, e <> EDelay ms) ev.
Proof.
  unfold processQueue. intros H.
  destruct (isProcessingQueue s || bool_decide (analysisQueue s = [])).
  { simplify_eq. split_and!; try done. }
  destruct (run_loop _ _) as [[s1 a] ev1] eqn:Hloop. simplify_eq.
  apply run_loop_frame in Hloop as (? & ? & ? & ? & ? & ? & Htags & _ & ?).
  split_and!; try done. by apply tag_of_lookup.
Qed.

End Scan.

(** C7. What the scan does with a tweet that carries no state tag.
    Without text content the tweet is tagged 'no-text'; with a trimmed
    text shorter than 20 it is tagged 'too-short'; in both cases nothing
    is pushed and the queue is unchanged.  Otherwise, when the cache has
    the identifier of the text, the cached result is rendered as the
    badge, the tweet is tagged 'cached' and nothing is pushed; when it
    has not, the tweet is tagged 'pending' and exactly one Work Item,
    for this tweet, its trimmed text and its identifier, is pushed at
    the back of the queue. *)
Theorem processTweet_cases (t : nat) (el : Element) (s : State) :
  elements s !! t = Some el ->
  slopAnalyzed el = None ->
  exists s' ev,
    processTweet t s = (s', ev) /\
    match tweetText el with
    | None =>
        tag_of t s' = Some NoText /\ ev = [] /\
        analysisQueue s' = analysisQueue s
    | Some innerText =>
        let text := trim innerText in
        if Z.of_nat (length text) <? 20 then
          tag_of t s' = Some TooShort /\ ev = [] /\
          analysisQueue s' = analysisQueue s
        else
          match analyzedPosts s !! hashString text with
          | Some cached =>
              tag_of t s' = Some Cached /\
              badge_of t s' = Some (ResultBadge cached) /\
              ev = [] /\ analysisQueue s' = analysisQueue s
          | None =>
              let item := {| tweet := t; text := text;
                             postId := hashString text |} in
              tag_of t s' = Some Pending /\
              pushed ev = [item] /\
              shifted ev ++ analysisQueue s' = analysisQueue s ++ [item]
          end
    end.
Proof.
  intros Hel Htag. unfold processTweet. rewrite Hel.
  rewrite bool_decide_eq_false_2 by (rewrite Htag; by intros [? ?]).
  assert (is_Some (elements (set_tag t Pending s) !! t)) as Hsome.
  { apply is_Some_set_tag. by eexists. }
  destruct (tweetText el) as [innerText |].
  2: { eexists _, _. split; [reflexivity |].
       split; [by apply tag_of_set_tag | done]. }
  cbn zeta. change MIN_TEXT_LENGTH with 20.
  destruct (Z.of_nat (length (trim innerText)) <? 20).
  { eexists _, _. split; [reflexivity |].
    split; [by apply tag_of_set_tag | done]. }
  change (analyzedPosts (set_tag t Pending s)) with (analyzedPosts s).
  destruct (analyzedPosts s !! hashString (trim innerText)) as [cached |].
  { eexists _, _. split; [reflexivity |]. split_and!; try done.
    - apply tag_of_set_tag. unfold injectBadge, removeBadge.
      by rewrite !is_Some_set_badge.
    - rewrite badge_of_set_tag. unfold injectBadge.
      apply badge_of_set_badge. unfold removeBadge.
      by rewrite is_Some_set_badge. }
  destruct (processQueue _) as [s' ev] eqn:Hq.
  eexists _, _. split; [reflexivity |].
  apply processQueue_frame in Hq as (_ & _ & _ & Hp & Hs & Ht & _).
  split_and!.
  - rewrite Ht. change (tag_of t (set_analysisQueue ?q ?s0)) with (tag_of t s0).
    by apply tag_of_set_tag.
  - match goal with
    | |- pushed (?e :: ev) = ?r => change (pushed ([e] ++ ev) = r)
    end.
    by rewrite pushed_app, Hp.
  - exact Hs.
Qed.

(** ** The content script: one consumer, in insertion order *)

Section Consumer.

Context (host : Host).

Lemma worker_events_quiet ev :
  Forall worker_event ev ->
  pushed ev = [] /\ shifted ev = [] /\ sent ev = [] /\
  Forall (fun e => forall ms, e <> EDelay ms) ev.
Proof.
  induction 1 as [| e ev He _ (IH1 & IH2 & IH3 & IH4)]; [done |].
  destruct e; try done; cbn; split_and!; try done;
    constructor; try done; intros ms; discriminate.
Qed.

Lemma deliver_frame d item s r s1 ev :
  deliver host d item s = (r, s1, ev) ->
  elements s1 = elements s /\ document s1 = document s /\
  analyzedPosts s1 = analyzedPosts s /\ analysisQueue s1 = analysisQueue s /\
  isProcessingQueue s1 = isProcessingQueue s /\
  activations s1 = activations s /\ Forall worker_event ev.
Proof.
  unfold deliver. intros H. destruct d as [message | env].
  - by simplify_eq.
  - destruct (handleAnalyzePost _ _ _ _) as [[c w] ev'] eqn:Hrun.
    simplify_eq. apply handleAnalyzePost_events in Hrun. by split_and!.
Qed.

Lemma settle_frame item r s s' next :
  settle item r s = (s', next) ->
  document s' = document s /\ analysisQueue s' = analysisQueue s /\
  isProcessingQueue s' = isProcessingQueue s /\
  activations s' = activations s /\ worker s' = worker s.
Proof.
  unfold settle. intros H. repeat case_match; by simplify_eq.
Qed.

(** [processQueue] behind its guard: a no-op while a loop runs. *)
Lemma processQueue_guard s :
  isProcessingQueue s = true -> processQueue s = (s, []).
Proof. unfold processQueue. by intros ->. Qed.

Lemma processQueue_single s s' ev :
  (length (activations s) <= 1)%nat ->
  (isProcessingQueue s = true <-> activations s <> []) ->
  processQueue s = (s', ev) ->
  single_consumer s'.
Proof.
  intros Hlen Hflag. unfold processQueue.
  destruct (isProcessingQueue s) eqn:Hf; cbn [orb].
  { intros ?. simplify_eq. split_and!; [done | by rewrite Hf |].
    intros Hnil. destruct Hflag as [Hne _]. by destruct (Hne eq_refl). }
  assert (activations s = []) as Hnil.
  { destruct (activations s); [done |].
    assert (false = true) by (by apply Hflag). done. }
  case_bool_decide as Hq.
  { intros ?. simplify_eq. split_and!; [done | by rewrite Hf | done]. }
  destruct (run_loop _ _) as [[s1 a] ev1] eqn:Hloop. intros ?. simplify_eq.
  pose proof (run_loop_frame _ _ _ _ _ Hloop) as (_ & _ & _ & Hacts & _).
  pose proof (run_loop_end _ _ _ _ _ Hloop) as Hend.
  cbn in Hacts. unfold single_consumer. cbn. rewrite Hacts, Hnil.
  destruct a as [act |]; cbn.
  - destruct Hend as (item & -> & _ & _ & Hf' & _). cbn in Hf'.
    split_and!; first [done | lia | by rewrite Hf'].
  - destruct Hend as (Hf' & Hq' & _).
    split_and!; first [done | lia | by rewrite Hf'].
Qed.

Lemma processTweet_single t s s' ev :
  single_consumer s -> processTweet t s = (s', ev) -> single_consumer s'.
Proof.
  intros (Hlen & Hflag & Hidle). unfold processTweet. intros H.
  repeat case_match; simplify_eq; try done.
  eapply processQueue_single; [| | eassumption]; done.
Qed.

Lemma scan_single tweets s s' ev :
  single_consumer s -> scan tweets s = (s', ev) -> single_consumer s'.
Proof.
  revert s s' ev. induction tweets as [| t tweets IH]; intros s s' ev Hs H.
  - cbn in H. by simplify_eq.
  - cbn [scan] in H.
    destruct (processTweet t s) as [s1 ev1] eqn:H1.
    destruct (scan tweets s1) as [s2 ev2] eqn:H2. simplify_eq.
    eapply IH; [| eassumption]. by eapply processTweet_single.
Qed.

(** The loop taken up again by the only activation. *)
Lemma resume_single n s s' a ev :
  single_consumer s -> is_Some (activations s !! n) ->
  run_loop (analysisQueue s) s = (s', a, ev) ->
  single_consumer (replace_activation n a s').
Proof.
  intros (Hlen & Hflag & Hidle) [act Hact] Hloop.
  pose proof (run_loop_frame _ _ _ _ _ Hloop) as (_ & _ & _ & Hacts & _).
  pose proof (run_loop_end _ _ _ _ _ Hloop) as Hend.
  destruct (activations s) as [| act0 [| ? ?]] eqn:Hl; cbn in Hlen; try lia;
    [done |].
  destruct n as [| n]; [| done].
  assert (isProcessingQueue s = true) as Hf by by apply Hflag.
  unfold single_consumer, replace_activation. cbn. rewrite Hacts.
  destruct a as [act' |]; cbn.
  - destruct Hend as (item & -> & _ & _ & Hf' & _).
    split_and!; first [done | lia | by rewrite Hf', Hf].
  - destruct Hend as (Hf' & Hq' & _).
    split_and!; first [done | lia | by rewrite Hf'].
Qed.

Lemma step_single i s s' ev :
  single_consumer s -> step host i s = Some (s', ev) -> single_consumer s'.
Proof.
  intros Hs. destruct i as [| n d | n | pos txt | t | pos t | t txt]; cbn [step].
  - intros [= Hscan]. by eapply scan_single.
  - destruct (activations s !! n) as [[item |] |] eqn:Hact; try done.
    destruct (deliver host d item s) as [[r s1] ev1] eqn:Hd.
    destruct (settle item r s1) as [s2 next] eqn:Hset.
    apply deliver_frame in Hd as (_ & _ & _ & Hq1 & Hf1 & Ha1 & _).
    apply settle_frame in Hset as (_ & Hq2 & Hf2 & Ha2 & _).
    assert (single_consumer s2) as Hs2.
    { unfold single_consumer in *. by rewrite Ha2, Ha1, Hf2, Hf1, Hq2, Hq1. }
    destruct next.
    + destruct (run_loop _ _) as [[s3 a] ev3] eqn:Hloop. intros ?. simplify_eq.
      eapply resume_single; [done | | done]. by rewrite Ha2, Ha1, Hact.
    + intros ?. simplify_eq.
      destruct Hs2 as (Hlen & Hflag & Hidle).
      destruct (activations s2) as [| act0 [| ? ?]] eqn:Hl; cbn in Hlen;
        try lia.
      { rewrite <- Ha1, <- Ha2 in Hact. done. }
      unfold single_consumer, replace_activation. cbn. rewrite Hl.
      destruct n; cbn; split_and!; first [done | lia | by rewrite Hflag].
  - destruct (activations s !! n) as [[item |] |] eqn:Hact; try done.
    destruct (run_loop _ _) as [[s3 a] ev3] eqn:Hloop. intros ?. simplify_eq.
    eapply resume_single; [done | | done]. by rewrite Hact.
  - intros ?. by simplify_eq.
  - intros ?. by simplify_eq.
  - case_match; intros ?; by simplify_eq.
  - intros ?. by simplify_eq.
Qed.

Lemma run_single inputs s s' ev :
  single_consumer s -> run host inputs s = Some (s', ev) -> single_consumer s'.
Proof.
  revert s s' ev. induction inputs as [| i inputs IH]; intros s s' ev Hs H.
  - cbn in H. by simplify_eq.
  - cbn [run] in H.
    destruct (step host i s) as [[s1 ev1] |] eqn:H1; [| done].
    destruct (run host inputs s1) as [[s2 ev2] |] eqn:H2; [| done].
    simplify_eq. eapply IH; [| eassumption]. by eapply step_single.
Qed.

(** Items leave the queue at its front and enter at its back. *)
Lemma processTweet_fifo t s s' ev :
  processTweet t s = (s', ev) ->
  shifted ev ++ analysisQueue s' = analysisQueue s ++ pushed ev.
Proof.
  unfold processTweet. intros H.
  repeat case_match; simplify_eq; cbn; rewrite ?app_nil_r; try done.
  match goal with Hq : processQueue _ = _ |- _ =>
    apply processQueue_frame in Hq as (_ & _ & _ & Hp & Hs & _) end.
  unfold pushed, shifted in *. cbn in Hs. by rewrite Hp, Hs.
Qed.

Lemma scan_fifo tweets s s' ev :
  scan tweets s = (s', ev) ->
  shifted ev ++ analysisQueue s' = analysisQueue s ++ pushed ev.
Proof.
  revert s s' ev. induction tweets as [| t tweets IH]; intros s s' ev H.
  - cbn in H. simplify_eq. cbn. by rewrite app_nil_r.
  - cbn [scan] in H.
    destruct (processTweet t s) as [s1 ev1] eqn:H1.
    destruct (scan tweets s1) as [s2 ev2] eqn:H2. simplify_eq.
    apply processTweet_fifo in H1. apply IH in H2.
    rewrite shifted_app, pushed_app, <- app_assoc, H2, !app_assoc.
    by rewrite H1.
Qed.

Lemma step_fifo i s s' ev :
  step host i s = Some (s', ev) ->
  shifted ev ++ analysisQueue s' = analysisQueue s ++ pushed ev.
Proof.
  destruct i as [| n d | n | pos txt | t | pos t | t txt]; cbn [step].
  - intros [= Hscan]. by apply scan_fifo in Hscan.
  - destruct (activations s !! n) as [[item |] |] eqn:Hact; try done.
    destruct (deliver host d item s) as [[r s1] ev1] eqn:Hd.
    destruct (settle item r s1) as [s2 next] eqn:Hset.
    apply deliver_frame in Hd as (_ & _ & _ & Hq1 & _ & _ & Hev).
    apply settle_frame in Hset as (_ & Hq2 & _).
    apply worker_events_quiet in Hev as (Hp1 & Hs1 & _).
    destruct next.
    + destruct (run_loop _ _) as [[s3 a] ev3] eqn:Hloop. intros ?. simplify_eq.
      apply run_loop_frame in Hloop as (_ & _ & _ & _ & Hp3 & Hs3 & _).
      rewrite shifted_app, pushed_app, Hp1, Hs1, Hp3. cbn.
      by rewrite Hs3, Hq2, Hq1, app_nil_r.
    + intros ?. simplify_eq.
      rewrite shifted_app, pushed_app, Hp1, Hs1. cbn.
      by rewrite Hq2, Hq1, app_nil_r.
  - destruct (activations s !! n) as [[item |] |] eqn:Hact; try done.
    destruct (run_loop _ _) as [[s3 a] ev3] eqn:Hloop. intros ?. simplify_eq.
    apply run_loop_frame in Hloop as (_ & _ & _ & _ & Hp3 & Hs3 & _).
    rewrite Hp3. cbn. by rewrite Hs3, app_nil_r.
  - intros ?. simplify_eq. cbn. by rewrite app_nil_r.
  - intros ?. simplify_eq. cbn. by rewrite app_nil_r.
  - case_match; intros ?; simplify_eq. cbn. by rewrite app_nil_r.
  - intros ?. simplify_eq. cbn. by rewrite app_nil_r.
Qed.

Lemma run_fifo inputs s s' ev :
  run host inputs s = Some (s', ev) ->
  shifted ev ++ analysisQueue s' = analysisQueue s ++ pushed ev.
Proof.
  revert s s' ev. induction inputs as [| i inputs IH]; intros s s' ev H.
  - cbn in H. simplify_eq. cbn. by rewrite app_nil_r.
  - cbn [run] in H.
    destruct (step host i s) as [[s1 ev1] |] eqn:H1; [| done].
    destruct (run host inputs s1) as [[s2 ev2] |] eqn:H2; [| done].
    simplify_eq. apply step_fifo in H1. apply IH in H2.
    rewrite shifted_app, pushed_app, <- app_assoc, H2, !app_assoc.
    by rewrite H1.
Qed.

Lemma in_flight_length s : (length (in_flight s) <= length (activations s))%nat.
Proof.
  unfold in_flight, in_flight_of. induction (activations s) as [| a l IH]; [done |].
  cbn. destruct a; cbn; lia.
Qed.

Lemma initial_single tweets store : single_consumer (initial tweets store).
Proof. unfold single_consumer. cbn. split_and!; try done. lia. Qed.

End Consumer.

(** C8. In every state the system reaches from the load of the page, by
    any sequence of scans, replies, timers and changes of the page: at
    most one activation of the consumer loop exists, so at most one item
    is in flight; the guard flag is set exactly while one exists, and
    with the flag set [processQueue] does nothing; no item is left in the
    queue without a loop to take it (a push while idle starts the loop);
    and the items shifted so far, followed by the queue, are the items
    pushed so far, in the order of their insertion. *)
Theorem single_consumer_fifo
    (host : Host) (tweets : list (option JsString)) (store : Storage)
    (inputs : list Input) (s : State) (tr : list Event) :
  run host inputs (initial tweets store) = Some (s, tr) ->
  (length (activations s) <= 1)%nat /\
  (length (in_flight s) <= 1)%nat /\
  (isProcessingQueue s = true <-> activations s <> []) /\
  (isProcessingQueue s = true -> processQueue s = (s, [])) /\
  (activations s = [] -> analysisQueue s = []) /\
  shifted tr ++ analysisQueue s = pushed tr.
Proof.
  intros Hrun.
  pose proof (run_single host _ _ _ _ (initial_single tweets store) Hrun)
    as (Hlen & Hflag & Hidle).
  apply run_fifo in Hrun. cbn in Hrun.
  split_and!; try done.
  - pose proof (in_flight_length s). lia.
  - apply processQueue_guard.
Qed.

(** ** The content script: Work Items and tags *)

Section Items.

Context (host : Host).

Lemma run_loop_sublist queue s s' a ev :
  run_loop queue s = (s', a, ev) ->
  item_of a ++ analysisQueue s' `sublist_of` queue /\
  forall item, item ∈ shifted ev -> item ∈ queue.
Proof.
  revert s' a ev. induction queue as [| item queue IH]; intros s' a ev H.
  - cbn in H. simplify_eq. cbn. split; [done |]. intros it Hit.
    by apply elem_of_nil in Hit.
  - cbn [run_loop] in H. case_bool_decide as Hin.
    + simplify_eq. cbn. split; [done |]. intros it Hit.
      apply elem_of_cons in Hit as [-> | Hit]; [apply elem_of_cons; by left |].
      by apply elem_of_nil in Hit.
    + destruct (run_loop queue s) as [[s1 a1] ev1] eqn:Hloop. simplify_eq.
      destruct (IH _ _ _ eq_refl) as [Hsub Hsh]. split.
      * by apply sublist_cons.
      * intros it Hit. change (shifted (EShift item :: ev1))
          with (item :: shifted ev1) in Hit.
        apply elem_of_cons. apply elem_of_cons in Hit as [-> | Hit]; auto.
Qed.

Lemma in_flight_option_list a : in_flight_of (option_list a) = item_of a.
Proof. by destruct a as [[] |]. Qed.

(** Work Items that remain, with the tags they had, remain pending. *)
Lemma pending_transfer s s' :
  waiting s' `sublist_of` waiting s ->
  (forall item, item ∈ waiting s' ->
     tag_of (tweet item) s' = tag_of (tweet item) s) ->
  pending_items s -> pending_items s'.
Proof.
  intros Hsub Htags [Hnd Hpend]. split.
  - eapply sublist_NoDup; [exact Hnd | by apply fmap_sublist].
  - intros item Hitem. rewrite Htags by done.
    apply Hpend. by eapply elem_of_sublist.
Qed.

Lemma untagged_not_waiting t el s :
  pending_items s -> elements s !! t = Some el -> slopAnalyzed el = None ->
  forall item, item ∈ waiting s -> tweet item <> t.
Proof.
  intros [_ Hpend] Hel Htag item Hitem Heq.
  specialize (Hpend item Hitem). unfold tag_of in Hpend.
  rewrite Heq, Hel in Hpend. cbn in Hpend. congruence.
Qed.

Lemma processQueue_pending p s' ev :
  (length (activations p) <= 1)%nat ->
  (isProcessingQueue p = true <-> activations p <> []) ->
  pending_items p ->
  processQueue p = (s', ev) ->
  pending_items s'.
Proof.
  intros Hlen Hflag Hp. unfold processQueue.
  destruct (isProcessingQueue p) eqn:Hf; cbn [orb].
  { intros ?. by simplify_eq. }
  assert (activations p = []) as Hnil.
  { destruct (activations p); [done |].
    assert (false = true) by (by apply Hflag). done. }
  case_bool_decide as Hq.
  { intros ?. by simplify_eq. }
  destruct (run_loop _ _) as [[s1 a] ev1] eqn:Hloop. intros ?. simplify_eq.
  pose proof (run_loop_frame _ _ _ _ _ Hloop)
    as (_ & _ & _ & Hacts & _ & _ & Htags & _).
  pose proof (run_loop_sublist _ _ _ _ _ Hloop) as [Hsub _].
  cbn in Hacts. apply (pending_transfer p); [| | exact Hp].
  - unfold waiting, in_flight. cbn. rewrite Hacts, Hnil. cbn.
    by rewrite in_flight_option_list.
  - intros item _. by apply (tag_of_lookup _ _ Htags).
Qed.

Lemma processTweet_pending t s s' ev :
  well_formed s -> processTweet t s = (s', ev) -> pending_items s'.
Proof.
  intros [(Hlen & Hflag & Hidle) Hp]. unfold processTweet.
  destruct (elements s !! t) as [el |] eqn:Hel; [| intros ?; by simplify_eq].
  case_bool_decide as Htag; [intros ?; by simplify_eq |].
  assert (slopAnalyzed el = None) as Hnone.
  { destruct (slopAnalyzed el); [| done]. destruct Htag. by eexists. }
  pose proof (untagged_not_waiting _ _ _ Hp Hel Hnone) as Hfresh.
  assert (is_Some (elements (set_tag t Pending s) !! t)) as Hsome.
  { apply is_Some_set_tag. by eexists. }
  destruct (tweetText el) as [innerText |].
  2: { intros ?. simplify_eq. apply (pending_transfer s); [done | | exact Hp].
       intros item Hitem. rewrite !tag_of_set_tag_other; [done | |];
         intros Heq; by apply (Hfresh item). }
  cbn zeta. destruct (_ <? _).
  { intros ?. simplify_eq. apply (pending_transfer s); [done | | exact Hp].
    intros item Hitem. rewrite !tag_of_set_tag_other; [done | |];
      intros Heq; by apply (Hfresh item). }
  destruct (analyzedPosts _ !! _) as [cached |].
  { intros ?. simplify_eq. apply (pending_transfer s); [done | | exact Hp].
    intros item Hitem. unfold injectBadge, removeBadge.
    rewrite tag_of_set_tag_other, !tag_of_set_badge, tag_of_set_tag_other;
      [done | |]; intros Heq; by apply (Hfresh item). }
  destruct (processQueue _) as [s1 ev1] eqn:Hq. intros ?. simplify_eq.
  eapply processQueue_pending; [| | | exact Hq]; try done.
  destruct Hp as [Hnd Hpend]. split.
  - unfold waiting, in_flight. cbn.
    rewrite app_assoc, fmap_app. apply NoDup_app. split_and!.
    + exact Hnd.
    + intros u Hu Hu'. cbn in Hu'. apply list_elem_of_singleton in Hu'.
      apply list_elem_of_fmap in Hu as (item & -> & Hitem).
      by apply (Hfresh item).
    + cbn. apply NoDup_singleton.
  - intros item Hitem. unfold waiting, in_flight in Hitem. cbn in Hitem.
    rewrite app_assoc in Hitem. apply elem_of_app in Hitem as [Hitem | Hitem].
    + change (tag_of (tweet item) (set_analysisQueue ?q ?s0))
        with (tag_of (tweet item) s0).
      rewrite tag_of_set_tag_other; [by apply Hpend |].
      intros Heq. by apply (Hfresh item).
    + apply list_elem_of_singleton in Hitem as ->. cbn [tweet].
      change (tag_of t (set_analysisQueue ?q ?s0)) with (tag_of t s0).
      apply tag_of_set_tag. by eexists.
Qed.

Lemma processTweet_wf t s s' ev :
  well_formed s -> processTweet t s = (s', ev) -> well_formed s'.
Proof.
  intros Hwf H. split.
  - eapply processTweet_single; [apply Hwf | exact H].
  - by eapply processTweet_pending.
Qed.

Lemma scan_wf tweets s s' ev :
  well_formed s -> scan tweets s = (s', ev) -> well_formed s'.
Proof.
  revert s s' ev. induction tweets as [| t tweets IH]; intros s s' ev Hs H.
  - cbn in H. by simplify_eq.
  - cbn [scan] in H.
    destruct (processTweet t s) as [s1 ev1] eqn:H1.
    destruct (scan tweets s1) as [s2 ev2] eqn:H2. simplify_eq.
    eapply IH; [| eassumption]. by eapply processTweet_wf.
Qed.

Lemma settle_other item r s s' next u :
  settle item r s = (s', next) -> u <> tweet item ->
  elements s' !! u = elements s !! u.
Proof.
  unfold settle, injectBadge, removeBadge. intros H Hne.
  repeat case_match; simplify_eq;
    rewrite ?set_tag_other, ?set_badge_other by done; done.
Qed.

Lemma tag_of_elements s s' u :
  elements s' !! u = elements s !! u -> tag_of u s' = tag_of u s.
Proof. unfold tag_of. by intros ->. Qed.

(** With one consumer, the activation a reply or a timer addresses is
    the only one. *)
Lemma single_activation s n act :
  single_consumer s -> activations s !! n = Some act ->
  n = 0%nat /\ activations s = [act].
Proof.
  intros (Hlen & _) Hact.
  destruct (activations s) as [| a [| ? ?]]; cbn in Hlen; try lia; [done |].
  destruct n; [| done]. cbn in Hact. by simplify_eq.
Qed.

Lemma waiting_replace a s :
  (length (activations s) = 1)%nat ->
  waiting (replace_activation 0 a s) = item_of a ++ analysisQueue s.
Proof.
  intros Hlen. unfold waiting, in_flight, replace_activation. cbn.
  destruct (activations s) as [| a0 [| ? ?]]; try done.
  by destruct a as [[] |].
Qed.

Lemma step_pending i s s' ev :
  well_formed s -> step host i s = Some (s', ev) -> pending_items s'.
Proof.
  intros [Hs Hp]. destruct i as [| n d | n | pos txt | t | pos t | t txt]; cbn [step].
  - intros [= Hscan]. by eapply scan_wf.
  - destruct (activations s !! n) as [[item |] |] eqn:Hact; try done.
    destruct (single_activation _ _ _ Hs Hact) as [-> Hacts].
    destruct (deliver host d item s) as [[r s1] ev1] eqn:Hd.
    destruct (settle item r s1) as [s2 next] eqn:Hset.
    apply deliver_frame in Hd as (He1 & _ & _ & Hq1 & _ & Ha1 & _).
    pose proof (settle_frame _ _ _ _ _ Hset) as (_ & Hq2 & _ & Ha2 & _).
    assert (waiting s = item :: analysisQueue s) as Hw.
    { unfold waiting, in_flight. by rewrite Hacts. }
    assert (forall it, it ∈ analysisQueue s ->
              tag_of (tweet it) s2 = tag_of (tweet it) s) as Htags.
    { intros it Hit. apply tag_of_elements.
      rewrite (settle_other _ _ _ _ _ _ Hset), He1; [done |].
      destruct Hp as [Hnd _]. rewrite Hw in Hnd. cbn in Hnd.
      apply NoDup_cons in Hnd as [Hnotin _]. intros Heq. apply Hnotin.
      rewrite <- Heq. by apply list_elem_of_fmap_2. }
    destruct next.
    + destruct (run_loop _ _) as [[s3 a] ev3] eqn:Hloop. intros ?. simplify_eq.
      pose proof (run_loop_frame _ _ _ _ _ Hloop)
        as (_ & _ & _ & Ha3 & _ & _ & Htags3 & _).
      pose proof (run_loop_sublist _ _ _ _ _ Hloop) as [Hsub _].
      apply (pending_transfer s); [| | exact Hp].
      * rewrite waiting_replace by by rewrite Ha3, Ha2, Ha1, Hacts.
        rewrite Hw. apply sublist_cons. by rewrite <- Hq1, <- Hq2.
      * intros it Hit.
        rewrite waiting_replace in Hit by by rewrite Ha3, Ha2, Ha1, Hacts.
        change (tag_of (tweet it) (replace_activation 0 a s3))
          with (tag_of (tweet it) s3).
        rewrite (tag_of_lookup _ _ Htags3). apply Htags.
        rewrite <- Hq1, <- Hq2. by eapply elem_of_sublist.
    + intros ?. simplify_eq.
      apply (pending_transfer s); [| | exact Hp].
      * rewrite waiting_replace by by rewrite Ha2, Ha1, Hacts.
        rewrite Hw. apply sublist_cons. cbn. by rewrite Hq2, Hq1.
      * intros it Hit.
        rewrite waiting_replace in Hit by by rewrite Ha2, Ha1, Hacts.
        cbn in Hit. rewrite Hq2, Hq1 in Hit.
        change (tag_of (tweet it) (replace_activation 0 (Some AwaitDelay) s2))
          with (tag_of (tweet it) s2).
        by apply Htags.
  - destruct (activations s !! n) as [[item |] |] eqn:Hact; try done.
    destruct (single_activation _ _ _ Hs Hact) as [-> Hacts].
    destruct (run_loop _ _) as [[s3 a] ev3] eqn:Hloop. intros ?. simplify_eq.
    pose proof (run_loop_frame _ _ _ _ _ Hloop)
      as (_ & _ & _ & Ha3 & _ & _ & Htags3 & _).
    pose proof (run_loop_sublist _ _ _ _ _ Hloop) as [Hsub _].
    assert (waiting s = analysisQueue s) as Hw.
    { unfold waiting, in_flight. by rewrite Hacts. }
    apply (pending_transfer s); [| | exact Hp].
    + rewrite waiting_replace by by rewrite Ha3, Hacts. by rewrite Hw.
    + intros it Hit.
      change (tag_of (tweet it) (replace_activation 0 a s3))
        with (tag_of (tweet it) s3).
      by rewrite (tag_of_lookup _ _ Htags3).
  - intros ?. simplify_eq.
    apply (pending_transfer s); [done | | exact Hp].
    intros it Hit. destruct Hp as [_ Hpend]. specialize (Hpend it Hit).
    change (waiting (set_document ?d (set_elements ?e s))) with (waiting s)
      in Hit.
    apply tag_of_elements. cbn.
    apply lookup_app_l. unfold tag_of in Hpend.
    destruct (elements s !! tweet it) eqn:Hl; [| done].
    by apply lookup_lt_Some in Hl.
  - intros ?. simplify_eq. by apply (pending_transfer s).
  - case_match; intros ?; simplify_eq. by apply (pending_transfer s).
  - intros ?. simplify_eq. apply (pending_transfer s); [done | | exact Hp].
    intros it _. apply set_text_marks.
Qed.

Lemma step_wf i s s' ev :
  well_formed s -> step host i s = Some (s', ev) -> well_formed s'.
Proof.
  intros Hwf H. split.
  - eapply step_single; [apply Hwf | exact H].
  - by eapply step_pending.
Qed.

Lemma run_wf inputs s s' ev :
  well_formed s -> run host inputs s = Some (s', ev) -> well_formed s'.
Proof.
  revert s s' ev. induction inputs as [| i inputs IH]; intros s s' ev Hs H.
  - cbn in H. by simplify_eq.
  - cbn [run] in H.
    destruct (step host i s) as [[s1 ev1] |] eqn:H1; [| done].
    destruct (run host inputs s1) as [[s2 ev2] |] eqn:H2; [| done].
    simplify_eq. eapply IH; [| eassumption]. by eapply step_wf.
Qed.

Lemma initial_wf tweets store : well_formed (initial tweets store).
Proof.
  split; [apply initial_single |]. split.
  - cbn. constructor.
  - intros item Hitem. cbn in Hitem. by apply elem_of_nil in Hitem.
Qed.

(** *** Retired tweets are never taken up again *)

Lemma run_loop_untouched queue s s' a ev u :
  run_loop queue s = (s', a, ev) ->
  (forall item, item ∈ queue -> tweet item <> u) ->
  elements s' !! u = elements s !! u.
Proof.
  revert s' a ev. induction queue as [| item queue IH]; intros s' a ev H Hu.
  - cbn in H. by simplify_eq.
  - assert (tweet item <> u) as Hne by (apply Hu, elem_of_cons; by left).
    cbn [run_loop] in H. case_bool_decide as Hin.
    + simplify_eq. unfold injectLoadingBadge, removeBadge.
      by rewrite !set_badge_other.
    + destruct (run_loop queue s) as [[s1 a1] ev1] eqn:Hloop. simplify_eq.
      eapply IH; [done |]. intros it Hit. apply Hu, elem_of_cons. by right.
Qed.

Lemma processQueue_retired t p s' ev :
  (length (activations p) <= 1)%nat ->
  (isProcessingQueue p = true <-> activations p <> []) ->
  retired t p ->
  processQueue p = (s', ev) ->
  retired t s' /\ elements s' !! t = elements p !! t /\
  pushed ev = [] /\ forall item, item ∈ shifted ev -> tweet item <> t.
Proof.
  intros Hlen Hflag [Htag Hfree]. unfold processQueue.
  destruct (isProcessingQueue p) eqn:Hf; cbn [orb].
  { intros ?. simplify_eq. split_and!; try done.
    intros it Hit. by apply elem_of_nil in Hit. }
  assert (activations p = []) as Hnil.
  { destruct (activations p); [done |].
    assert (false = true) by (by apply Hflag). done. }
  case_bool_decide as Hq.
  { intros ?. simplify_eq. split_and!; try done.
    intros it Hit. by apply elem_of_nil in Hit. }
  destruct (run_loop _ _) as [[s1 a] ev1] eqn:Hloop. intros ?. simplify_eq.
  pose proof (run_loop_frame _ _ _ _ _ Hloop)
    as (_ & _ & _ & Hacts & Hpush & _ & Htags & _).
  pose proof (run_loop_sublist _ _ _ _ _ Hloop) as [Hsub Hsh].
  assert (forall it, it ∈ analysisQueue p -> tweet it <> t) as Hqfree.
  { intros it Hit. apply Hfree. unfold waiting. apply elem_of_app. by right. }
  cbn in Hacts. split_and!.
  - split.
    + change (tag_of t (set_activations ?a0 s1)) with (tag_of t s1).
      by rewrite (tag_of_lookup _ _ Htags).
    + intros it Hit. apply Hqfree. eapply elem_of_sublist; [| exact Hsub].
      unfold waiting, in_flight in Hit. cbn in Hit.
      by rewrite Hacts, Hnil, app_nil_l, in_flight_option_list in Hit.
  - by apply (run_loop_untouched _ _ _ _ _ _ Hloop).
  - exact Hpush.
  - intros it Hit. by apply Hqfree, Hsh.
Qed.

Lemma retired_tagged t s :
  retired t s -> processTweet t s = (s, []).
Proof.
  intros [[tag Htag] _]. unfold processTweet, tag_of in *.
  destruct (elements s !! t) as [el |]; [| done]. cbn in Htag.
  rewrite bool_decide_eq_true_2; [done |]. by eexists.
Qed.

Lemma processTweet_retired t u s s' ev :
  well_formed s -> retired t s -> processTweet u s = (s', ev) ->
  retired t s' /\ elements s' !! t = elements s !! t /\
  forall item, item ∈ pushed ev ++ shifted ev -> tweet item <> t.
Proof.
  intros [(Hlen & Hflag & Hidle) Hp] Hret.
  destruct (decide (u = t)) as [-> | Hne].
  { rewrite (retired_tagged _ _ Hret). intros ?. simplify_eq.
    split_and!; try done. intros it Hit. by apply elem_of_nil in Hit. }
  assert (forall s0 tag, retired t s0 -> retired t (set_tag u tag s0)) as Hset.
  { intros s0 tag [Htag Hfree]. split; [| done].
    by rewrite tag_of_set_tag_other. }
  assert (forall s0 b, retired t s0 -> retired t (set_badge u b s0)) as Hbadge.
  { intros s0 b [Htag Hfree]. split; [| done]. by rewrite tag_of_set_badge. }
  unfold processTweet.
  destruct (elements s !! u) as [el |] eqn:Hel.
  2: { intros ?. simplify_eq. split_and!; try done.
       intros it Hit. by apply elem_of_nil in Hit. }
  case_bool_decide as Htag.
  { intros ?. simplify_eq. split_and!; try done.
    intros it Hit. by apply elem_of_nil in Hit. }
  destruct (tweetText el) as [innerText |].
  2: { intros ?. simplify_eq. split_and!.
       - by apply Hset, Hset.
       - by rewrite !set_tag_other.
       - intros it Hit. by apply elem_of_nil in Hit. }
  cbn zeta. destruct (_ <? _).
  { intros ?. simplify_eq. split_and!.
    - by apply Hset, Hset.
    - by rewrite !set_tag_other.
    - intros it Hit. by apply elem_of_nil in Hit. }
  destruct (analyzedPosts _ !! _) as [cached |].
  { intros ?. simplify_eq. unfold injectBadge, removeBadge. split_and!.
    - by apply Hset, Hbadge, Hbadge, Hset.
    - by rewrite set_tag_other, !set_badge_other, set_tag_other.
    - intros it Hit. by apply elem_of_nil in Hit. }
  destruct (processQueue _) as [s1 ev1] eqn:Hq. intros ?. simplify_eq.
  apply (processQueue_retired t) in Hq as (Hret1 & Hel1 & Hpush & Hsh);
    try done.
  - split_and!; [done | |].
    + rewrite Hel1. cbn. apply set_tag_other. done.
    + intros it Hit. unfold pushed, shifted in *. cbn in Hit.
      rewrite Hpush in Hit. cbn in Hit.
      apply elem_of_cons in Hit as [-> | Hit]; [done |]. by apply Hsh.
  - destruct (Hset s Pending Hret) as [Htag' Hfree']. split; [done |].
    intros it Hit. unfold waiting, in_flight in Hit. cbn in Hit.
    rewrite app_assoc in Hit. apply elem_of_app in Hit as [Hit | Hit].
    + by apply Hfree'.
    + apply list_elem_of_singleton in Hit as ->. done.
Qed.

Lemma scan_retired t tweets s s' ev :
  well_formed s -> retired t s -> scan tweets s = (s', ev) ->
  retired t s' /\ elements s' !! t = elements s !! t /\
  forall item, item ∈ pushed ev ++ shifted ev -> tweet item <> t.
Proof.
  revert s s' ev. induction tweets as [| u tweets IH]; intros s s' ev Hwf Hr H.
  - cbn in H. simplify_eq. split_and!; try done.
    intros it Hit. by apply elem_of_nil in Hit.
  - cbn [scan] in H.
    destruct (processTweet u s) as [s1 ev1] eqn:H1.
    destruct (scan tweets s1) as [s2 ev2] eqn:H2. simplify_eq.
    pose proof (processTweet_wf _ _ _ _ Hwf H1) as Hwf1.
    apply (processTweet_retired t) in H1 as (Hr1 & He1 & Hev1); try done.
    apply IH in H2 as (Hr2 & He2 & Hev2); try done.
    split_and!; [done | by rewrite He2 |].
    intros it Hit. rewrite pushed_app, shifted_app in Hit.
    rewrite !elem_of_app in Hit.
    destruct Hit as [[Hit | Hit] | [Hit | Hit]];
      [apply Hev1 | apply Hev2 | apply Hev1 | apply Hev2];
      apply elem_of_app; auto.
Qed.

Lemma retired_transfer t s s' :
  tag_of t s' = tag_of t s ->
  (forall item, item ∈ waiting s' -> item ∈ waiting s) ->
  retired t s -> retired t s'.
Proof.
  intros Hel Hsub [Htag Hfree]. split.
  - by rewrite Hel.
  - intros it Hit. by apply Hfree, Hsub.
Qed.

(** The tag and the badge of a tweet are those of its element. *)
Lemma marks_of_elements t s s' :
  elements s' !! t = elements s !! t ->
  tag_of t s' = tag_of t s /\ badge_of t s' = badge_of t s.
Proof. unfold tag_of, badge_of. by intros ->. Qed.

Lemma step_retired t i s s' ev :
  well_formed s -> retired t s -> step host i s = Some (s', ev) ->
  retired t s' /\
  (tag_of t s' = tag_of t s /\ badge_of t s' = badge_of t s) /\
  forall item, item ∈ pushed ev ++ shifted ev -> tweet item <> t.
Proof.
  intros [Hs Hp] Hret. pose proof Hret as [Htag Hfree].
  destruct i as [| n d | n | pos txt | u | pos u | u txt]; cbn [step].
  - intros [= Hscan].
    destruct (scan_retired t _ _ _ _ (conj Hs Hp) Hret Hscan)
      as (? & Hel & ?).
    apply marks_of_elements in Hel as [? ?]. by split_and!.
  - destruct (activations s !! n) as [[item |] |] eqn:Hact; try done.
    destruct (single_activation _ _ _ Hs Hact) as [-> Hacts].
    destruct (deliver host d item s) as [[r s1] ev1] eqn:Hd.
    destruct (settle item r s1) as [s2 next] eqn:Hset.
    apply deliver_frame in Hd as (He1 & _ & _ & Hq1 & _ & Ha1 & Hev1).
    apply worker_events_quiet in Hev1 as (Hp1 & Hs1 & _).
    pose proof (settle_frame _ _ _ _ _ Hset) as (_ & Hq2 & _ & Ha2 & _).
    assert (waiting s = item :: analysisQueue s) as Hw.
    { unfold waiting, in_flight. by rewrite Hacts. }
    assert (tweet item <> t) as Hne.
    { apply Hfree. rewrite Hw. apply elem_of_cons. by left. }
    assert (forall it, it ∈ analysisQueue s -> tweet it <> t) as Hqfree.
    { intros it Hit. apply Hfree. rewrite Hw. apply elem_of_cons. by right. }
    assert (elements s2 !! t = elements s !! t) as He2.
    { by rewrite (settle_other _ _ _ _ _ _ Hset), He1. }
    destruct next.
    + destruct (run_loop _ _) as [[s3 a] ev3] eqn:Hloop. intros ?. simplify_eq.
      pose proof (run_loop_frame _ _ _ _ _ Hloop)
        as (_ & _ & _ & Ha3 & Hp3 & _).
      pose proof (run_loop_sublist _ _ _ _ _ Hloop) as [Hsub Hsh].
      rewrite Hq2, Hq1 in Hsub, Hsh.
      assert (elements s3 !! t = elements s !! t) as He3.
      { rewrite <- He2. apply (run_loop_untouched _ _ _ _ _ _ Hloop).
        by rewrite Hq2, Hq1. }
      apply marks_of_elements in He3 as Hm3.
      split_and!.
      * apply (retired_transfer t s); [apply Hm3 | | done].
        intros it Hit.
        rewrite waiting_replace in Hit by by rewrite Ha3, Ha2, Ha1, Hacts.
        rewrite Hw. apply elem_of_cons. right. by eapply elem_of_sublist.
      * apply Hm3.
      * apply Hm3.
      * intros it Hit. rewrite pushed_app, shifted_app, Hp1, Hs1, Hp3 in Hit.
        cbn in Hit. by apply Hqfree, Hsh.
    + intros ?. simplify_eq. apply marks_of_elements in He2 as Hm2.
      split_and!.
      * apply (retired_transfer t s); [apply Hm2 | | done].
        intros it Hit.
        rewrite waiting_replace in Hit by by rewrite Ha2, Ha1, Hacts.
        cbn in Hit. rewrite Hq2, Hq1 in Hit.
        rewrite Hw. apply elem_of_cons. by right.
      * apply Hm2.
      * apply Hm2.
      * intros it Hit. rewrite pushed_app, shifted_app, Hp1, Hs1 in Hit.
        cbn in Hit. by apply elem_of_nil in Hit.
  - destruct (activations s !! n) as [[item |] |] eqn:Hact; try done.
    destruct (single_activation _ _ _ Hs Hact) as [-> Hacts].
    destruct (run_loop _ _) as [[s3 a] ev3] eqn:Hloop. intros ?. simplify_eq.
    pose proof (run_loop_frame _ _ _ _ _ Hloop) as (_ & _ & _ & Ha3 & Hp3 & _).
    pose proof (run_loop_sublist _ _ _ _ _ Hloop) as [Hsub Hsh].
    assert (waiting s = analysisQueue s) as Hw.
    { unfold waiting, in_flight. by rewrite Hacts. }
    rewrite Hw in Hfree.
    assert (elements s3 !! t = elements s !! t) as He3.
    { by apply (run_loop_untouched _ _ _ _ _ _ Hloop). }
    apply marks_of_elements in He3 as Hm3.
    split_and!.
    + apply (retired_transfer t s); [apply Hm3 | | done].
      intros it Hit. rewrite waiting_replace in Hit by by rewrite Ha3, Hacts.
      rewrite Hw. by eapply elem_of_sublist.
    + apply Hm3.
    + apply Hm3.
    + intros it Hit. rewrite Hp3 in Hit. cbn in Hit. by apply Hfree, Hsh.
  - intros ?. simplify_eq.
    assert ((elements s ++ [{| slopAnalyzed := None; tweetText := txt;
                               badge := None |}]) !! t = elements s !! t)
      as Hel.
    { apply lookup_app_l. destruct Htag as [tag Htag]. unfold tag_of in Htag.
      destruct (elements s !! t) eqn:Hl; [| done].
      by apply lookup_lt_Some in Hl. }
    pose proof (marks_of_elements t s
                  (set_document (take pos (document s) ++
                                 length (elements s) :: drop pos (document s))
                     (set_elements
                        (elements s ++ [{| slopAnalyzed := None;
                                           tweetText := txt;
                                           badge := None |}]) s)) Hel) as Hm.
    split_and!; [| apply Hm | apply Hm |].
    + apply (retired_transfer t s); [apply Hm | done | done].
    + intros it Hit. by apply elem_of_nil in Hit.
  - intros ?. simplify_eq. split_and!; [| done | done |].
    + by apply (retired_transfer t s).
    + intros it Hit. by apply elem_of_nil in Hit.
  - case_match; intros ?; simplify_eq. split_and!; [| done | done |].
    + by apply (retired_transfer t s).
    + intros it Hit. by apply elem_of_nil in Hit.
  - intros ?. simplify_eq.
    destruct (set_text_marks u txt s t) as [Hmt Hmb].
    split_and!; [| done | done |].
    + by apply (retired_transfer t s).
    + intros it Hit. by apply elem_of_nil in Hit.
Qed.

Lemma run_retired t inputs s s' ev :
  well_formed s -> retired t s -> run host inputs s = Some (s', ev) ->
  retired t s' /\
  (tag_of t s' = tag_of t s /\ badge_of t s' = badge_of t s) /\
  forall item, item ∈ pushed ev ++ shifted ev -> tweet item <> t.
Proof.
  revert s s' ev. induction inputs as [| i inputs IH]; intros s s' ev Hwf Hr H.
  - cbn in H. simplify_eq. split_and!; try done.
    intros it Hit. by apply elem_of_nil in Hit.
  - cbn [run] in H.
    destruct (step host i s) as [[s1 ev1] |] eqn:H1; [| done].
    destruct (run host inputs s1) as [[s2 ev2] |] eqn:H2; [| done].
    simplify_eq.
    pose proof (step_wf _ _ _ _ Hwf H1) as Hwf1.
    apply (step_retired t) in H1 as (Hr1 & [Ht1 Hb1] & Hev1); try done.
    apply IH in H2 as (Hr2 & [Ht2 Hb2] & Hev2); try done.
    split_and!; [done | by rewrite Ht2 | by rewrite Hb2 |].
    intros it Hit. rewrite pushed_app, shifted_app in Hit.
    rewrite !elem_of_app in Hit.
    destruct Hit as [[Hit | Hit] | [Hit | Hit]];
      [apply Hev1 | apply Hev2 | apply Hev1 | apply Hev2];
      apply elem_of_app; auto.
Qed.

End Items.

(** ** Failures *)

Section Failures.

Context (host : Host).




End Failures.


(** ** Pacing *)

Section Pacing.

Context (host : Host).

(** While the flag is set a scan only pushes. *)
Lemma processTweet_guarded t s s' ev :
  isProcessingQueue s = true -> processTweet t s = (s', ev) ->
  shifted ev = [] /\ activations s' = activations s /\
  isProcessingQueue s' = true.
Proof.
  intros Hf. unfold processTweet. intros H.
  repeat case_match; simplify_eq; try done.
  match goal with Hq : processQueue _ = _ |- _ =>
    rewrite processQueue_guard in Hq by done; by simplify_eq end.
Qed.

Lemma scan_guarded tweets s s' ev :
  isProcessingQueue s = true -> scan tweets s = (s', ev) ->
  shifted ev = [] /\ activations s' = activations s /\
  isProcessingQueue s' = true.
Proof.
  revert s s' ev. induction tweets as [| t tweets IH]; intros s s' ev Hf H.
  - cbn in H. by simplify_eq.
  - cbn [scan] in H.
    destruct (processTweet t s) as [s1 ev1] eqn:H1.
    destruct (scan tweets s1) as [s2 ev2] eqn:H2. simplify_eq.
    apply processTweet_guarded in H1 as (Hs1 & Ha1 & Hf1); [| done].
    apply IH in H2 as (Hs2 & Ha2 & Hf2); [| done].
    split_and!; [| by rewrite Ha2 | done].
    by rewrite shifted_app, Hs1, Hs2.
Qed.

(** The two paths of the [try ... catch] that fall through to the
    timer. *)
Lemma settle_reaches_timer item r s :
  reaches_timer r = true -> exists s', settle item r s = (s', Delay).
Proof.
  unfold reaches_timer, settle. intros H. destruct r as [result | message].
  - apply negb_true_iff in H. rewrite H. by eexists.
  - by eexists.
Qed.

End Pacing.

(** C2, as the code has it.  (1) When the message of an item is answered
    without error, or its [await] throws, the step ends by awaiting the
    [QUEUE_DELAY] = 100 ms timer: nothing is shifted in that step, the
    queue is as it was, and the activation is suspended on the timer.
    (2) While the only activation is suspended on the timer, no step
    other than the firing of that timer shifts an item.  (3) An item
    whose tweet has left the document is followed by the next item at
    once: a run of the loop from its head awaits no timer at all.
    (4) In the service worker, a request that passes the settings and
    comes less than [MIN_REQUEST_INTERVAL] = 1000 ms after the last
    stamp waits for the rest of the interval before its fetch, and
    renews the stamp. *)
Theorem delay_after_request (host : Host) :
  (forall s n item d,
     activations s !! n = Some (AwaitReply item) ->
     reaches_timer (fst (fst (deliver host d item s))) = true ->
     exists s' ev,
       step host (Reply n d) s = Some (s', ev ++ [EDelay QUEUE_DELAY]) /\
       QUEUE_DELAY = 100 /\
       Forall worker_event ev /\ shifted (ev ++ [EDelay QUEUE_DELAY]) = [] /\
       analysisQueue s' = analysisQueue s /\
       activations s' = <[n := AwaitDelay]> (activations s)) /\
  (forall s i s' ev,
     single_consumer s -> activations s = [AwaitDelay] ->
     step host i s = Some (s', ev) ->
     (forall n, i <> Tick n) ->
     shifted ev = [] /\ activations s' = [AwaitDelay]) /\
  (forall queue s s' a ev,
     run_loop queue s = (s', a, ev) ->
     Forall (fun e => forall ms, e <> EDelay ms) ev /\
     forall item, tweet item ∉ document s ->
       run_loop (item :: queue) s = (s', a, EShift item :: ev)) /\
  (forall env postText w,
     settings_read env = None ->
     stored_enabled (storage w) <> Some false ->
     default [] (stored_apiKey (storage w)) <> [] ->
     let elapsed := now_first env - lastRequestTime w in
     exists c w' ev,
       handleAnalyzePost host env postText w
       = (c, w',
          EStorageGet [lit "apiKey"; lit "enabled"]
          :: (if elapsed <? 1000 then [ETimeout (1000 - elapsed)] else [])
          ++ EFetch postText (default [] (stored_apiKey (storage w))) :: ev) /\
       lastRequestTime w' = now_second env).
Proof.
  split_and!; [| | | apply handleAnalyzePost_rate_limit].
  - intros s n item d Hact Hr. cbn [step]. rewrite Hact.
    destruct (deliver host d item s) as [[r s1] ev1] eqn:Hd. cbn in Hr.
    destruct (settle_reaches_timer item r s1 Hr) as [s2 Hset]. rewrite Hset.
    apply deliver_frame in Hd as (_ & _ & _ & Hq1 & _ & Ha1 & Hev).
    apply settle_frame in Hset as (_ & Hq2 & _ & Ha2 & _).
    eexists _, _. split; [reflexivity |]. split; [reflexivity |].
    split; [exact Hev |].
    apply worker_events_quiet in Hev as (_ & Hs1 & _).
    split_and!.
    + by rewrite shifted_app, Hs1.
    + cbn. by rewrite Hq2, Hq1.
    + cbn. by rewrite Ha2, Ha1.
  - intros s i s' ev (Hlen & Hflag & _) Hacts Hstep Hi.
    assert (isProcessingQueue s = true) as Hf.
    { apply Hflag. by rewrite Hacts. }
    destruct i as [| n d | n | pos txt | t | pos t | t txt]; cbn [step] in Hstep.
    + simplify_eq. unfold processTweets in *.
      destruct (scan (document s) s) as [s1 ev1] eqn:Hscan. simplify_eq.
      apply scan_guarded in Hscan as (? & Ha & _); [| done].
      by rewrite Ha.
    + rewrite Hacts in Hstep. by destruct n as [| [| n]].
    + by destruct (Hi n).
    + by simplify_eq.
    + by simplify_eq.
    + case_match; by simplify_eq.
    + by simplify_eq.
  - intros queue s s' a ev Hloop. split.
    + by apply run_loop_frame in Hloop as (_ & _ & _ & _ & _ & _ & _ & _ & ?).
    + intros item Hout. cbn [run_loop].
      rewrite bool_decide_eq_false_2 by exact Hout. by rewrite Hloop.
Qed.

(** ** The cache *)

Section Cache.

Context (host : Host).

Lemma processTweet_cache t s s' ev :
  processTweet t s = (s', ev) -> analyzedPosts s' = analyzedPosts s.
Proof.
  unfold processTweet. intros H.
  repeat case_match; simplify_eq; try done.
  match goal with Hq : processQueue _ = _ |- _ =>
    by apply processQueue_frame in Hq as (_ & -> & _) end.
Qed.

Lemma scan_cache tweets s s' ev :
  scan tweets s = (s', ev) -> analyzedPosts s' = analyzedPosts s.
Proof.
  revert s s' ev. induction tweets as [| t tweets IH]; intros s s' ev H.
  - cbn in H. by simplify_eq.
  - cbn [scan] in H.
    destruct (processTweet t s) as [s1 ev1] eqn:H1.
    destruct (scan tweets s1) as [s2 ev2] eqn:H2. simplify_eq.
    apply processTweet_cache in H1. apply IH in H2. congruence.
Qed.

Lemma settle_cache item r s s' next k :
  settle item r s = (s', next) ->
  is_Some (analyzedPosts s !! k) -> is_Some (analyzedPosts s' !! k).
Proof.
  unfold settle. intros H Hk. repeat case_match; simplify_eq; try done.
  cbn. rewrite lookup_insert_is_Some. destruct (decide (postId item = k)); auto.
Qed.

(** The cache never loses an identifier. *)
Lemma step_cache i s s' ev k :
  step host i s = Some (s', ev) ->
  is_Some (analyzedPosts s !! k) -> is_Some (analyzedPosts s' !! k).
Proof.
  intros Hstep Hk. destruct i as [| n d | n | pos txt | t | pos t | t txt]; cbn [step] in Hstep.
  - simplify_eq. unfold processTweets in *.
    destruct (scan (document s) s) as [s1 ev1] eqn:Hscan. simplify_eq.
    apply scan_cache in Hscan. by rewrite Hscan.
  - destruct (activations s !! n) as [[item |] |]; try done.
    destruct (deliver host d item s) as [[r s1] ev1] eqn:Hd.
    destruct (settle item r s1) as [s2 next] eqn:Hset.
    apply deliver_frame in Hd as (_ & _ & Hc1 & _).
    apply (settle_cache _ _ _ _ _ k) in Hset; [| by rewrite Hc1].
    destruct next.
    + destruct (run_loop _ _) as [[s3 a] ev3] eqn:Hloop. simplify_eq.
      apply run_loop_frame in Hloop as (_ & Hc3 & _). cbn. by rewrite Hc3.
    + by simplify_eq.
  - destruct (activations s !! n) as [[item |] |]; try done.
    destruct (run_loop _ _) as [[s3 a] ev3] eqn:Hloop. simplify_eq.
    apply run_loop_frame in Hloop as (_ & Hc3 & _). cbn. by rewrite Hc3.
  - by simplify_eq.
  - by simplify_eq.
  - case_match; by simplify_eq.
  - by simplify_eq.
Qed.

Lemma run_cache inputs s s' ev k :
  run host inputs s = Some (s', ev) ->
  is_Some (analyzedPosts s !! k) -> is_Some (analyzedPosts s' !! k).
Proof.
  revert s s' ev. induction inputs as [| i inputs IH]; intros s s' ev H Hk.
  - cbn in H. by simplify_eq.
  - cbn [run] in H.
    destruct (step host i s) as [[s1 ev1] |] eqn:H1; [| done].
    destruct (run host inputs s1) as [[s2 ev2] |] eqn:H2; [| done].
    simplify_eq. eapply IH; [eassumption |]. by eapply step_cache.
Qed.

(** A cache hit: the scan of an untagged tweet whose text is cached. *)
Lemma processTweet_hit t el innerText cached s :
  elements s !! t = Some el ->
  slopAnalyzed el = None ->
  tweetText el = Some innerText ->
  MIN_TEXT_LENGTH <= Z.of_nat (length (trim innerText)) ->
  analyzedPosts s !! hashString (trim innerText) = Some cached ->
  let s' := set_tag t Cached (injectBadge t cached (set_tag t Pending s)) in
  processTweet t s = (s', []) /\
  tag_of t s' = Some Cached /\ badge_of t s' = Some (ResultBadge cached).
Proof.
  intros Hel Htag Htext Hlen Hc. cbn zeta. unfold processTweet.
  rewrite Hel, Htag, Htext.
  rewrite bool_decide_eq_false_2 by by intros [? ?].
  destruct (Z.ltb_spec (Z.of_nat (length (trim innerText))) MIN_TEXT_LENGTH);
    [lia |].
  change (analyzedPosts (set_tag t Pending s)) with (analyzedPosts s).
  rewrite Hc. split; [done |].
  assert (is_Some (elements (set_tag t Pending s) !! t)) as Hsome.
  { apply is_Some_set_tag. by eexists. }
  unfold injectBadge, removeBadge. split.
  - apply tag_of_set_tag. by rewrite !is_Some_set_badge.
  - rewrite badge_of_set_tag. apply badge_of_set_badge.
    by rewrite is_Some_set_badge.
Qed.

End Cache.

(** C1, as the code has it.  Once the classification of a first element
    has succeeded and its result is in the cache under the identifier of
    its text, then after any sequence of scans, replies, timers and
    changes of the page, the scan of an untagged element with the same
    trimmed text (of length at least 20) finds the identifier in the
    cache: it renders the cached result, tags the element 'cached', and
    makes no call at all -- no Work Item is pushed and no message is
    sent. *)
Theorem cached_text_served_from_cache
    (host : Host) (item : WorkItem) (result : Response) (s0 s s' : State)
    (inputs : list Input) (tr : list Event)
    (t : nat) (el : Element) (innerText : JsString) :
  has_error result = false ->
  postId item = hashString (text item) ->
  settle item (Resolved result) s0 = (s, Delay) ->
  run host inputs s = Some (s', tr) ->
  elements s' !! t = Some el ->
  slopAnalyzed el = None ->
  tweetText el = Some innerText ->
  trim innerText = text item ->
  MIN_TEXT_LENGTH <= Z.of_nat (length (text item)) ->
  analyzedPosts s !! postId item = Some result /\
  exists cached s'',
    analyzedPosts s' !! postId item = Some cached /\
    processTweet t s' = (s'', []) /\
    tag_of t s'' = Some Cached /\
    badge_of t s'' = Some (ResultBadge cached) /\
    analysisQueue s'' = analysisQueue s' /\
    activations s'' = activations s'.
Proof.
  intros Hok Hid Hset Hrun Hel Htag Htext Htrim Hlen.
  assert (analyzedPosts s !! postId item = Some result) as Hcached.
  { unfold settle in Hset. rewrite Hok in Hset. simplify_eq. cbn.
    apply lookup_insert_eq. }
  split; [exact Hcached |].
  destruct (run_cache host _ _ _ _ (postId item) Hrun) as [cached Hc];
    [by eexists |].
  rewrite Hid in Hc. rewrite <- Htrim in Hc, Hlen.
  destruct (processTweet_hit t el innerText cached s' Hel Htag Htext Hlen Hc)
    as (Hscan & Ht & Hb).
  exists cached. eexists. rewrite Hid, <- Htrim.
  split_and!; [exact Hc | exact Hscan | exact Ht | exact Hb | done | done].
Qed.

(** ** The properties at work on the sample page *)

Module Examples.

Import Sample Runs.

Lemma run_after_trace inputs s :
  is_Some (run host inputs s) ->
  run host inputs s = Some (after inputs s, trace inputs s).
Proof.
  unfold after, trace. intros [[s' tr] ->]. reflexivity.
Defined.

(** Scenario A of the specification: a text of length 5. *)
Example short_text_too_short :
  let s := initial [Some (lit "short")] store_with_key in
  processTweet 0 s = (set_tag 0 TooShort (set_tag 0 Pending s), []).
Proof. reflexivity. Qed.

(** What [handleAnalyzePost] answers to the failures of the client. *)
Example answer_401 :
  fst (fst (handleAnalyzePost host env_401 post_a (worker_of store_with_key)))
  = Return (Failure (lit "API error: 401")).
Proof. vm_compute. reflexivity. Qed.

Example answer_429 :
  fst (fst (handleAnalyzePost host env_429 post_a (worker_of store_with_key)))
  = Return (Failure (lit "Rate limit reached")).
Proof. vm_compute. reflexivity. Qed.

Example answer_transport_failure :
  fst (fst (handleAnalyzePost host
              (env_with (FetchRejected (lit "Failed to fetch")))
              post_a (worker_of store_with_key)))
  = Return (Failure (lit "Failed to fetch")).
Proof. vm_compute. reflexivity. Qed.

Example answer_empty_content :
  fst (fst (handleAnalyzePost host (env_content []) post_a
              (worker_of store_with_key)))
  = Return (Failure (lit "Empty response from API")).
Proof. vm_compute. reflexivity. Qed.

Example answer_unparsable :
  fst (fst (handleAnalyzePost host (env_content (lit "Sorry, I cannot."))
              post_a (worker_of store_with_key)))
  = Return (Failure (lit "Failed to parse API response")).
Proof. vm_compute. reflexivity. Qed.

Example answer_invalid_likelihood :
  fst (fst (handleAnalyzePost host (env_content odd_payload) post_a
              (worker_of store_with_key)))
  = Return (Failure (lit "Failed to parse API response")).
Proof. vm_compute. reflexivity. Qed.

Example answer_no_choices :
  fst (fst (handleAnalyzePost host
              (env_with (FetchResponse true 200 (Return (VObj []))))
              post_a (worker_of store_with_key)))
  = Return (Failure (lit "Cannot read properties of undefined")).
Proof. vm_compute. reflexivity. Qed.

(** Scenarios D and E: the extension disabled, and no API key. *)
Lemma handleAnalyzePost_refuses_without_settings_witness :
  handleAnalyzePost host env_high post_a (worker_of store_disabled)
    = (Return (Failure (lit "Extension disabled")), worker_of store_disabled,
       [EStorageGet [lit "apiKey"; lit "enabled"]]) /\
  handleAnalyzePost host env_high post_a (worker_of store_without_key)
    = (Return (Failure (lit "No API key configured")),
       worker_of store_without_key,
       [EStorageGet [lit "apiKey"; lit "enabled"]]).
Proof.
  split.
  - apply (handleAnalyzePost_refuses_without_settings host env_high post_a
             (worker_of store_disabled)); reflexivity.
  - apply (handleAnalyzePost_refuses_without_settings host env_high post_a
             (worker_of store_without_key)); [reflexivity | discriminate |
                                               reflexivity].
Defined.

(** A classification 'high' on an empty store: one write, of the record
    with [totalAnalyzed] and [high] at 1. *)
Lemma updateStats_once_per_classification_witness :
  let run := handleAnalyzePost host env_high post_a (worker_of store_with_key) in
  fst (fst run) = Return the_analysis /\
  exists new,
    stats_writes (snd run) = [new] /\
    new !! lit "totalAnalyzed" = Some (Int 1) /\
    new !! lit "high" = Some (Int 1) /\
    new !! lit "low" = Some (Int 0).
Proof.
  cbn zeta. split; [vm_compute; reflexivity |].
  destruct (updateStats_once_per_classification host env_high post_a
              (worker_of store_with_key)
              (snd (fst (handleAnalyzePost host env_high post_a
                           (worker_of store_with_key))))
              (VStr (lit "high")) (VStr (lit "reframing pattern"))
              (snd (handleAnalyzePost host env_high post_a
                      (worker_of store_with_key))))
    as (L & HL & _ & new & Hw & _ & _ & _ & Htotal & Hlabel & Hother).
  { vm_compute. reflexivity. }
  injection HL as <-.
  exists new. split; [exact Hw |].
  split; [apply (Htotal 0); vm_compute; reflexivity |].
  split; [apply (Hlabel 0); vm_compute; reflexivity |].
  rewrite Hother; [vm_compute; reflexivity | discriminate | discriminate].
Defined.

(** The second of three posts has left the document when the loop
    reaches it: it is shifted and passed over. *)
Lemma detached_item_discarded_witness :
  let s := after [Scan; Remove 1; Reply 0 (Delivered env_high)] three_posts in
  analysisQueue s = [item_for 1 post_b; item_for 2 post_c] /\
  (1%nat ∉ document s) /\
  exists s' a ev,
    run_loop [item_for 2 post_c] s = (s', a, ev) /\
    run_loop (analysisQueue s) s = (s', a, EShift (item_for 1 post_b) :: ev) /\
    tag_of 1 s' = Some Pending /\ badge_of 1 s' = None.
Proof.
  cbn zeta. split; [vm_compute; reflexivity |].
  assert (1%nat ∉ document
            (after [Scan; Remove 1; Reply 0 (Delivered env_high)] three_posts))
    as Hout.
  { assert (document (after [Scan; Remove 1; Reply 0 (Delivered env_high)]
                        three_posts) = [0; 2]%nat) as ->
      by (vm_compute; reflexivity).
    rewrite !not_elem_of_cons. split_and!; [done | done |].
    apply not_elem_of_nil. }
  split; [exact Hout |].
  destruct (detached_item_discarded (item_for 1 post_b) [item_for 2 post_c]
              _ Hout) as (s' & a & ev & Hrest & Hall & _ & Hel & _).
  exists s', a, ev. split; [exact Hrest |]. split; [exact Hall |].
  unfold tag_of, badge_of. cbn [tweet item_for] in Hel. rewrite Hel.
  split; vm_compute; reflexivity.
Defined.

(** The first scan of a page with one long post: a cache miss. *)
Lemma processTweet_cases_witness :
  exists s' ev,
    processTweet 0 one_post = (s', ev) /\
    tag_of 0 s' = Some Pending /\
    pushed ev = [item_for 0 post_a] /\
    shifted ev ++ analysisQueue s' = [item_for 0 post_a].
Proof.
  destruct (processTweet_cases 0
              {| slopAnalyzed := None; tweetText := Some post_a;
                 badge := None |} one_post eq_refl eq_refl)
    as (s' & ev & Hp & Hcase).
  exists s', ev. split; [exact Hp |]. exact Hcase.
Defined.

(** A run with a scan, a removal, a reply and a timer. *)
Lemma single_consumer_fifo_witness :
  let s := after second_removed three_posts in
  let tr := trace second_removed three_posts in
  run host second_removed three_posts = Some (s, tr) /\
  (length (activations s) <= 1)%nat /\
  shifted tr ++ analysisQueue s = pushed tr.
Proof.
  cbn zeta.
  assert (run host second_removed three_posts
          = Some (after second_removed three_posts,
                  trace second_removed three_posts)) as Hrun.
  { vm_compute. reflexivity. }
  split; [exact Hrun |].
  destruct (single_consumer_fifo host _ _ _ _ _ Hrun)
    as (Hlen & _ & _ & _ & _ & Hfifo).
  split; [exact Hlen | exact Hfifo].
Defined.



(** Two tweets with the same text, both scanned before the first is
    classified: each gets a Work Item, under the same identifier, each
    is sent to the client, and the second ends tagged 'complete', not
    'cached'. *)
Lemma duplicate_text_analysed_twice :
  (fun r => (pushed (snd r), fetches (snd r), tag_of 1 (fst r)))
    <$> run host both_classified twin_posts
  = Some ([item_for 0 post_a; item_for 1 post_a], [post_a; post_a],
          Some Complete)
  /\ postId (item_for 0 post_a) = postId (item_for 1 post_a)
  /\ (fun r => (pushed (snd r), in_flight (fst r), analysisQueue (fst r)))
       <$> run host [Scan] twin_posts
     = Some ([item_for 0 post_a; item_for 1 post_a], [item_for 0 post_a],
             [item_for 1 post_a]).
Proof. split_and!; vm_compute; reflexivity. Qed.

(** Three posts, the second removed from the document while the first is
    in flight: after the timer the loop shifts the second item, discards
    it, and shifts and sends the third at once, with no wait between the
    two. *)
Lemma discarded_item_not_paced :
  snd <$> run host second_removed three_posts
  = Some [EPush (item_for 0 post_a); EShift (item_for 0 post_a);
          ESendMessage post_a;
          EPush (item_for 1 post_b); EPush (item_for 2 post_c);
          EStorageGet [lit "apiKey"; lit "enabled"];
          EFetch post_a (lit "sk-test");
          EStorageGet [lit "stats"];
          EStorageSet (counted (lit "high") store_with_key);
          EDelay 100;
          EShift (item_for 1 post_b);
          EShift (item_for 2 post_c); ESendMessage post_c]
  /\ (paced ∘ snd) <$> run host second_removed three_posts = Some false.
Proof. split; vm_compute; reflexivity. Qed.


(** The first of two posts is answered HTTP 429: the loop shifts and
    sends the second post in the same step, without a wait. *)
Example error_result_continues_at_once :
  let s := after [Scan] (initial [Some post_a; Some post_b] store_with_key) in
  (fun r => (shifted (snd r), sent (snd r), delays (snd r), tag_of 0 (fst r)))
    <$> step host (Reply 0 (Delivered env_429)) s
  = Some ([item_for 1 post_b], [post_b], [], Some Error).
Proof. vm_compute. reflexivity. Qed.

(** A second article with the text of a classified post. *)
Lemma cached_text_served_from_cache_witness :
  let s' := after twin_inserted first_classified in
  analyzedPosts first_classified !! hashString post_a = Some the_analysis /\
  tag_of 1 s' = None /\
  exists s'',
    processTweet 1 s' = (s'', []) /\
    tag_of 1 s'' = Some Cached /\
    badge_of 1 s'' = Some (ResultBadge the_analysis).
Proof.
  cbn zeta.
  destruct (cached_text_served_from_cache host (item_for 0 post_a)
              the_analysis (after [Scan] one_post) first_classified
              (after twin_inserted first_classified) twin_inserted
              (trace twin_inserted first_classified) 1
              {| slopAnalyzed := None; tweetText := Some post_a;
                 badge := None |} post_a)
    as (Hfirst & cached & s'' & Hc & Hscan & Htag & Hbadge & _).
  { reflexivity. }
  { reflexivity. }
  { vm_compute. reflexivity. }
  { vm_compute. reflexivity. }
  { vm_compute. reflexivity. }
  { reflexivity. }
  { reflexivity. }
  { vm_compute. reflexivity. }
  { vm_compute. discriminate. }
  split; [exact Hfirst |]. split; [vm_compute; reflexivity |].
  exists s''. split; [exact Hscan |]. split; [exact Htag |].
  rewrite Hbadge. f_equal. f_equal.
  assert (analyzedPosts (after twin_inserted first_classified)
            !! postId (item_for 0 post_a) = Some the_analysis) as Hc'
    by (vm_compute; reflexivity).
  congruence.
Defined.

(** The first of three posts is classified: the loop waits; a scan while
    it waits shifts nothing; a detached item is passed over; and a
    request 400 ms after the last one waits 600 ms. *)
Lemma delay_after_request_witness :
  (exists s' ev,
     step host (Reply 0 (Delivered env_high)) (after [Scan] three_posts)
     = Some (s', ev ++ [EDelay 100]) /\
     activations s' = [AwaitDelay]) /\
  (let s := after [Scan; Reply 0 (Delivered env_high)] three_posts in
   activations s = [AwaitDelay] /\
   shifted (snd (processTweets s)) = []) /\
  (let s := after [Scan; Remove 1; Reply 0 (Delivered env_high)] three_posts in
   Forall (fun e => forall ms, e <> EDelay ms)
     (snd (run_loop (analysisQueue s) s))) /\
  (exists ev,
     snd (handleAnalyzePost host env_high post_a
            {| storage := store_with_key; lastRequestTime := 4600 |})
     = EStorageGet [lit "apiKey"; lit "enabled"] :: ETimeout 600
       :: EFetch post_a (lit "sk-test") :: ev).
Proof.
  destruct (delay_after_request host) as (Hwait & Honly & Hloop & Hlimit).
  split; [| split; [| split]].
  - destruct (Hwait (after [Scan] three_posts) 0%nat (item_for 0 post_a)
                (Delivered env_high))
      as (s' & ev & Hstep & _ & _ & _ & _ & Hacts).
    { vm_compute. reflexivity. }
    { vm_compute. reflexivity. }
    exists s', ev. split; [exact Hstep |].
    rewrite Hacts. vm_compute. reflexivity.
  - cbn zeta. split; [vm_compute; reflexivity |].
    set (s := after [Scan; Reply 0 (Delivered env_high)] three_posts).
    destruct (processTweets s) as [s1 ev1] eqn:Hscan.
    refine (proj1 (Honly s Scan s1 ev1 _ _ _ _)).
    + eapply (run_single host [Scan; Reply 0 (Delivered env_high)]);
        [apply initial_single |].
      apply (run_after_trace _ three_posts). vm_compute. by eexists.
    + vm_compute. reflexivity.
    + cbn [step]. by rewrite Hscan.
    + intros n. discriminate.
  - cbn zeta.
    destruct (run_loop _ _) as [[s' a] ev] eqn:Hrun.
    exact (proj1 (Hloop _ _ _ _ _ Hrun)).
  - destruct (Hlimit env_high post_a
                {| storage := store_with_key; lastRequestTime := 4600 |})
      as (c & w' & ev & Hrun & _);
      [reflexivity | discriminate | discriminate |].
    exists ev. by rewrite Hrun.
Defined.

End Examples.

(** ** More on the identity function *)

Section Polynomial.

Lemma toInt32_congruent a b :
  (exists k, a = b + k * 2 ^ 32) -> toInt32 a = toInt32 b.
Proof. intros [k ->]. apply toInt32_shift. Qed.

Lemma hash_step_31 h c : hash_step h c = toInt32 (h * 31 + c).
Proof.
  rewrite hash_step_truncate, truncate32_toInt32.
  change (2 ^ 5) with 32. f_equal. lia.
Qed.

Lemma poly31_from acc str :
  fold_left (fun a c => a * 31 + c) str acc
  = acc * 31 ^ Z.of_nat (length str) + poly31 str.
Proof.
  unfold poly31. revert acc. induction str as [| c str IH]; intros acc.
  - cbn [fold_left length]. change (31 ^ Z.of_nat 0) with 1. lia.
  - cbn [fold_left length]. rewrite IH, (IH (0 * 31 + c)).
    rewrite Nat2Z.inj_succ, Z.pow_succ_r by lia. ring.
Qed.

Lemma poly31_app p s :
  poly31 (p ++ s) = poly31 p * 31 ^ Z.of_nat (length s) + poly31 s.
Proof.
  unfold poly31 at 1. rewrite fold_left_app. fold (poly31 p).
  apply poly31_from.
Qed.

(** From any two congruent accumulators the loop and the polynomial
    stay congruent. *)
Lemma hash_loop_congruent str h acc :
  toInt32 h = toInt32 acc ->
  toInt32 (fold_left hash_step str h)
  = toInt32 (fold_left (fun a c => a * 31 + c) str acc).
Proof.
  revert h acc. induction str as [| c str IH]; intros h acc Hc; [exact Hc |].
  cbn [fold_left]. apply IH. rewrite hash_step_31.
  rewrite (toInt32_small (toInt32 _)) by apply toInt32_range.
  destruct (toInt32_wraps h) as [k1 Hk1], (toInt32_wraps acc) as [k2 Hk2].
  apply toInt32_congruent. exists ((k2 - k1) * 31).
  assert (h = acc + (k2 - k1) * 2 ^ 32) as -> by lia. ring.
Qed.

Lemma hash_loop_poly31 str : hash_loop str = toInt32 (poly31 str).
Proof.
  unfold hash_loop, poly31.
  rewrite <- (hash_loop_congruent str 0 0 eq_refl).
  symmetry. apply toInt32_small. apply hash_loop_from_int32.
  unfold int32. lia.
Qed.

End Polynomial.

(** X1. The integer that [hashString] renders is the polynomial
    [c0 * 31^(n-1) + ... + c(n-1)] of the code units, reduced to a signed
    32-bit integer once, at the end: the truncations inside the loop
    change nothing.  The polynomial of a concatenation is that of the
    prefix shifted by [31^length] plus that of the suffix. *)
Theorem hashString_polynomial (p s : JsString) :
  hash_loop (p ++ s)
  = toInt32 (poly31 p * 31 ^ Z.of_nat (length s) + poly31 s) /\
  hashString (p ++ s)
  = Number_toString
      (toInt32 (poly31 p * 31 ^ Z.of_nat (length s) + poly31 s)) 36.
Proof.
  assert (hash_loop (p ++ s)
          = toInt32 (poly31 p * 31 ^ Z.of_nat (length s) + poly31 s)) as H.
  { by rewrite hash_loop_poly31, poly31_app. }
  split; [exact H |]. unfold hashString. by rewrite H.
Qed.

(** X2. Texts that differ in a segment of the same length and the same
    polynomial modulo 2^32 (such as "Aa" and "BB") have the same
    identifier, whatever stands before and after the segment. *)
Theorem hashString_collides (a p1 p2 s : JsString) :
  length p1 = length p2 ->
  toInt32 (poly31 p1) = toInt32 (poly31 p2) ->
  hashString (a ++ p1 ++ s) = hashString (a ++ p2 ++ s).
Proof.
  intros Hlen Hpoly. unfold hashString. f_equal.
  rewrite !hash_loop_poly31, !poly31_app, !length_app, Hlen.
  destruct (toInt32_wraps (poly31 p1)) as [k1 Hk1].
  destruct (toInt32_wraps (poly31 p2)) as [k2 Hk2].
  apply toInt32_congruent.
  exists ((k2 - k1) * 31 ^ Z.of_nat (length s)).
  assert (poly31 p1 = poly31 p2 + (k2 - k1) * 2 ^ 32) as -> by lia. ring.
Qed.

Section RenderingBounds.

Lemma digits_length fuel k n :
  (1 <= k)%nat -> 0 <= n < 36 ^ Z.of_nat k ->
  (length (digits fuel 36 n []) <= k)%nat.
Proof.
  revert k n. induction fuel as [| fuel IH]; intros k n Hk Hn; [cbn; lia |].
  cbn [digits]. destruct (Z.ltb_spec n 36) as [Hlt | Hge]; [cbn; lia |].
  rewrite (digits_acc _ _ _ [_]), length_app. cbn [length].
  destruct k as [| [| k]]; [lia | change (36 ^ Z.of_nat 1) with 36 in Hn; lia |].
  assert (length (digits fuel 36 (n / 36) []) <= S k)%nat; [| lia].
  apply IH; [lia |].
  rewrite (Nat2Z.inj_succ (S k)), Z.pow_succ_r in Hn by lia.
  split; [apply Z.div_pos; lia |]. apply Z.div_lt_upper_bound; lia.
Qed.

Lemma toString_injective n m :
  Number_toString n 36 = Number_toString m 36 -> n = m.
Proof.
  intros H. by rewrite <- (read_number_toString n), H, read_number_toString.
Qed.

End RenderingBounds.

(** X3. The identifier is a faithful and short rendering of the hash:
    two texts have the same identifier exactly when their 32-bit hashes
    are equal, and an identifier has between 1 and 7 code units. *)
Theorem hashString_faithful (T1 T2 : JsString) :
  (hashString T1 = hashString T2 <-> hash_loop T1 = hash_loop T2) /\
  (1 <= length (hashString T1) <= 7)%nat.
Proof.
  split.
  - split; [apply toString_injective | unfold hashString; by intros ->].
  - unfold hashString, Number_toString.
    assert (int32 (hash_loop T1)) as Hr.
    { apply hash_loop_from_int32. unfold int32. lia. }
    pose proof (digits_nonempty (Z.to_nat (Z.log2 (Z.abs (hash_loop T1))))
                  (Z.abs (hash_loop T1))) as Hne.
    assert (length (digits (S (Z.to_nat (Z.log2 (Z.abs (hash_loop T1)))))
                      36 (Z.abs (hash_loop T1)) []) <= 6)%nat as Hd.
    { apply digits_length; [lia |]. unfold int32 in Hr.
      change (36 ^ Z.of_nat 6) with 2176782336. lia. }
    destruct (digits _ 36 _ []) as [| d ds]; [done |].
    destruct (hash_loop T1 <? 0); cbn [length] in *; lia.
Qed.

(** ** More on the client *)

Section Client.

Context (host : Host).

Ltac unfold_client :=
  unfold analyzeWithOpenAI, bind, try_catch, emit, lift, throw, ret in *.

Lemma trim_start_snoc s c :
  is_space c = true ->
  trim_start (s ++ [c])
  = match trim_start s with [] => [] | r => r ++ [c] end.
Proof.
  intros Hc. induction s as [| x s IH].
  - cbn. by rewrite Hc.
  - cbn [app trim_start]. destruct (is_space x); [exact IH | done].
Qed.

Lemma trim_snoc s c : is_space c = true -> trim (s ++ [c]) = trim s.
Proof.
  intros Hc. unfold trim. rewrite (trim_start_snoc s c Hc).
  destruct (trim_start s) as [| x r]; [done |].
  rewrite reverse_app. cbn [reverse app]. change (reverse [c]) with [c].
  cbn [app trim_start]. by rewrite Hc.
Qed.

Lemma remove_fence_plain pat b rest :
  96 ∉ b ->
  remove_fence (96 :: pat) 0 (b ++ rest)
  = b ++ remove_fence (96 :: pat) 0 rest.
Proof.
  induction b as [| c b IH]; intros Hb; [done |].
  apply not_elem_of_cons in Hb as [Hc Hb].
  cbn [app remove_fence starts_with].
  destruct (Z.eqb_spec 96 c) as [Heq | _]; [by destruct Hc |].
  cbn [andb]. by rewrite IH.
Qed.

Lemma remove_fence_none pat b :
  96 ∉ b -> remove_fence (96 :: pat) 0 b = b.
Proof.
  intros Hb. rewrite <- (app_nil_r b) at 1.
  rewrite remove_fence_plain by done. cbn. apply app_nil_r.
Qed.

End Client.

(** X4. For a response that is not [ok], [analyzeWithOpenAI] never
    returns: after its one fetch it throws, leaving the state of the
    worker alone.  The message is that of the provider's error object
    when the body has one; when the body is not JSON, or is an object
    without an [error] field, it is "API error: " followed by the
    status in decimal. *)
Theorem analyzeWithOpenAI_non_ok
    (host : Host) (env : Env) (postText key : JsString) (w : Background)
    (status : Z) (json : completion value) :
  fetch_outcome env = FetchResponse false status json ->
  exists message,
    analyzeWithOpenAI host env postText key w
    = (Throw message, w, [EFetch postText key]) /\
    let fallback := lit "API error: " ++ Number_toString status 10 in
    (forall e, json = Throw e -> message = fallback) /\
    (forall fields,
       json = Return (VObj fields) ->
       lookup_field (lit "error") fields = VUndefined ->
       message = fallback) /\
    (forall fields efields m,
       json = Return (VObj fields) ->
       lookup_field (lit "error") fields = VObj efields ->
       lookup_field (lit "message") efields = VStr m ->
       m <> [] ->
       message = m).
Proof.
  intros Hfetch.
  assert (exists message,
            analyzeWithOpenAI host env postText key w
            = (Throw message, w, [EFetch postText key])) as [message Hrun].
  { unfold analyzeWithOpenAI, bind, try_catch, emit, lift, throw, ret.
    rewrite Hfetch. cbn [negb].
    destruct (member host _ (lit "error")) as [err | m1]; [| by eexists].
    destruct (opt_member host err (lit "message")); by eexists. }
  exists message. split; [exact Hrun |].
  revert Hrun.
  unfold analyzeWithOpenAI, bind, try_catch, emit, lift, throw, ret.
  rewrite Hfetch. cbn [negb]. intros Hrun. cbn zeta. split_and!.
  - intros e ->. cbn in Hrun. by simplify_eq.
  - intros fields -> Hnone. unfold member in Hrun. rewrite Hnone in Hrun.
    cbn in Hrun. by simplify_eq.
  - intros fields efields m -> He Hm Hne. unfold member in Hrun.
    rewrite He in Hrun. unfold opt_member, member in Hrun.
    rewrite Hm in Hrun. cbn [truthy string_of] in Hrun.
    rewrite bool_decide_eq_false_2 in Hrun by done. cbn in Hrun.
    by simplify_eq.
Qed.

(** X5. For an [ok] response with a JSON body, [analyzeWithOpenAI] makes
    one fetch, leaves the state of the worker alone, and ends in one of
    four ways: it returns an analysis whose likelihood is one of the
    four labels and whose reason is truthy; or it throws the engine's
    TypeError (a body without a [choices] list), "Empty response from
    API", or "Failed to parse API response".  The error "Invalid
    likelihood value" raised inside the parsing block is always replaced
    by the last of these. *)
Theorem analyzeWithOpenAI_ok_outcomes
    (host : Host) (env : Env) (postText key : JsString) (w w' : Background)
    (status : Z) (data : value) (c : completion Response) (ev : list Event) :
  fetch_outcome env = FetchResponse true status (Return data) ->
  analyzeWithOpenAI host env postText key w = (c, w', ev) ->
  w' = w /\ ev = [EFetch postText key] /\
  ((exists L reason,
      c = Return (Analysis (VStr L) reason) /\
      L ∈ LIKELIHOODS /\ truthy reason = true)
   \/ c = Throw (TypeError_message host)
   \/ c = Throw (lit "Empty response from API")
   \/ c = Throw (lit "Failed to parse API response")).
Proof.
  intros Hfetch Hrun.
  destruct (analyzeWithOpenAI_frame host _ _ _ _ _ _ _ Hrun) as [-> ->].
  split; [done |]. split; [done |].
  destruct c as [r | m].
  - left. apply analyzeWithOpenAI_returns in Hrun
      as (_ & _ & L & reason & -> & HL & Hr). by exists L, reason.
  - right. revert Hrun.
    unfold analyzeWithOpenAI, bind, try_catch, emit, lift, throw, ret.
    rewrite Hfetch. cbn [negb]. unfold member, opt_member, first_item.
    intros Hrun. repeat (case_match; simplify_eq/=); auto.
Qed.

(** X6. The clean-up of the content before [JSON.parse]: a content
    without a backtick is only trimmed, and a content wrapped in a
    markdown fence, opened by [```json] or by [```] on a line of its own
    and closed by [```] on a line of its own, is reduced to the trimmed
    text between the fences. *)
Theorem clean_content_strips_fences (host : Host) (body : JsString) :
  96 ∉ body ->
  clean_content host (VStr body) = Return (trim body) /\
  clean_content host
    (VStr (lit "```json" ++ [10] ++ body ++ [10] ++ lit "```"))
  = Return (trim body) /\
  clean_content host
    (VStr (lit "```" ++ [10] ++ body ++ [10] ++ lit "```"))
  = Return (trim body).
Proof.
  intros Hb.
  assert (96 ∉ body ++ [10]) as Hb'.
  { rewrite elem_of_app, list_elem_of_singleton. intros [? | ?]; done. }
  assert (forall pat, remove_fence (96 :: pat) 0 ((body ++ [10]) ++ lit "```")
                      = (body ++ [10]) ++ remove_fence (96 :: pat) 0 (lit "```"))
    as Hclose by (intros pat; by apply remove_fence_plain).
  unfold clean_content. split_and!; f_equal.
  - change (lit "```json") with (96 :: lit "``json").
    change (lit "```") with (96 :: lit "``").
    by rewrite (remove_fence_none _ body Hb), (remove_fence_none _ body Hb).
  - change (remove_fence (lit "```json") 0
              (lit "```json" ++ [10] ++ body ++ [10] ++ lit "```"))
      with (remove_fence (96 :: lit "``json") 0
              (body ++ [10] ++ lit "```")).
    rewrite (app_assoc body), Hclose.
    change (remove_fence (96 :: lit "``json") 0 (lit "```")) with (lit "```").
    change (remove_fence (lit "```") 0 ?s)
      with (remove_fence (96 :: lit "``") 0 s).
    rewrite Hclose.
    change (remove_fence (96 :: lit "``") 0 (lit "```")) with (@nil Z).
    rewrite app_nil_r. by apply trim_snoc.
  - change (remove_fence (lit "```json") 0
              (lit "```" ++ [10] ++ body ++ [10] ++ lit "```"))
      with (lit "```" ++ [10]
            ++ remove_fence (96 :: lit "``json") 0 (body ++ [10] ++ lit "```")).
    rewrite (app_assoc body), Hclose.
    change (remove_fence (96 :: lit "``json") 0 (lit "```")) with (lit "```").
    change (remove_fence (lit "```") 0
              (lit "```" ++ [10] ++ (body ++ [10]) ++ lit "```"))
      with (remove_fence (96 :: lit "``") 0 ((body ++ [10]) ++ lit "```")).
    rewrite Hclose.
    change (remove_fence (96 :: lit "``") 0 (lit "```")) with (@nil Z).
    rewrite app_nil_r. by apply trim_snoc.
Qed.

(** ** More on the service worker: the counters *)

Section Counters.

Context (host : Host).










End Counters.


(** X8. An analysis request never touches the settings: whatever the
    run, the stored API key and enabled flag are as before; and a run
    that does not return an analysis leaves the whole store, stats
    included, as it was. *)
Theorem handleAnalyzePost_keeps_settings
    (host : Host) (env : Env) (postText : JsString) (w w' : Background)
    (c : completion Response) (ev : list Event) :
  handleAnalyzePost host env postText w = (c, w', ev) ->
  stored_apiKey (storage w') = stored_apiKey (storage w) /\
  stored_enabled (storage w') = stored_enabled (storage w) /\
  ((forall likelihood reason, c <> Return (Analysis likelihood reason)) ->
   storage w' = storage w).
Proof.
  intros Hrun.
  assert ((forall likelihood reason, c <> Return (Analysis likelihood reason)) ->
          storage w' = storage w) as Hfail
    by (by apply (handleAnalyzePost_failure host _ _ _ _ _ _ Hrun)).
  destruct c as [[likelihood reason | e] | m].
  - apply handleAnalyzePost_analysis in Hrun
      as (L & _ & _ & _ & _ & _ & Hk & He & _).
    by split_and!.
  - rewrite Hfail by done. by split_and!.
  - rewrite Hfail by done. by split_and!.
Qed.

(** ** The settings and the popup *)

(** X9. Saving and reading the settings.  A [saveSettings] that the
    store accepts changes only the keys it carries: [getSettings] then
    returns the saved API key and enabled flag, a key that was not sent
    reads as before (an absent API key as the empty string, an absent
    flag as [true]), and the stats and the request stamp are untouched.
    A [saveSettings] that the store refuses changes nothing. *)
Theorem saveSettings_then_getSettings
    (u : SettingsUpdate) (w : Background) :
  (forall message, saveSettings (Some message) u w = (Throw message, w)) /\
  exists w',
    saveSettings None u w = (Return tt, w') /\
    stored_stats (storage w') = stored_stats (storage w) /\
    lastRequestTime w' = lastRequestTime w /\
    exists ev,
      getSettings (Popup.store_env None) w'
      = (Return
           {| apiKey :=
                match update_apiKey u with
                | Some key => key
                | None => default [] (stored_apiKey (storage w))
                end;
              enabled :=
                match update_enabled u with
                | Some b => b
                | None =>
                    negb (bool_decide (stored_enabled (storage w) = Some false))
                end |}, w', ev).
Proof.
  split; [done |]. eexists. split; [reflexivity |].
  split; [done |]. split; [done |].
  unfold getSettings, bind, emit, get_state, ret. cbn.
  destruct (update_apiKey u), (update_enabled u) as [[] |]; cbn;
    rewrite ?(bool_decide_eq_false_2 (Some true = Some false)) by done;
    rewrite ?(bool_decide_eq_true_2 (Some false = Some false)) by done;
    by eexists.
Qed.

Section PopupFacts.

Context (host : Host).

Lemma rejected_key_false key :
  Popup.rejected_key key = false <-> Popup.accepted_key key.
Proof.
  unfold Popup.rejected_key, Popup.accepted_key.
  generalize (starts_with (lit "sk-") key). intros b.
  case_bool_decide as Hk; destruct b; cbn [negb andb];
    split; auto; intros [? | ?]; done.
Qed.

Lemma send_saveSettings_store ch u w resolved w' :
  Popup.send_saveSettings ch u w = (resolved, w') ->
  (resolved = true /\ ch = Popup.Handled None /\
   storage w' = store_settings u (storage w) /\
   lastRequestTime w' = lastRequestTime w)
  \/ (resolved = false /\ ch <> Popup.Handled None /\ w' = w).
Proof.
  unfold Popup.send_saveSettings, saveSettings.
  destruct ch as [m | [fault |]]; intros ?; simplify_eq; auto.
Qed.

Lemma getSettings_state env w c w' ev :
  getSettings env w = (c, w', ev) -> w' = w.
Proof.
  unfold getSettings, bind, emit, throw, get_state, ret.
  destruct (settings_read env); intros ?; by simplify_eq.
Qed.

Lemma getStats_state fault w c w' ev :
  getStats fault w = (c, w', ev) -> w' = w.
Proof.
  unfold getStats, bind, emit, throw, get_state, ret.
  destruct fault; intros ?; by simplify_eq.
Qed.

Lemma init_state ch1 ch2 p w p' w' :
  Popup.init ch1 ch2 p w = (p', w') -> w' = w.
Proof.
  unfold Popup.init, Popup.loadSettings, Popup.loadStats. intros H.
  repeat (case_match; simplify_eq);
    repeat match goal with
           | H : getSettings _ _ = _ |- _ => apply getSettings_state in H
           | H : getStats _ _ = _ |- _ => apply getStats_state in H
           end; by subst.
Qed.

Lemma run_keeps_key env postText w c w' ev :
  handleAnalyzePost host env postText w = (c, w', ev) ->
  stored_apiKey (storage w') = stored_apiKey (storage w).
Proof.
  intros Hrun. destruct c as [[likelihood reason | e] | m].
  - by apply handleAnalyzePost_analysis in Hrun
      as (L & _ & _ & _ & _ & _ & Hk & _).
  - by rewrite (handleAnalyzePost_failure host _ _ _ _ _ _ Hrun).
  - by rewrite (handleAnalyzePost_failure host _ _ _ _ _ _ Hrun).
Qed.

Lemma act_accepted a p w p' w' :
  Popup.stored_accepted w -> Popup.act host a (p, w) = (p', w') ->
  Popup.stored_accepted w'.
Proof.
  intros Hw. destruct a as [ch1 ch2 | key | ch | ch | | env txt];
    cbn [Popup.act].
  - intros H. apply init_state in H. by subst.
  - intros ?. by simplify_eq.
  - unfold Popup.toggleEnabled.
    destruct (Popup.send_saveSettings _ _ _) as [r w1] eqn:Hsend.
    intros ?. simplify_eq.
    apply send_saveSettings_store in Hsend
      as [(_ & _ & Hs & _) | (_ & _ & ->)]; [| done].
    unfold Popup.stored_accepted in *. by rewrite Hs.
  - unfold Popup.saveSettings.
    destruct (Popup.rejected_key _) eqn:Hrej; [intros ?; by simplify_eq |].
    destruct (Popup.send_saveSettings _ _ _) as [r w1] eqn:Hsend.
    intros ?. simplify_eq.
    apply send_saveSettings_store in Hsend
      as [(_ & _ & Hs & _) | (_ & _ & ->)]; [| done].
    unfold Popup.stored_accepted. rewrite Hs. cbn.
    by apply rejected_key_false.
  - intros ?. by simplify_eq.
  - destruct (handleAnalyzePost _ _ _ _) as [[c w1] ev] eqn:Hrun.
    intros ?. simplify_eq. apply run_keeps_key in Hrun.
    unfold Popup.stored_accepted in *. by rewrite Hrun.
Qed.

End PopupFacts.

(** X10. The format check of the popup guards the store.  If the store
    holds no API key, or one that is empty or starts with [sk-], then
    after any sequence of popup openings, typing, checkbox flips, clicks
    on the save button, status timers and analysis requests, over
    channels that work or fail in any way, it still does. *)
Theorem stored_key_stays_accepted
    (host : Host) (l : list Popup.Action) (p p' : Popup.Page)
    (w w' : Background) :
  Popup.stored_accepted w ->
  Popup.acts host l (p, w) = (p', w') ->
  Popup.stored_accepted w'.
Proof.
  revert p w. induction l as [| a l IH]; intros p w Hw H.
  - cbn in H. by simplify_eq.
  - cbn [Popup.acts fold_left] in H.
    destruct (Popup.act host a (p, w)) as [p1 w1] eqn:Hact.
    eapply IH; [| exact H]. by eapply act_accepted.
Qed.

(** X11. What a click on the save button does.  When the trimmed key is
    not empty and does not start with [sk-], the store is left as it
    was, the status shows the format error and the button is not
    touched.  Otherwise the button is enabled again and reads "Save
    Settings" whatever happened; the status reads "Settings saved
    successfully!" exactly when the worker handled the message and its
    store accepted the write, in which case the store holds the trimmed
    key and the state of the checkbox and its stats are untouched; in
    every other case the store is as it was and the status reads
    "Failed to save settings". *)
Theorem popup_save_outcome
    (ch : Popup.Channel) (p : Popup.Page) (w : Background) :
  let key := trim (Popup.apiKey_value p) in
  exists p' w',
    Popup.saveSettings ch p w = (p', w') /\
    (~ Popup.accepted_key key ->
     w' = w /\
     Popup.status_textContent p' = Popup.invalid_format /\
     Popup.status_className p' = lit "status error" /\
     Popup.saveBtn_disabled p' = Popup.saveBtn_disabled p /\
     Popup.saveBtn_textContent p' = Popup.saveBtn_textContent p) /\
    (Popup.accepted_key key ->
     Popup.saveBtn_disabled p' = false /\
     Popup.saveBtn_textContent p' = lit "Save Settings" /\
     (ch = Popup.Handled None ->
      Popup.status_textContent p' = lit "Settings saved successfully!" /\
      Popup.status_className p' = lit "status success" /\
      stored_apiKey (storage w') = Some key /\
      stored_enabled (storage w') = Some (Popup.enabled_checked p) /\
      stored_stats (storage w') = stored_stats (storage w)) /\
     (ch <> Popup.Handled None ->
      Popup.status_textContent p' = lit "Failed to save settings" /\
      Popup.status_className p' = lit "status error" /\
      w' = w)).
Proof.
  cbn zeta. unfold Popup.saveSettings.
  destruct (Popup.rejected_key (trim (Popup.apiKey_value p))) eqn:Hrej.
  - eexists _, _. split; [reflexivity |]. split; [done |].
    intros Hacc. apply rejected_key_false in Hacc. congruence.
  - destruct (Popup.send_saveSettings _ _ _) as [r w1] eqn:Hsend.
    eexists _, _. split; [reflexivity |]. split.
    { intros Hn. destruct Hn. by apply rejected_key_false. }
    intros _. split; [done |]. split; [done |].
    apply send_saveSettings_store in Hsend
      as [(-> & -> & Hs & _) | (-> & Hne & ->)].
    + split; [| done]. intros _. rewrite Hs. by split_and!.
    + split; [done |]. intros _. by split_and!.
Qed.

(** X12. A saved key comes back.  After a click on the save button with
    a key that passes the format check, over a working channel and
    store, opening the popup again shows the trimmed key in the key
    field and the checkbox as it was saved, and [getSettings] hands the
    same two values to the analysis. *)
Theorem popup_save_then_open
    (ch2 : Popup.Channel) (p q : Popup.Page) (w : Background) :
  let key := trim (Popup.apiKey_value p) in
  Popup.accepted_key key ->
  exists p1 w1 q1,
    Popup.saveSettings (Popup.Handled None) p w = (p1, w1) /\
    Popup.init (Popup.Handled None) ch2 q w1 = (q1, w1) /\
    Popup.apiKey_value q1 = key /\
    Popup.enabled_checked q1 = Popup.enabled_checked p /\
    exists ev,
      getSettings (Popup.store_env None) w1
      = (Return {| apiKey := key; enabled := Popup.enabled_checked p |},
         w1, ev).
Proof.
  cbn zeta. intros Hacc. apply rejected_key_false in Hacc.
  set (key := trim (Popup.apiKey_value p)) in *.
  set (w1 := {| storage :=
                  store_settings
                    {| update_apiKey := Some key;
                       update_enabled := Some (Popup.enabled_checked p) |}
                    (storage w);
                lastRequestTime := lastRequestTime w |}).
  assert (exists ev,
            getSettings (Popup.store_env None) w1
            = (Return {| apiKey := key; enabled := Popup.enabled_checked p |},
               w1, ev))
    as [ev Hget].
  { unfold getSettings, bind, emit, get_state, ret. cbn.
    destruct (Popup.enabled_checked p);
      rewrite ?(bool_decide_eq_false_2 (Some true = Some false)) by done;
      rewrite ?(bool_decide_eq_true_2 (Some false = Some false)) by done;
      by eexists. }
  destruct (Popup.loadStats ch2
              (Popup.set_fields key (Popup.enabled_checked p) q) w1)
    as [q1 w2] eqn:Hstats.
  assert (w2 = w1 /\
          Popup.apiKey_value q1 = key /\
          Popup.enabled_checked q1 = Popup.enabled_checked p)
    as (-> & Hk & He).
  { unfold Popup.loadStats in Hstats.
    repeat (case_match; simplify_eq);
      repeat match goal with
             | H : getStats _ _ = _ |- _ => apply getStats_state in H
             end; by subst. }
  eexists _, w1, q1. split_and!.
  - unfold Popup.saveSettings. fold key. rewrite Hacc. reflexivity.
  - unfold Popup.init, Popup.loadSettings. rewrite Hget. exact Hstats.
  - exact Hk.
  - exact He.
  - by exists ev.
Qed.


(** ** More on the content script: tags are final *)

Section Final.

Context (host : Host).

(** A tweet with a tag other than 'pending' has no Work Item. *)
Lemma terminal_retired t tag s :
  well_formed s -> tag_of t s = Some tag -> tag <> Pending -> retired t s.
Proof.
  intros [_ [_ Hpend]] Htag Hne. split; [by rewrite Htag |].
  intros item Hitem Heq. specialize (Hpend item Hitem).
  rewrite Heq, Htag in Hpend. congruence.
Qed.

Lemma NoDup_fmap_same {A B} (f : A -> B) (l : list A) x y :
  NoDup (f <$> l) -> x ∈ l -> y ∈ l -> f x = f y -> x = y.
Proof.
  induction l as [| a l IH]; intros Hnd Hx Hy Hf.
  - by apply elem_of_nil in Hx.
  - cbn in Hnd. apply NoDup_cons in Hnd as [Ha Hnd].
    apply elem_of_cons in Hx as [-> | Hx], Hy as [-> | Hy]; auto.
    + destruct Ha. rewrite Hf. by apply list_elem_of_fmap_2.
    + destruct Ha. rewrite <- Hf. by apply list_elem_of_fmap_2.
Qed.

(** The items a run of the loop passes over are retired: tagged
    'pending' and without a Work Item. *)
Lemma run_loop_passed_over n s s' a ev item :
  is_Some (activations s !! n) ->
  (length (activations s) <= 1)%nat ->
  NoDup (tweet <$> analysisQueue s) ->
  (forall it, it ∈ analysisQueue s -> tag_of (tweet it) s = Some Pending) ->
  run_loop (analysisQueue s) s = (s', a, ev) ->
  item ∈ shifted ev ->
  item ∉ item_of a ->
  tag_of (tweet item) (replace_activation n a s') = Some Pending /\
  retired (tweet item) (replace_activation n a s').
Proof.
  intros [act Hact] Hlen Hnd Hpend Hloop Hitem Hnot.
  pose proof (run_loop_frame _ _ _ _ _ Hloop)
    as (_ & _ & _ & Ha & _ & Hq & Htags & _).
  pose proof (run_loop_sublist _ _ _ _ _ Hloop) as [_ Hsh].
  pose proof (run_loop_end _ _ _ _ _ Hloop) as Hend.
  assert (n = 0%nat /\ activations s = [act]) as [-> Hacts].
  { destruct (activations s) as [| a0 [| ? ?]]; cbn in Hlen; try lia; [done |].
    destruct n; [| done]. cbn in Hact. by simplify_eq. }
  assert (tag_of (tweet item) (replace_activation 0 a s') = Some Pending)
    as Htag.
  { change (tag_of (tweet item) (replace_activation 0 a s'))
      with (tag_of (tweet item) s').
    rewrite (tag_of_lookup _ _ Htags). by apply Hpend, Hsh. }
  split; [exact Htag |]. split; [by rewrite Htag |].
  intros it Hit Heq.
  rewrite waiting_replace in Hit by by rewrite Ha, Hacts.
  assert (it ∈ analysisQueue s) as Hin.
  { rewrite <- Hq. apply elem_of_app in Hit as [Hit | Hit].
    - apply elem_of_app. left. destruct a as [[it' |] |]; cbn in Hit;
        try by apply elem_of_nil in Hit.
      apply list_elem_of_singleton in Hit as ->.
      destruct Hend as (it0 & [= <-] & _ & _ & _ & Hsent).
      clear -Hloop. revert s' ev Hloop.
      induction (analysisQueue s) as [| x q IH]; intros s' ev Hloop.
      + cbn in Hloop. by simplify_eq.
      + cbn [run_loop] in Hloop. case_bool_decide.
        * simplify_eq. cbn. apply elem_of_cons. by left.
        * destruct (run_loop q s) as [[s1 a1] ev1] eqn:Hl. simplify_eq.
          change (shifted (EShift x :: ev1)) with (x :: shifted ev1).
          apply elem_of_cons. right. by eapply IH.
    - apply elem_of_app. by right. }
  assert (it = item) as ->.
  { eapply (NoDup_fmap_same tweet); [exact Hnd | exact Hin | by apply Hsh |
                                     exact Heq]. }
  apply elem_of_app in Hit as [Hit | Hit]; [done |].
  rewrite <- Hq in Hnd. rewrite fmap_app in Hnd.
  apply NoDup_app in Hnd as (_ & Hdisj & _).
  apply (Hdisj (tweet item)); by apply list_elem_of_fmap_2.
Qed.

(** A scan of the document never passes an item over: what it shifts
    is in flight when it ends. *)
Lemma processTweet_shifted t s s' ev :
  well_formed s -> t ∈ document s -> processTweet t s = (s', ev) ->
  document s' = document s /\
  (forall it, it ∈ shifted ev -> it ∈ in_flight s') /\
  (shifted ev <> [] -> isProcessingQueue s' = true).
Proof.
  intros [(Hlen & Hflag & Hidle) _] Hdoc. unfold processTweet.
  assert (forall u : State, document u = document s ->
    document u = document s /\
    (forall it, it ∈ shifted [] -> it ∈ in_flight u) /\
    (shifted [] <> [] -> isProcessingQueue u = true)) as Hquiet.
  { intros u Hu. split_and!; [done | | done].
    intros it Hit. by apply elem_of_nil in Hit. }
  destruct (elements s !! t) as [el |];
    [| intros Hrun; simplify_eq; by apply Hquiet].
  case_bool_decide; [intros Hrun; simplify_eq; by apply Hquiet |].
  destruct (tweetText el) as [innerText |];
    [| intros Hrun; simplify_eq; by apply Hquiet].
  destruct (_ <? _); [intros Hrun; simplify_eq; by apply Hquiet |].
  destruct (analyzedPosts _ !! _); [intros Hrun; simplify_eq; by apply Hquiet |].
  destruct (processQueue _) as [s1 ev1] eqn:Hpq. intros Hrun. simplify_eq.
  change (shifted (EPush ?i :: ?l)) with (shifted l).
  unfold processQueue in Hpq. cbn [isProcessingQueue set_analysisQueue set_tag
    set_elements analysisQueue] in Hpq.
  destruct (isProcessingQueue s) eqn:Hf; cbn [orb] in Hpq.
  { simplify_eq. by apply Hquiet. }
  assert (activations s = []) as Hacts.
  { destruct (activations s); [done |].
    assert (false = true) by (by apply Hflag). done. }
  rewrite (Hidle Hacts) in Hpq. cbn [app] in Hpq.
  rewrite bool_decide_eq_false_2 in Hpq by done.
  cbn [run_loop document set_isProcessingQueue] in Hpq.
  cbn [tweet document set_analysisQueue set_tag set_elements] in Hpq.
  rewrite bool_decide_eq_true_2 in Hpq by done.
  simplify_eq. cbn. rewrite Hacts. cbn. by split_and!.
Qed.

Lemma scan_shifted tweets s s' ev :
  well_formed s -> (forall t, t ∈ tweets -> t ∈ document s) ->
  scan tweets s = (s', ev) ->
  document s' = document s /\
  (forall it, it ∈ shifted ev -> it ∈ in_flight s').
Proof.
  revert s s' ev. induction tweets as [| t tweets IH]; intros s s' ev Hwf Hd H.
  - cbn in H. simplify_eq. split; [done |].
    intros it Hit. by apply elem_of_nil in Hit.
  - cbn [scan] in H.
    destruct (processTweet t s) as [s1 ev1] eqn:H1.
    destruct (scan tweets s1) as [s2 ev2] eqn:H2. simplify_eq.
    pose proof (processTweet_wf _ _ _ _ Hwf H1) as Hwf1.
    apply processTweet_shifted in H1 as (Hd1 & Hs1 & Hf1);
      [| done | apply Hd, elem_of_cons; by left].
    pose proof H2 as H2'.
    apply IH in H2 as (Hd2 & Hs2); [| done |].
    2: { intros u Hu. rewrite Hd1. apply Hd, elem_of_cons. by right. }
    split; [congruence |].
    intros it Hit. rewrite shifted_app in Hit.
    apply elem_of_app in Hit as [Hit | Hit]; [| by apply Hs2].
    assert (shifted ev1 <> []) as Hne.
    { intros Heq. rewrite Heq in Hit. by apply elem_of_nil in Hit. }
    apply scan_guarded in H2' as (_ & Ha & _); [| by apply Hf1].
    unfold in_flight. rewrite Ha. by apply Hs1.
Qed.

End Final.

(** X14. Tags other than 'pending' are final.  In every state the
    system reaches, a tweet tagged 'no-text', 'too-short', 'cached',
    'complete' or 'error' keeps that tag and its badge through whatever
    happens afterwards -- scans, replies, timers, changes of its text,
    its removal from the document and its return -- and no Work Item is
    pushed or shifted for it again. *)
Theorem terminal_tag_final
    (host : Host) (tweets : list (option JsString)) (store : Storage)
    (inputs later : list Input) (s s' : State) (tr tr' : list Event)
    (t : nat) (tag : Tag) :
  run host inputs (initial tweets store) = Some (s, tr) ->
  tag_of t s = Some tag ->
  tag <> Pending ->
  run host later s = Some (s', tr') ->
  tag_of t s' = Some tag /\
  badge_of t s' = badge_of t s /\
  forall item, item ∈ pushed tr' ++ shifted tr' -> tweet item <> t.
Proof.
  intros Hrun Htag Hne Hlater.
  pose proof (run_wf host _ _ _ _ (initial_wf tweets store) Hrun) as Hwf.
  pose proof (terminal_retired t tag s Hwf Htag Hne) as Hret.
  destruct (run_retired host _ _ _ _ _ Hwf Hret Hlater)
    as (_ & [Ht Hb] & Hnever).
  split_and!; [by rewrite Ht | exact Hb | exact Hnever].
Qed.

(** X15. A Work Item that is shifted without being sent -- its tweet was
    out of the document when the loop reached it -- is dropped for good:
    in every state the system reaches, after a step that shifts an item
    and does not leave it in flight, the tweet is tagged 'pending' and
    stays so whatever happens afterwards, even when it returns to the
    document; it keeps the badge it has, and no Work Item is pushed or
    shifted for it again. *)
Theorem passed_over_item_stays_pending
    (host : Host) (tweets : list (option JsString)) (store : Storage)
    (inputs later : list Input) (i : Input) (s s' s'' : State)
    (tr ev tr' : list Event) (item : WorkItem) :
  run host inputs (initial tweets store) = Some (s, tr) ->
  step host i s = Some (s', ev) ->
  item ∈ shifted ev ->
  item ∉ in_flight s' ->
  run host later s' = Some (s'', tr') ->
  tag_of (tweet item) s' = Some Pending /\
  tag_of (tweet item) s'' = Some Pending /\
  badge_of (tweet item) s'' = badge_of (tweet item) s' /\
  forall it, it ∈ pushed tr' ++ shifted tr' -> tweet it <> tweet item.
Proof.
  intros Hrun Hstep Hitem Hnot Hlater.
  pose proof (run_wf host _ _ _ _ (initial_wf tweets store) Hrun) as Hwf.
  pose proof (step_wf host _ _ _ _ Hwf Hstep) as Hwf'.
  assert (tag_of (tweet item) s' = Some Pending /\ retired (tweet item) s')
    as [Htag Hret].
  { pose proof Hwf as [Hs [Hnd Hpend]]. pose proof Hs as (Hlen & _).
    destruct i as [| n d | n | pos txt | u | pos u | u txt];
      cbn [step] in Hstep.
    - injection Hstep as Hscan. exfalso. apply Hnot.
      by apply (scan_shifted (document s) s s' ev Hwf).
    - destruct (activations s !! n) as [[it0 |] |] eqn:Hact; try done.
      destruct (single_activation _ _ _ Hs Hact) as [-> Hacts].
      destruct (deliver host d it0 s) as [[r s1] ev1] eqn:Hd.
      destruct (settle it0 r s1) as [s2 next] eqn:Hset.
      apply deliver_frame in Hd as (He1 & _ & _ & Hq1 & _ & Ha1 & Hev1).
      apply worker_events_quiet in Hev1 as (_ & Hs1 & _).
      pose proof (settle_frame _ _ _ _ _ Hset) as (_ & Hq2 & _ & Ha2 & _).
      assert (waiting s = it0 :: analysisQueue s) as Hw.
      { unfold waiting, in_flight. by rewrite Hacts. }
      rewrite Hw in Hnd, Hpend. cbn in Hnd.
      apply NoDup_cons in Hnd as [Hfirst Hnd].
      destruct next.
      + destruct (run_loop _ _) as [[s3 a] ev3] eqn:Hloop. simplify_eq.
        rewrite shifted_app, Hs1 in Hitem. cbn in Hitem.
        apply (run_loop_passed_over 0 s2 s3 a ev3 item); try done.
        * by rewrite Ha2, Ha1, Hacts.
        * by rewrite Ha2, Ha1.
        * by rewrite Hq2, Hq1.
        * intros it Hit. rewrite Hq2, Hq1 in Hit.
          rewrite <- (Hpend it) by (apply elem_of_cons; by right).
          apply tag_of_elements.
          rewrite (settle_other _ _ _ _ _ _ Hset), He1; [done |].
          intros Heq. apply Hfirst. rewrite <- Heq.
          by apply list_elem_of_fmap_2.
        * intros Hin. apply Hnot. unfold in_flight, replace_activation. cbn.
          pose proof (run_loop_frame _ _ _ _ _ Hloop) as (_ & _ & _ & Ha3 & _).
          rewrite Ha3, Ha2, Ha1, Hacts.
          destruct a as [[] |]; cbn in *; done.
      + simplify_eq. rewrite shifted_app, Hs1 in Hitem. cbn in Hitem.
        by apply elem_of_nil in Hitem.
    - destruct (activations s !! n) as [[it0 |] |] eqn:Hact; try done.
      destruct (single_activation _ _ _ Hs Hact) as [-> Hacts].
      destruct (run_loop _ _) as [[s3 a] ev3] eqn:Hloop. simplify_eq.
      assert (waiting s = analysisQueue s) as Hw.
      { unfold waiting, in_flight. by rewrite Hacts. }
      rewrite Hw in Hnd, Hpend.
      apply (run_loop_passed_over 0 s s3 a ev item); try done.
      intros Hin. apply Hnot. unfold in_flight, replace_activation. cbn.
        pose proof (run_loop_frame _ _ _ _ _ Hloop) as (_ & _ & _ & Ha3 & _).
        rewrite Ha3, Hacts. destruct a as [[] |]; cbn in *; done.
    - simplify_eq. by apply elem_of_nil in Hitem.
    - simplify_eq. by apply elem_of_nil in Hitem.
    - case_match; simplify_eq. by apply elem_of_nil in Hitem.
    - simplify_eq. by apply elem_of_nil in Hitem. }
  destruct (run_retired host _ _ _ _ _ Hwf' Hret Hlater)
    as (_ & [Ht Hb] & Hnever).
  split_and!; [exact Htag | by rewrite Ht | exact Hb | exact Hnever].
Qed.

(** ** Traffic: what is sent and fetched comes from the queue *)

Ltac unfold_monad :=
  unfold bind, try_catch, emit, lift, throw, ret, get_state, put_state in *.

Section Traffic.

Context (host : Host).


Lemma fetches_app ev1 ev2 : fetches (ev1 ++ ev2) = fetches ev1 ++ fetches ev2.
Proof. apply omap_app. Qed.






(** The service worker calls the API for the text it is asked about,
    and at most once. *)
Lemma handleAnalyzePost_fetches env postText w c w' ev :
  handleAnalyzePost host env postText w = (c, w', ev) ->
  fetches ev `sublist_of` [postText].
Proof.
  unfold handleAnalyzePost, getSettings. unfold_monad. intros H.
  assert (@nil JsString `sublist_of` [postText]) as Hnil
    by apply sublist_nil_l.
  destruct (settings_read env); simplify_eq/=; [done |].
  destruct (bool_decide (stored_enabled (storage w) = Some false));
    simplify_eq/=; [done |].
  destruct (bool_decide (default [] (stored_apiKey (storage w)) = []));
    simplify_eq/=; [done |].
  unfold set_lastRequestTime in H. unfold_monad.
  set (wait := if _ <? MIN_REQUEST_INTERVAL then _ else _) in H.
  assert (exists evw, wait w = (Return (), w, evw) /\ fetches evw = [])
    as (evw & Hwait & Hevw).
  { subst wait. destruct (_ <? _); eexists; split; reflexivity. }
  rewrite Hwait in H. cbn [storage lastRequestTime] in H.
  destruct (analyzeWithOpenAI _ _ _ _ _) as [[[r | e] w1] ev1] eqn:Han;
    apply analyzeWithOpenAI_frame in Han as [-> ->].
  2: { simplify_eq/=. rewrite !fetches_app, Hevw. done. }
  unfold updateStats, getStats, set_stats in H. unfold_monad.
  destruct (stats_read env); simplify_eq/=;
    [rewrite !fetches_app, Hevw; done |].
  destruct (stats_write env); simplify_eq/=; rewrite !fetches_app, Hevw; done.
Qed.




End Traffic.


(** ** Badges follow tags *)

Section Badges.

Context (host : Host).

Lemma shows_other fl fl' t el :
  (t ∈ fl' <-> t ∈ fl) -> shows fl t el -> shows fl' t el.
Proof.
  intros Hiff. unfold shows.
  destruct (slopAnalyzed el) as [[] |]; try done.
  intros ->. by rewrite (bool_decide_ext _ _ Hiff).
Qed.

Lemma run_loop_rendered queue s s' a ev :
  (forall t el, elements s !! t = Some el -> shows [] t el) ->
  (forall item, item ∈ queue -> tag_of (tweet item) s = Some Pending) ->
  run_loop queue s = (s', a, ev) ->
  forall t el, elements s' !! t = Some el -> shows (tweet <$> item_of a) t el.
Proof.
  revert s' a ev. induction queue as [| item queue IH];
    intros s' a ev Hshow Hpend H.
  - cbn in H. simplify_eq. exact Hshow.
  - cbn [run_loop] in H. case_bool_decide as Hin.
    + simplify_eq. intros t el Hel. cbn [item_of fmap list_fmap].
      unfold injectLoadingBadge, removeBadge in Hel.
      destruct (decide (tweet item = t)) as [<- | Hne].
      * rewrite set_badge_same, set_badge_same in Hel.
        change (elements (set_analysisQueue queue s)) with (elements s) in Hel.
        assert (tag_of (tweet item) s = Some Pending) as Htag
          by (apply Hpend, elem_of_cons; by left).
        unfold tag_of in Htag.
        destruct (elements s !! tweet item) as [el0 |]; [| done].
        cbn in Htag, Hel. simplify_eq. unfold shows. cbn. rewrite Htag.
        rewrite bool_decide_eq_true_2; [done |].
        apply list_elem_of_singleton. done.
      * rewrite !set_badge_other in Hel by done.
        eapply shows_other; [| by apply Hshow].
        split; intros Hx.
        -- apply list_elem_of_singleton in Hx. by destruct Hne.
        -- by apply elem_of_nil in Hx.
    + destruct (run_loop queue s) as [[s1 a1] ev1] eqn:Hl. simplify_eq.
      eapply IH; [done | | done].
      intros it Hit. apply Hpend, elem_of_cons. by right.
Qed.

Lemma processQueue_rendered p s' ev :
  (isProcessingQueue p = true <-> activations p <> []) ->
  (activations p = [] ->
   forall item, item ∈ analysisQueue p ->
     tag_of (tweet item) p = Some Pending) ->
  rendered p -> processQueue p = (s', ev) -> rendered s'.
Proof.
  intros Hflag Hpend Hr. unfold processQueue.
  destruct (isProcessingQueue p) eqn:Hf; cbn [orb].
  { intros ?. by simplify_eq. }
  case_bool_decide; [intros ?; by simplify_eq |].
  destruct (run_loop _ _) as [[s1 a] ev1] eqn:Hl. intros ?. simplify_eq.
  assert (activations p = []) as Hacts.
  { destruct (activations p); [done |].
    assert (false = true) by (by apply Hflag). done. }
  pose proof (run_loop_frame _ _ _ _ _ Hl) as (_ & _ & _ & Ha & _).
  cbn in Ha. intros t el Hel.
  change (elements (set_activations ?l s1)) with (elements s1) in Hel.
  unfold in_flight. cbn. rewrite Ha, Hacts. cbn.
  rewrite in_flight_option_list.
  apply (fun Hs Hp => run_loop_rendered _ _ _ _ _ Hs Hp Hl); [| | done].
  - intros u el0 Hel0. cbn in Hel0. specialize (Hr u el0 Hel0).
    unfold in_flight in Hr. by rewrite Hacts in Hr.
  - intros it Hit.
    change (tag_of (tweet it) (set_isProcessingQueue true p))
      with (tag_of (tweet it) p).
    by apply Hpend.
Qed.

(** Updating the element of one tweet: the other tweets show what they
    showed. *)
Lemma rendered_update u s s' :
  in_flight s' = in_flight s ->
  (forall t, t <> u -> elements s' !! t = elements s !! t) ->
  (forall el, elements s' !! u = Some el ->
     shows (tweet <$> in_flight s) u el) ->
  rendered s -> rendered s'.
Proof.
  intros Hin Hother Hu Hr t el Hel. rewrite Hin.
  destruct (decide (t = u)) as [-> | Hne]; [by apply Hu |].
  apply Hr. by rewrite <- Hother.
Qed.

Lemma processTweet_rendered t s s' ev :
  well_formed s -> cache_clean s -> rendered s ->
  processTweet t s = (s', ev) -> rendered s'.
Proof.
  intros [(Hlen & Hflag & Hidle) Hpend] Hclean Hr. unfold processTweet.
  destruct (elements s !! t) as [el |] eqn:Hel;
    [| intros Hrun; by simplify_eq].
  case_bool_decide as Htag; [intros Hrun; by simplify_eq |].
  assert (slopAnalyzed el = None) as Hnone.
  { destruct (slopAnalyzed el); [| done]. destruct Htag. by eexists. }
  assert (badge el = None) as Hbadge.
  { specialize (Hr t el Hel). unfold shows in Hr. by rewrite Hnone in Hr. }
  assert (t ∉ tweet <$> in_flight s) as Hfly.
  { intros Hin. apply list_elem_of_fmap in Hin as (it & -> & Hit).
    eapply (untagged_not_waiting (tweet it) el s Hpend Hel Hnone it);
      [| done].
    unfold waiting. apply elem_of_app. by left. }
  destruct (tweetText el) as [innerText |].
  2: { intros Hrun. simplify_eq.
       apply (rendered_update t s); [done | | | done].
       - intros u Hu. by rewrite !set_tag_other.
       - intros el'. rewrite !set_tag_same, Hel. cbn. intros [= <-].
         unfold shows. by cbn. }
  destruct (_ <? _).
  { intros Hrun. simplify_eq.
    apply (rendered_update t s); [done | | | done].
    - intros u Hu. by rewrite !set_tag_other.
    - intros el'. rewrite !set_tag_same, Hel. cbn. intros [= <-].
      unfold shows. by cbn. }
  destruct (analyzedPosts _ !! _) as [cached |] eqn:Hcache.
  { intros Hrun. simplify_eq.
    apply (rendered_update t s); [done | | | done].
    - intros u Hu. unfold injectBadge, removeBadge.
      by rewrite set_tag_other, !set_badge_other, set_tag_other.
    - intros el'. unfold injectBadge, removeBadge.
      rewrite set_tag_same, !set_badge_same, set_tag_same, Hel. cbn.
      intros [= <-]. unfold shows. cbn. eexists. split; [done |].
      by eapply Hclean. }
  destruct (processQueue _) as [s1 ev1] eqn:Hpq. intros Hrun. simplify_eq.
  eapply processQueue_rendered; [| | | exact Hpq].
  - done.
  - intros Hacts item Hitem. cbn in Hacts, Hitem.
    rewrite (Hidle Hacts) in Hitem. apply list_elem_of_singleton in Hitem.
    subst item. cbn [tweet].
    change (tag_of t (set_analysisQueue ?q ?s0)) with (tag_of t s0).
    apply tag_of_set_tag. by eexists.
  - apply (rendered_update t s); [done | | | done].
    + intros u Hu.
      change (elements (set_analysisQueue ?q ?s0)) with (elements s0).
      by rewrite set_tag_other.
    + intros el'.
      change (elements (set_analysisQueue ?q ?s0)) with (elements s0).
      rewrite set_tag_same, Hel. cbn. intros [= <-].
      unfold shows. cbn. by rewrite bool_decide_eq_false_2.
Qed.

Lemma scan_rendered tweets s s' ev :
  well_formed s -> cache_clean s -> rendered s ->
  scan tweets s = (s', ev) -> rendered s'.
Proof.
  revert s s' ev. induction tweets as [| t tweets IH];
    intros s s' ev Hwf Hc Hr H.
  - cbn in H. by simplify_eq.
  - cbn [scan] in H.
    destruct (processTweet t s) as [s1 ev1] eqn:H1.
    destruct (scan tweets s1) as [s2 ev2] eqn:H2. simplify_eq.
    eapply IH; [| | | exact H2].
    + by eapply processTweet_wf.
    + intros k r. rewrite (processTweet_cache _ _ _ _ H1). apply Hc.
    + by eapply processTweet_rendered.
Qed.

(** When the message of an item settles, its tweet gets the badge of
    its new tag, and only a response without error enters the cache. *)
Lemma settle_rendered item r s s' next :
  (forall t el, elements s !! t = Some el -> shows [tweet item] t el) ->
  cache_clean s ->
  (forall result, r = Resolved result -> has_error result = false ->
                  presentable result) ->
  settle item r s = (s', next) ->
  (forall t el, elements s' !! t = Some el -> shows [] t el) /\
  cache_clean s'.
Proof.
  intros Hr Hc Hgood Hset.
  assert (forall t el, t <> tweet item -> elements s !! t = Some el ->
            shows [] t el) as Hother.
  { intros t el Hne Hel. eapply shows_other; [| by apply Hr].
    split; intros Hx; [by apply elem_of_nil in Hx |].
    by apply list_elem_of_singleton in Hx. }
  assert (forall s0, elements s0 = elements s ->
    forall t el,
      elements (set_tag (tweet item) Error (removeBadge (tweet item) s0)) !! t
      = Some el -> shows [] t el) as Herr.
  { intros s0 Hs0 t el. unfold removeBadge.
    destruct (decide (t = tweet item)) as [-> | Hne].
    - rewrite set_tag_same, set_badge_same. intros Hel.
      destruct (elements s0 !! tweet item); cbn in Hel; [| done].
      simplify_eq. unfold shows. by cbn.
    - rewrite set_tag_other, set_badge_other, Hs0 by done. by apply Hother. }
  unfold settle in Hset. destruct r as [result | message].
  - destruct (has_error result) eqn:Herror.
    + simplify_eq. split; [by apply Herr | done].
    + simplify_eq. split.
      * intros t el. unfold injectBadge, removeBadge.
        destruct (decide (t = tweet item)) as [-> | Hne].
        -- rewrite set_tag_same, !set_badge_same. intros Hel.
           cbn in Hel.
           destruct (elements s !! tweet item); cbn in Hel; [| done].
           simplify_eq. unfold shows. cbn. eexists. split; [done |].
           by apply Hgood.
        -- rewrite set_tag_other, !set_badge_other by done. by apply Hother.
      * intros k r. cbn. rewrite lookup_insert.
        case_decide; [intros ?; simplify_eq; by apply Hgood | apply Hc].
  - simplify_eq. split; [by apply Herr | done].
Qed.

(** The service worker answers with a presentable response or with one
    that fails the check of its error. *)
Lemma deliver_presentable d item s result s1 ev :
  deliver host d item s = (Resolved result, s1, ev) ->
  has_error result = false -> presentable result.
Proof.
  unfold deliver. destruct d as [message | env]; [done |].
  destruct (handleAnalyzePost _ _ _ _) as [[[res | e] w1] evh] eqn:Hh;
    intros ? Herr; simplify_eq.
  destruct result as [likelihood reason | error].
  - apply handleAnalyzePost_analysis in Hh as (L & -> & HL & _).
    by exists L.
  - cbn in Herr. apply negb_false_iff, bool_decide_eq_true in Herr. done.
Qed.

Lemma step_rendered i s s' ev :
  well_formed s -> rendered s /\ cache_clean s ->
  step host i s = Some (s', ev) -> rendered s' /\ cache_clean s'.
Proof.
  intros Hwf [Hr Hc]. pose proof Hwf as [Hs [Hnd Hpend]].
  destruct i as [| n d | n | pos txt | t | pos t | t txt]; cbn [step].
  - intros [= Hscan]. split; [by eapply scan_rendered |].
    intros k r. rewrite (scan_cache _ _ _ _ Hscan). apply Hc.
  - destruct (activations s !! n) as [[item |] |] eqn:Hact; try done.
    destruct (single_activation _ _ _ Hs Hact) as [-> Hacts].
    destruct (deliver host d item s) as [[r s1] ev1] eqn:Hd.
    destruct (settle item r s1) as [s2 next] eqn:Hset.
    pose proof (settle_frame _ _ _ _ _ Hset) as (_ & Hq2 & _ & Ha2 & _).
    assert (waiting s = item :: analysisQueue s) as Hw.
    { unfold waiting, in_flight. by rewrite Hacts. }
    rewrite Hw in Hnd, Hpend. cbn in Hnd.
    apply NoDup_cons in Hnd as [Hfirst Hnd].
    assert (forall result, r = Resolved result -> has_error result = false ->
              presentable result) as Hgood.
    { intros result ->. by eapply deliver_presentable. }
    apply deliver_frame in Hd as (He1 & _ & Hc1 & Hq1 & _ & Ha1 & _).
    pose proof Hset as Hset'.
    apply settle_rendered in Hset' as [Hr2 Hc2].
    2: { intros t el. rewrite He1. intros Hel. specialize (Hr t el Hel).
         unfold in_flight in Hr. by rewrite Hacts in Hr. }
    2: { intros k res. rewrite Hc1. apply Hc. }
    2: { exact Hgood. }
    destruct next.
    + destruct (run_loop _ _) as [[s3 a] ev3] eqn:Hloop. intros ?. simplify_eq.
      pose proof (run_loop_frame _ _ _ _ _ Hloop)
        as (_ & Hc3 & _ & Ha3 & _).
      split.
      * intros t el Hel.
        assert (in_flight (replace_activation 0 a s3) = item_of a) as ->.
        { unfold in_flight, replace_activation. cbn.
          rewrite Ha3, Ha2, Ha1, Hacts. by destruct a as [[] |]. }
        apply (fun Hs Hp => run_loop_rendered _ _ _ _ _ Hs Hp Hloop);
          [exact Hr2 | | exact Hel].
        intros it Hit. rewrite Hq2, Hq1 in Hit.
        rewrite <- (Hpend it) by (apply elem_of_cons; by right).
        apply tag_of_elements.
        rewrite (settle_other _ _ _ _ _ _ Hset), He1; [done |].
        intros Heq. apply Hfirst. rewrite <- Heq.
        by apply list_elem_of_fmap_2.
      * intros k res. cbn. rewrite Hc3. apply Hc2.
    + intros ?. simplify_eq. split; [| exact Hc2].
      intros t el Hel.
      assert (in_flight (replace_activation 0 (Some AwaitDelay) s2) = [])
        as ->.
      { unfold in_flight, replace_activation. cbn.
        by rewrite Ha2, Ha1, Hacts. }
      by apply Hr2.
  - destruct (activations s !! n) as [[item |] |] eqn:Hact; try done.
    destruct (single_activation _ _ _ Hs Hact) as [-> Hacts].
    destruct (run_loop _ _) as [[s3 a] ev3] eqn:Hloop. intros ?. simplify_eq.
    pose proof (run_loop_frame _ _ _ _ _ Hloop) as (_ & Hc3 & _ & Ha3 & _).
    split.
    + intros t el Hel.
      assert (in_flight (replace_activation 0 a s3) = item_of a) as ->.
      { unfold in_flight, replace_activation. cbn.
        rewrite Ha3, Hacts. by destruct a as [[] |]. }
      apply (fun Hs Hp => run_loop_rendered _ _ _ _ _ Hs Hp Hloop);
        [| | exact Hel].
      * intros u el0 Hel0. specialize (Hr u el0 Hel0).
        unfold in_flight in Hr. by rewrite Hacts in Hr.
      * intros it Hit. apply Hpend. unfold waiting.
        apply elem_of_app. by right.
    + intros k res. cbn. rewrite Hc3. apply Hc.
  - intros ?. simplify_eq. split; [| exact Hc].
    intros t el. cbn. intros Hel.
    change (in_flight (set_document ?d (set_elements ?e s)))
      with (in_flight s).
    apply lookup_app_Some in Hel as [Hel | [_ Hel]]; [by apply Hr |].
    apply list_lookup_singleton_Some in Hel as [_ <-]. unfold shows. by cbn.
  - intros ?. by simplify_eq.
  - case_match; intros ?; by simplify_eq.
  - intros ?. simplify_eq. split; [| exact Hc].
    intros u el. unfold set_text. cbn. intros Hel.
    change (in_flight (set_elements ?e s)) with (in_flight s).
    destruct (decide (t = u)) as [-> | Hne].
    + rewrite list_lookup_alter_eq in Hel.
      destruct (elements s !! u) as [el0 |] eqn:Hel0; cbn in Hel; [| done].
      simplify_eq. specialize (Hr u el0 Hel0). unfold shows in *. by cbn.
    + rewrite list_lookup_alter_ne in Hel by done. by apply Hr.
Qed.

Lemma run_rendered inputs s s' ev :
  well_formed s -> rendered s /\ cache_clean s ->
  run host inputs s = Some (s', ev) -> rendered s' /\ cache_clean s'.
Proof.
  revert s s' ev. induction inputs as [| i inputs IH]; intros s s' ev Hwf Hr H.
  - cbn in H. by simplify_eq.
  - cbn [run] in H.
    destruct (step host i s) as [[s1 ev1] |] eqn:H1; [| done].
    destruct (run host inputs s1) as [[s2 ev2] |] eqn:H2; [| done].
    simplify_eq. eapply IH; [| | exact H2].
    + by eapply step_wf.
    + by eapply step_rendered.
Qed.

End Badges.

Lemma initial_rendered tweets store :
  rendered (initial tweets store) /\ cache_clean (initial tweets store).
Proof.
  split.
  - intros t el Hel. unfold initial in Hel. cbn [elements] in Hel.
    rewrite list_lookup_fmap in Hel.
    destruct (tweets !! t); cbn in Hel; [| done].
    simplify_eq. unfold shows. by cbn.
  - intros k r Hk. cbn in Hk. by rewrite lookup_empty in Hk.
Qed.



(** ** The rate limit of the service worker *)

Section RateLimit.

Context (host : Host).

(** Without settings to work with -- the read fails, the extension is
    disabled or no key is stored -- the request leaves the service
    worker as it was and makes no call to the API. *)
Lemma handleAnalyzePost_refused env postText w c w' ev :
  (is_Some (settings_read env) \/ stored_enabled (storage w) = Some false \/
   default [] (stored_apiKey (storage w)) = []) ->
  handleAnalyzePost host env postText w = (c, w', ev) ->
  w' = w /\ fetches ev = [].
Proof.
  intros Hcase. unfold handleAnalyzePost, getSettings. unfold_monad. intros H.
  destruct (settings_read env) as [fault |] eqn:Hread;
    simplify_eq/=; [done |].
  destruct (bool_decide (stored_enabled (storage w) = Some false)) eqn:Hon;
    simplify_eq/=; [done |].
  destruct (bool_decide (default [] (stored_apiKey (storage w)) = []))
    eqn:Hkey; simplify_eq/=; [done |].
  apply bool_decide_eq_false in Hon, Hkey.
  destruct Hcase as [[? ?] | [? | ?]]; done.
Qed.

End RateLimit.

(** X18. The rate limit.  A request either makes no call to the API and
    leaves the time stamp of the last request as it was, or makes one
    call, for its text, and renews the stamp.  Provided the timer the
    service worker awaits lasts at least its delay and the clock does
    not run backwards, the new stamp is at least [MIN_REQUEST_INTERVAL]
    (1000 ms) after the previous one. *)
Theorem rate_limit_spaces_requests
    (host : Host) (env : Env) (postText : JsString) (w w' : Background)
    (c : completion Response) (ev : list Event) :
  handleAnalyzePost host env postText w = (c, w', ev) ->
  (forall ms, ETimeout ms ∈ ev -> now_first env + ms <= now_second env) ->
  now_first env <= now_second env ->
  (fetches ev = [] /\ lastRequestTime w' = lastRequestTime w) \/
  (fetches ev = [postText] /\
   lastRequestTime w' = now_second env /\
   lastRequestTime w + MIN_REQUEST_INTERVAL <= lastRequestTime w').
Proof.
  intros Hrun Htimer Hclock.
  destruct (settings_read env) as [fault |] eqn:Hread.
  { left. eapply handleAnalyzePost_refused in Hrun as [-> ->]; [done |].
    left. rewrite Hread. by eexists. }
  destruct (decide (stored_enabled (storage w) = Some false)) as [Hoff | Hon].
  { left. eapply handleAnalyzePost_refused in Hrun as [-> ->]; [done |].
    right. by left. }
  destruct (decide (default [] (stored_apiKey (storage w)) = []))
    as [Hnone | Hkey].
  { left. eapply handleAnalyzePost_refused in Hrun as [-> ->]; [done |].
    right. by right. }
  right.
  pose proof (handleAnalyzePost_fetches host _ _ _ _ _ _ Hrun) as Hsub.
  destruct (handleAnalyzePost_rate_limit host env postText w Hread Hon Hkey)
    as (c0 & w0 & ev0 & Heq & Hstamp).
  rewrite Hrun in Heq. injection Heq as -> -> ->.
  match type of Hsub with fetches ?l `sublist_of` _ =>
    assert (fetches l = postText :: fetches ev0) as Hshape
      by (destruct (_ <? _); reflexivity)
  end.
  rewrite Hshape in Hsub. rewrite Hshape.
  assert (fetches ev0 = []) as Hrest.
  { apply sublist_length in Hsub. destruct (fetches ev0); [done |].
    cbn [length] in Hsub. lia. }
  split_and!.
  - by rewrite Hrest.
  - exact Hstamp.
  - rewrite Hstamp. unfold MIN_REQUEST_INTERVAL in *.
    destruct (now_first env - lastRequestTime w <? 1000) eqn:Hlt.
    + specialize (Htimer (1000 - (now_first env - lastRequestTime w))).
      assert (ETimeout (1000 - (now_first env - lastRequestTime w))
                ∈ EStorageGet [lit "apiKey"; lit "enabled"]
                  :: [ETimeout (1000 - (now_first env - lastRequestTime w))]
                  ++ EFetch postText
                       (default [] (stored_apiKey (storage w))) :: ev0)
        as Hin.
      { apply elem_of_cons. right. apply elem_of_cons. by left. }
      specialize (Htimer Hin). lia.
    + apply Z.ltb_ge in Hlt. lia.
Qed.

(** ** A scan leaves nothing for the next one *)

Section Scans.

Lemma marked_set_tag t u tag s : marked u s -> marked u (set_tag t tag s).
Proof.
  unfold marked. destruct (decide (t = u)) as [-> | Hne].
  - rewrite set_tag_same. by destruct (elements s !! u).
  - by rewrite set_tag_other.
Qed.

Lemma marked_set_tag_same t tag s : marked t (set_tag t tag s).
Proof.
  unfold marked. rewrite set_tag_same. by destruct (elements s !! t).
Qed.

Lemma marked_set_badge t u b s : marked u s -> marked u (set_badge t b s).
Proof. unfold marked. by rewrite set_badge_tag. Qed.

Lemma processQueue_marked p s' ev u :
  processQueue p = (s', ev) -> marked u p -> marked u s'.
Proof.
  unfold processQueue. destruct (_ || _); [intros ?; by simplify_eq |].
  destruct (run_loop _ _) as [[s1 a] ev1] eqn:Hl. intros ?. simplify_eq.
  apply run_loop_frame in Hl as (_ & _ & _ & _ & _ & _ & Htags & _).
  unfold marked.
  change (elements (set_activations ?l s1)) with (elements s1).
  by rewrite Htags.
Qed.

Lemma processTweet_marked t s s' ev :
  processTweet t s = (s', ev) ->
  marked t s' /\ forall u, marked u s -> marked u s'.
Proof.
  unfold processTweet.
  destruct (elements s !! t) as [el |] eqn:Hel.
  2: { intros ?. simplify_eq. split; [| done]. unfold marked. by rewrite Hel. }
  case_bool_decide as Htag.
  { intros ?. simplify_eq. split; [| done]. unfold marked. rewrite Hel. cbn.
    destruct Htag as [tag ->]. done. }
  destruct (tweetText el) as [innerText |].
  2: { intros ?. simplify_eq. split; [apply marked_set_tag_same |].
       intros u Hu. by do 2 apply marked_set_tag. }
  destruct (_ <? _).
  { intros ?. simplify_eq. split; [apply marked_set_tag_same |].
    intros u Hu. by do 2 apply marked_set_tag. }
  destruct (analyzedPosts _ !! _) as [cached |].
  { intros ?. simplify_eq. split; [apply marked_set_tag_same |].
    intros u Hu. unfold injectBadge, removeBadge.
    by apply marked_set_tag, marked_set_badge, marked_set_badge,
      marked_set_tag. }
  destruct (processQueue _) as [s1 ev1] eqn:Hpq. intros ?. simplify_eq.
  split.
  - eapply processQueue_marked; [exact Hpq |]. apply marked_set_tag_same.
  - intros u Hu. eapply processQueue_marked; [exact Hpq |].
    by apply (marked_set_tag t u Pending s).
Qed.

Lemma processTweet_quiet t s : marked t s -> processTweet t s = (s, []).
Proof.
  unfold marked, processTweet. destruct (elements s !! t) as [el |]; [| done].
  cbn. intros Hm. rewrite bool_decide_eq_true_2; [done |].
  destruct (slopAnalyzed el); [by eexists | done].
Qed.

Lemma scan_marked tweets s s' ev :
  scan tweets s = (s', ev) ->
  (forall t, t ∈ tweets -> marked t s') /\
  (forall u, marked u s -> marked u s') /\
  document s' = document s.
Proof.
  revert s s' ev. induction tweets as [| t tweets IH]; intros s s' ev H.
  - cbn in H. simplify_eq. split_and!; [| done | done].
    intros t Ht. by apply elem_of_nil in Ht.
  - cbn [scan] in H.
    destruct (processTweet t s) as [s1 ev1] eqn:H1.
    destruct (scan tweets s1) as [s2 ev2] eqn:H2. simplify_eq.
    pose proof (processTweet_marked _ _ _ _ H1) as [Ht Hkeep1].
    assert (document s1 = document s) as Hd1.
    { clear -H1. unfold processTweet in H1.
      repeat case_match; simplify_eq; try done.
      match goal with H : processQueue _ = _ |- _ =>
        by apply processQueue_frame in H as (-> & _) end. }
    apply IH in H2 as (Hall & Hkeep2 & Hd2).
    split_and!; [| by auto | congruence].
    intros u Hu. apply elem_of_cons in Hu as [-> | Hu]; [| by apply Hall].
    by apply Hkeep2.
Qed.

Lemma scan_quiet tweets s :
  (forall t, t ∈ tweets -> marked t s) -> scan tweets s = (s, []).
Proof.
  induction tweets as [| t tweets IH]; intros Hall; [done |].
  cbn [scan]. rewrite processTweet_quiet by (apply Hall, elem_of_cons; by left).
  rewrite IH; [done |]. intros u Hu. apply Hall, elem_of_cons. by right.
Qed.

End Scans.

(** X19. A scan leaves nothing for the next one.  After [processTweets]
    every tweet article of the document carries a tag, so that a second
    call right after it changes nothing and makes no call: each tweet is
    considered once, by the first scan that finds it. *)
Theorem processTweets_idempotent (s s' : State) (ev : list Event) :
  processTweets s = (s', ev) ->
  (forall t el, t ∈ document s' -> elements s' !! t = Some el ->
                is_Some (slopAnalyzed el)) /\
  processTweets s' = (s', []).
Proof.
  unfold processTweets. intros Hscan.
  apply scan_marked in Hscan as (Hall & _ & Hdoc).
  rewrite Hdoc. split.
  - intros t el Ht Hel. specialize (Hall t Ht). unfold marked in Hall.
    rewrite Hel in Hall. cbn in Hall.
    destruct (slopAnalyzed el); [by eexists | done].
  - by apply scan_quiet.
Qed.

(** ** The feed observer debounces *)

Section WatcherFacts.

Import Watcher.

Lemma filter_handle_all (h : nat) (l : list Timer) :
  (forall t, t ∈ l -> handle t = h) ->
  filter (fun t => handle t <> h) l = [].
Proof.
  induction l as [| t l IH]; intros Hall; [done |].
  rewrite filter_cons.
  rewrite decide_False
    by (intros Hne; apply Hne, Hall, elem_of_cons; by left).
  apply IH. intros t' Ht'. apply Hall, elem_of_cons. by right.
Qed.

Lemma clearTimeout_all w seen :
  debounced seen w -> clearTimeout (timeout w) (timers w) = [].
Proof.
  intros [_ Hinv]. unfold clearTimeout.
  destruct (timeout w) as [h |] eqn:Hh.
  - apply filter_handle_all. intros t Ht.
    destruct (Hinv t Ht) as [Heq _]. congruence.
  - destruct (timers w) as [| t l]; [done |].
    destruct (Hinv t) as [Ht _]; [apply elem_of_cons; by left |]. done.
Qed.

Lemma content_times_app l1 l2 :
  content_times (l1 ++ l2) = content_times l1 ++ content_times l2.
Proof. apply omap_app. Qed.

Lemma content_times_mutations now mutations :
  content_times [Mutations now mutations]
  = if hasNewContent mutations then [now] else [].
Proof. unfold content_times. cbn. by destruct (hasNewContent mutations). Qed.

Lemma callback_debounced now mutations w seen :
  debounced seen w ->
  (forall T0, T0 ∈ seen -> T0 <= now) ->
  debounced (seen ++ content_times [Mutations now mutations])
    (callback now mutations w).
Proof.
  intros Hinv Hle. unfold callback. rewrite content_times_mutations.
  destruct (hasNewContent mutations).
  - rewrite (clearTimeout_all w seen Hinv). cbn. split; [done |].
    intros t Ht. apply list_elem_of_singleton in Ht as ->. cbn.
    split; [done |]. intros T0 HT0.
    apply elem_of_app in HT0 as [HT0 | HT0].
    + specialize (Hle T0 HT0). unfold DEBOUNCE. lia.
    + apply list_elem_of_singleton in HT0 as ->. lia.
  - cbn. by rewrite app_nil_r.
Qed.

Lemma step_debounced i w w' seen :
  debounced seen w ->
  (forall T0, T0 ∈ seen -> T0 <= time i) ->
  step i w = Some w' ->
  debounced (seen ++ content_times [i]) w'.
Proof.
  intros Hinv Hle. destruct i as [now mutations | now h]; cbn [step].
  - intros [= <-]. by apply callback_debounced.
  - destruct (find _ _) as [t |]; [| done].
    destruct (_ <=? _); [| done]. intros [= <-].
    change (content_times [Fire now h]) with (@nil Z).
    rewrite app_nil_r. destruct Hinv as [Hlen Hinv]. split.
    + cbn. etrans; [apply length_filter | exact Hlen].
    + intros t' Ht'. cbn in Ht'. apply list_elem_of_filter in Ht' as [_ Ht'].
      cbn. by apply Hinv.
Qed.

Lemma run_debounced inputs w w' seen :
  debounced seen w ->
  ascending (time <$> inputs) ->
  (forall T0 i, T0 ∈ seen -> i ∈ inputs -> T0 <= time i) ->
  run inputs w = Some w' ->
  debounced (seen ++ content_times inputs) w'.
Proof.
  revert w seen. induction inputs as [| i inputs IH];
    intros w seen Hinv Hsorted Hle Hrun.
  - cbn in Hrun. simplify_eq. by rewrite app_nil_r.
  - cbn [run] in Hrun. destruct (step i w) as [w1 |] eqn:Hstep; [| done].
    rewrite fmap_cons in Hsorted. destruct Hsorted as [Hfirst Hsorted].
    change (i :: inputs) with ([i] ++ inputs).
    rewrite content_times_app, app_assoc.
    apply (IH w1); [| done | | done].
    + apply step_debounced with (w := w); [done | | done].
      intros T0 HT0. apply Hle; [done | apply elem_of_cons; by left].
    + intros T0 j HT0 Hj. apply elem_of_app in HT0 as [HT0 | HT0].
      * apply Hle; [done | apply elem_of_cons; by right].
      * rewrite Forall_forall in Hfirst.
        assert (T0 = time i) as ->.
        { destruct i as [now m | now h].
          - rewrite content_times_mutations in HT0.
            destruct (hasNewContent m);
              [by apply list_elem_of_singleton in HT0 |
               by apply elem_of_nil in HT0].
          - by apply elem_of_nil in HT0. }
        apply Hfirst. by apply list_elem_of_fmap_2.
Qed.

Lemma initial_debounced : debounced [] initial.
Proof.
  split; [cbn; lia |]. intros t Ht. by apply elem_of_nil in Ht.
Qed.

End WatcherFacts.

(** X20. The feed observer debounces.  While batches of mutation records
    arrive in the order of their times, at most one timer for
    [processTweets] is pending, and a timer that fires does so at least
    200 ms after every batch that brought new nodes: [processTweets] is
    not called while the page keeps adding content. *)
Theorem observeFeed_debounces
    (inputs : list Watcher.Input) (w w' : Watcher.State) (now : Z) (h : nat) :
  Watcher.ascending (Watcher.time <$> inputs) ->
  Watcher.run inputs Watcher.initial = Some w ->
  (length (Watcher.timers w) <= 1)%nat /\
  (Watcher.step (Watcher.Fire now h) w = Some w' ->
   Watcher.timers w' = [] /\
   forall T0, T0 ∈ Watcher.content_times inputs ->
              T0 + Watcher.DEBOUNCE <= now).
Proof.
  intros Hsorted Hrun.
  destruct (run_debounced inputs Watcher.initial w [] initial_debounced
              Hsorted) as [Hlen Hinv]; [| exact Hrun |].
  { intros T0 i HT0. by apply elem_of_nil in HT0. }
  cbn [app] in Hinv. split; [exact Hlen |].
  cbn [Watcher.step]. intros Hfire.
  destruct (find _ _) as [t |] eqn:Hfind; [| done].
  destruct (Watcher.deadline t <=? now) eqn:Hdl; [| done].
  injection Hfire as <-. apply Z.leb_le in Hdl.
  apply find_some in Hfind as [Ht Hh].
  apply bool_decide_eq_true in Hh. apply list_elem_of_In in Ht.
  destruct (Hinv t Ht) as [Hto Hseen]. split.
  - cbn. apply filter_handle_all. intros t' Ht'.
    destruct (Hinv t' Ht') as [Hto' _]. congruence.
  - intros T0 HT0. specialize (Hseen T0 HT0). lia.
Qed.

(** X21. A verdict, once shown, stays.  When a tweet article shows a
    result badge in a state the system reaches, the article is tagged
    'cached' or 'complete', and whatever happens afterwards it keeps
    that tag and that badge: [removeBadge] never takes a result badge
    away, and no later response replaces it. *)
Theorem result_badge_stays
    (host : Host) (tweets : list (option JsString)) (store : Storage)
    (inputs later : list Input) (s s' : State) (tr tr' : list Event)
    (t : nat) (result : Response) :
  run host inputs (initial tweets store) = Some (s, tr) ->
  badge_of t s = Some (ResultBadge result) ->
  run host later s = Some (s', tr') ->
  (tag_of t s = Some Cached \/ tag_of t s = Some Complete) /\
  tag_of t s' = tag_of t s /\
  badge_of t s' = Some (ResultBadge result).
Proof.
  intros Hrun Hbadge Hlater.
  pose proof (run_wf host _ _ _ _ (initial_wf tweets store) Hrun) as Hwf.
  assert (rendered s /\ cache_clean s) as [Hr _].
  { eapply run_rendered; [apply initial_wf | apply initial_rendered |
                          exact Hrun]. }
  assert (exists tag, tag_of t s = Some tag /\ (tag = Cached \/ tag = Complete))
    as (tag & Htag & Hcase).
  { unfold badge_of in Hbadge. unfold tag_of.
    destruct (elements s !! t) as [el |] eqn:Hel; [| done].
    cbn in Hbadge |- *. specialize (Hr t el Hel). unfold shows in Hr.
    rewrite Hbadge in Hr.
    destruct (slopAnalyzed el) as [[] |]; try done;
      [by case_bool_decide | exists Cached; auto | exists Complete; auto]. }
  assert (retired t s) as Hret.
  { apply (terminal_retired t tag s Hwf Htag). by destruct Hcase as [-> | ->]. }
  destruct (run_retired host _ _ _ _ _ Hwf Hret Hlater) as (_ & [Ht Hb] & _).
  split_and!.
  - destruct Hcase as [-> | ->]; auto.
  - exact Ht.
  - by rewrite Hb.
Qed.

(** ** These properties at work on the sample data *)

Module Instances.

Import Sample Runs Scenes.

(** "Aa" and "BB" have the same polynomial: texts that differ only
    there have the same post id. *)
Lemma hashString_collides_witness :
  hashString (lit "Say " ++ lit "Aa" ++ lit ", twenty units at least")
  = hashString (lit "Say " ++ lit "BB" ++ lit ", twenty units at least").
Proof.
  apply (hashString_collides (lit "Say ") (lit "Aa") (lit "BB")
           (lit ", twenty units at least")); reflexivity.
Defined.

(** HTTP 401 with a body that is not JSON. *)
Lemma analyzeWithOpenAI_non_ok_witness :
  exists message,
    analyzeWithOpenAI host env_401 post_a (lit "sk-test")
      (worker_of store_with_key)
    = (Throw message, worker_of store_with_key,
       [EFetch post_a (lit "sk-test")]) /\
    message = lit "API error: " ++ Number_toString 401 10.
Proof.
  destruct (analyzeWithOpenAI_non_ok host env_401 post_a (lit "sk-test")
              (worker_of store_with_key) 401
              (Throw (lit "Unexpected end of JSON input")) eq_refl)
    as (message & Hrun & Hthrow & _).
  exists message. split; [exact Hrun |]. by eapply Hthrow.
Defined.

(** The payload between fences. *)
Lemma analyzeWithOpenAI_ok_outcomes_witness :
  let run := analyzeWithOpenAI host env_high post_a (lit "sk-test")
               (worker_of store_with_key) in
  snd (fst run) = worker_of store_with_key /\
  snd run = [EFetch post_a (lit "sk-test")].
Proof.
  cbn zeta.
  destruct (analyzeWithOpenAI_ok_outcomes host env_high post_a (lit "sk-test")
              (worker_of store_with_key)
              (snd (fst (analyzeWithOpenAI host env_high post_a (lit "sk-test")
                           (worker_of store_with_key))))
              200
              (completion_body
                 (lit "```json" ++ [10] ++ payload ++ [10] ++ lit "```"))
              (fst (fst (analyzeWithOpenAI host env_high post_a (lit "sk-test")
                           (worker_of store_with_key))))
              (snd (analyzeWithOpenAI host env_high post_a (lit "sk-test")
                      (worker_of store_with_key))))
    as (Hw & Hev & _).
  - reflexivity.
  - by destruct (analyzeWithOpenAI _ _ _ _ _) as [[c w'] ev].
  - split; [exact Hw | exact Hev].
Defined.

Lemma clean_content_strips_fences_witness :
  clean_content host
    (VStr (lit "```json" ++ [10] ++ lit " {} " ++ [10] ++ lit "```"))
  = Return (trim (lit " {} ")).
Proof.
  destruct (clean_content_strips_fences host (lit " {} ")) as (_ & H & _).
  - apply (proj1 (bool_decide_eq_false _)). vm_compute. reflexivity.
  - exact H.
Defined.


Lemma handleAnalyzePost_keeps_settings_witness :
  let run := handleAnalyzePost host env_high post_a (worker_of store_with_key) in
  stored_apiKey (storage (snd (fst run))) = Some (lit "sk-test") /\
  stored_enabled (storage (snd (fst run))) = None.
Proof.
  cbn zeta.
  destruct (handleAnalyzePost_keeps_settings host env_high post_a
              (worker_of store_with_key)
              (snd (fst (handleAnalyzePost host env_high post_a
                           (worker_of store_with_key))))
              (fst (fst (handleAnalyzePost host env_high post_a
                           (worker_of store_with_key))))
              (snd (handleAnalyzePost host env_high post_a
                      (worker_of store_with_key))))
    as (Hkey & Hon & _).
  - by destruct (handleAnalyzePost _ _ _ _) as [[c w'] ev].
  - split; [exact Hkey | exact Hon].
Defined.

(** A bad key typed and saved, a good one typed and saved, an analysis. *)
Lemma stored_key_stays_accepted_witness :
  Popup.stored_accepted
    (snd (Popup.acts host
            [Popup.TypeKey (lit "pk-wrong"); Popup.ClickSave (Popup.Handled None);
             Popup.TypeKey (lit " sk-right "); Popup.ClickSave (Popup.Handled None);
             Popup.Analyze env_high post_a]
            (typed_page, worker_of store_with_key))).
Proof.
  apply (stored_key_stays_accepted host
           [Popup.TypeKey (lit "pk-wrong"); Popup.ClickSave (Popup.Handled None);
            Popup.TypeKey (lit " sk-right "); Popup.ClickSave (Popup.Handled None);
            Popup.Analyze env_high post_a]
           typed_page
           (fst (Popup.acts host
                   [Popup.TypeKey (lit "pk-wrong");
                    Popup.ClickSave (Popup.Handled None);
                    Popup.TypeKey (lit " sk-right ");
                    Popup.ClickSave (Popup.Handled None);
                    Popup.Analyze env_high post_a]
                   (typed_page, worker_of store_with_key)))
           (worker_of store_with_key)).
  - right. reflexivity.
  - by destruct (Popup.acts _ _ _).
Defined.

Lemma popup_save_outcome_witness :
  exists p' w',
    Popup.saveSettings (Popup.Handled None) typed_page
      (worker_of store_without_key) = (p', w') /\
    Popup.status_textContent p' = lit "Settings saved successfully!" /\
    stored_apiKey (storage w') = Some (lit "sk-live").
Proof.
  destruct (popup_save_outcome (Popup.Handled None) typed_page
              (worker_of store_without_key))
    as (p' & w' & Hrun & _ & Hgood).
  exists p', w'. split; [exact Hrun |].
  destruct Hgood as (_ & _ & Hsaved & _); [right; reflexivity |].
  destruct (Hsaved eq_refl) as (Htext & _ & Hkey & _).
  split; [exact Htext | exact Hkey].
Defined.

Lemma popup_save_then_open_witness :
  exists p1 w1 q1,
    Popup.saveSettings (Popup.Handled None) typed_page
      (worker_of store_without_key) = (p1, w1) /\
    Popup.init (Popup.Handled None) (Popup.Lost []) typed_page w1 = (q1, w1) /\
    Popup.apiKey_value q1 = trim (lit "  sk-live  ").
Proof.
  destruct (popup_save_then_open (Popup.Lost []) typed_page typed_page
              (worker_of store_without_key))
    as (p1 & w1 & q1 & Hsave & Hinit & Hkey & _).
  - right. reflexivity.
  - exists p1, w1, q1. split; [exact Hsave |]. split; [exact Hinit |].
    exact Hkey.
Defined.


(** The first post is classified; its article is then edited and
    scanned again. *)
Lemma terminal_tag_final_witness :
  let s := after [Scan; Reply 0 (Delivered env_high)] three_posts in
  let later := [Tick 0; Edit 0 (Some post_b); Scan] in
  tag_of 0 s = Some Complete /\
  tag_of 0 (after later s) = Some Complete.
Proof.
  cbn zeta. split; [vm_compute; reflexivity |].
  destruct (terminal_tag_final host
              [Some post_a; Some post_b; Some post_c] store_with_key
              [Scan; Reply 0 (Delivered env_high)]
              [Tick 0; Edit 0 (Some post_b); Scan]
              (after [Scan; Reply 0 (Delivered env_high)] three_posts)
              (after [Tick 0; Edit 0 (Some post_b); Scan]
                 (after [Scan; Reply 0 (Delivered env_high)] three_posts))
              (trace [Scan; Reply 0 (Delivered env_high)] three_posts)
              (trace [Tick 0; Edit 0 (Some post_b); Scan]
                 (after [Scan; Reply 0 (Delivered env_high)] three_posts))
              0%nat Complete) as (Htag & _).
  - vm_compute. reflexivity.
  - vm_compute. reflexivity.
  - discriminate.
  - vm_compute. reflexivity.
  - exact Htag.
Defined.

(** The second post leaves the document while the first is in flight;
    the timer passes it over; it returns and is scanned again. *)
Lemma passed_over_item_stays_pending_witness :
  let s := after [Scan; Remove 1; Reply 0 (Delivered env_high)] three_posts in
  let s' := after [Tick 0] s in
  let s'' := after [Attach 1 1; Scan] s' in
  shifted (trace [Tick 0] s) = [item_for 1 post_b; item_for 2 post_c] /\
  in_flight s' = [item_for 2 post_c] /\
  tag_of 1 s'' = Some Pending.
Proof.
  cbn zeta.
  assert (shifted (trace [Tick 0]
                     (after [Scan; Remove 1; Reply 0 (Delivered env_high)]
                        three_posts))
          = [item_for 1 post_b; item_for 2 post_c]) as Hshift
    by (vm_compute; reflexivity).
  assert (in_flight (after [Tick 0]
                       (after [Scan; Remove 1; Reply 0 (Delivered env_high)]
                          three_posts))
          = [item_for 2 post_c]) as Hfly
    by (vm_compute; reflexivity).
  split; [exact Hshift |]. split; [exact Hfly |].
  destruct (passed_over_item_stays_pending host
              [Some post_a; Some post_b; Some post_c] store_with_key
              [Scan; Remove 1; Reply 0 (Delivered env_high)]
              [Attach 1 1; Scan] (Tick 0)
              (after [Scan; Remove 1; Reply 0 (Delivered env_high)] three_posts)
              (after [Tick 0]
                 (after [Scan; Remove 1; Reply 0 (Delivered env_high)]
                    three_posts))
              (after [Attach 1 1; Scan]
                 (after [Tick 0]
                    (after [Scan; Remove 1; Reply 0 (Delivered env_high)]
                       three_posts)))
              (trace [Scan; Remove 1; Reply 0 (Delivered env_high)] three_posts)
              (trace [Tick 0]
                 (after [Scan; Remove 1; Reply 0 (Delivered env_high)]
                    three_posts))
              (trace [Attach 1 1; Scan]
                 (after [Tick 0]
                    (after [Scan; Remove 1; Reply 0 (Delivered env_high)]
                       three_posts)))
              (item_for 1 post_b)) as (_ & Htag & _).
  - vm_compute. reflexivity.
  - vm_compute. reflexivity.
  - rewrite Hshift. apply list_elem_of_here.
  - rewrite Hfly. intros Hin. apply list_elem_of_singleton in Hin.
    discriminate Hin.
  - vm_compute. reflexivity.
  - exact Htag.
Defined.



(** A request 400 ms after the last one waits 600 ms. *)
Lemma rate_limit_spaces_requests_witness :
  let run := handleAnalyzePost host env_soon post_a (worker_of store_with_key) in
  fetches (snd run) = [post_a] /\
  lastRequestTime (snd (fst run)) = 1000.
Proof.
  cbn zeta.
  assert (snd (handleAnalyzePost host env_soon post_a
                 (worker_of store_with_key))
          = [EStorageGet [lit "apiKey"; lit "enabled"]; ETimeout 600;
             EFetch post_a (lit "sk-test");
             EStorageGet [lit "stats"];
             EStorageSet (counted (lit "high") store_with_key)]) as Hev.
  { vm_compute. reflexivity. }
  destruct (rate_limit_spaces_requests host env_soon post_a
              (worker_of store_with_key)
              (snd (fst (handleAnalyzePost host env_soon post_a
                           (worker_of store_with_key))))
              (fst (fst (handleAnalyzePost host env_soon post_a
                           (worker_of store_with_key))))
              (snd (handleAnalyzePost host env_soon post_a
                      (worker_of store_with_key))))
    as [[Hnone _] | (Hfetch & Hstamp & _)].
  - by destruct (handleAnalyzePost _ _ _ _) as [[c w'] ev].
  - rewrite Hev. intros ms Hin.
    repeat (apply elem_of_cons in Hin as [Hin | Hin];
            [first [discriminate Hin | injection Hin as ->; cbn; lia] |]).
    by apply elem_of_nil in Hin.
  - cbn. lia.
  - exfalso. rewrite Hev in Hnone. discriminate Hnone.
  - split; [exact Hfetch | exact Hstamp].
Defined.

Lemma processTweets_idempotent_witness :
  let s' := fst (processTweets three_posts) in
  processTweets s' = (s', []).
Proof.
  cbn zeta.
  destruct (processTweets_idempotent three_posts
              (fst (processTweets three_posts))
              (snd (processTweets three_posts))) as (_ & Hagain).
  - by destruct (processTweets three_posts).
  - exact Hagain.
Defined.

(** Three batches within 120 ms: one timer is pending, and it fires
    200 ms after the last batch with new nodes. *)
Lemma observeFeed_debounces_witness :
  exists w,
    Watcher.run burst Watcher.initial = Some w /\
    (length (Watcher.timers w) <= 1)%nat /\
    forall T0, T0 ∈ Watcher.content_times burst ->
               T0 + Watcher.DEBOUNCE <= 250.
Proof.
  exists {| Watcher.timeout := Some 2%nat;
            Watcher.timers := [{| Watcher.handle := 2; Watcher.deadline := 250 |}];
            Watcher.fresh := 3 |}.
  split; [reflexivity |].
  destruct (observeFeed_debounces burst
              {| Watcher.timeout := Some 2%nat;
                 Watcher.timers :=
                   [{| Watcher.handle := 2; Watcher.deadline := 250 |}];
                 Watcher.fresh := 3 |}
              {| Watcher.timeout := Some 2%nat; Watcher.timers := [];
                 Watcher.fresh := 3 |} 250 2) as (Hlen & Hfire).
  - cbn. repeat split; repeat constructor; lia.
  - reflexivity.
  - split; [exact Hlen |]. apply Hfire. vm_compute. reflexivity.
Defined.

Lemma result_badge_stays_witness :
  let s := after [Scan; Reply 0 (Delivered env_high)] three_posts in
  let later := [Tick 0; Remove 0; Scan] in
  badge_of 0 (after later s) = Some (ResultBadge the_analysis).
Proof.
  cbn zeta.
  destruct (result_badge_stays host
              [Some post_a; Some post_b; Some post_c] store_with_key
              [Scan; Reply 0 (Delivered env_high)]
              [Tick 0; Remove 0; Scan]
              (after [Scan; Reply 0 (Delivered env_high)] three_posts)
              (after [Tick 0; Remove 0; Scan]
                 (after [Scan; Reply 0 (Delivered env_high)] three_posts))
              (trace [Scan; Reply 0 (Delivered env_high)] three_posts)
              (trace [Tick 0; Remove 0; Scan]
                 (after [Scan; Reply 0 (Delivered env_high)] three_posts))
              0%nat the_analysis) as (_ & _ & Hbadge).
  - vm_compute. reflexivity.
  - vm_compute. reflexivity.
  - vm_compute. reflexivity.
  - exact Hbadge.
Defined.

End Instances.
